(** * Smog-level classifier: a shallow embedding of
      [src/utils/logisticRegression.ts]

    The TypeScript module implements a one-vs-all logistic regression
    (class [MultiClassLogisticRegression]).  A JavaScript [number] is an
    IEEE-754 binary64 value, which is exactly Rocq's primitive [float]:
    [+], [-], [*], [/], [<], [===] below are the kernel's binary64
    operations, so NaN, the two zeros and the infinities behave as they do
    in the source.  What the language leaves to the host -- [Math.exp],
    [Math.log] and [Math.random] -- is a parameter of the development.
    The label functions of [src/utils/dataGenerator.ts], the tables of the
    prediction form and the [trainModel] of the dashboard, which feed and
    call the classifier, have sections of their own. *)

From Stdlib Require Import String ZArith List Bool Lia Sorted Permutation.
From Stdlib Require Import Uint63 Floats.
Import ListNotations.

Set Warnings "-inexact-float".
Local Open Scope Z_scope.

(* ================================================================== *)
(** ** JavaScript numbers and arrays *)
(* ================================================================== *)

Module JS.

Abbreviation number := float.

(** [a.length] as a number.  Array lengths are below 2^32, far inside the
    range where the conversion is exact. *)
Definition num_of_Z (z : Z) : number := PrimFloat.of_uint63 (Uint63.of_Z z).
Definition num_of_nat (n : nat) : number := num_of_Z (Z.of_nat n).

(** [a[i]] read as a number: a read past the end yields [undefined], and
    [undefined] in arithmetic is NaN. *)
Definition get (a : list number) (i : nat) : number := nth i a nan.

(** [Math.max(...xs)], as ECMAScript defines it: start from -Infinity,
    return NaN as soon as one argument is NaN, let +0 beat -0. *)
Definition max_step (highest x : number) : number :=
  if is_nan highest || is_nan x then nan
  else if is_zero x && is_zero highest && get_sign highest && negb (get_sign x)
       then x
  else if (highest <? x)%float then x else highest.

Definition Math_max (xs : list number) : number :=
  fold_left max_step xs neg_infinity.

(** [Math.min(...xs)]: dual, from +Infinity, -0 beats +0. *)
Definition min_step (lowest x : number) : number :=
  if is_nan lowest || is_nan x then nan
  else if is_zero x && is_zero lowest && negb (get_sign lowest) && get_sign x
       then x
  else if (x <? lowest)%float then x else lowest.

Definition Math_min (xs : list number) : number :=
  fold_left min_step xs infinity.

Definition Math_abs (x : number) : number := abs x.

(** [xs.indexOf(v)]: first index whose element is strictly equal ([===])
    to [v], or -1.  On numbers [===] is the IEEE equality: NaN is equal to
    nothing, +0 equals -0. *)
Fixpoint indexOf_from (xs : list number) (v : number) (i : Z) : Z :=
  match xs with
  | [] => -1
  | x :: rest => if (x =? v)%float then i else indexOf_from rest v (i + 1)
  end.

Definition indexOf (xs : list number) (v : number) : Z := indexOf_from xs v 0.

(** Truthiness of a number: everything but +0, -0 and NaN. *)
Definition truthy (x : number) : bool := negb (is_nan x || is_zero x).

(** [x || y] on numbers. *)
Definition or_else (x y : number) : number := if truthy x then x else y.

(** [xs.map((v, i) => f v i)] *)
Fixpoint mapi_from {A B} (f : A -> nat -> B) (xs : list A) (i : nat) : list B :=
  match xs with
  | [] => []
  | x :: rest => f x i :: mapi_from f rest (S i)
  end.

Definition mapi {A B} (f : A -> nat -> B) (xs : list A) : list B :=
  mapi_from f xs 0.

(** [xs.reduce((acc, v, i) => f acc v i, init)] *)
Fixpoint reducei_from {A B} (f : B -> A -> nat -> B) (xs : list A) (i : nat)
  (acc : B) : B :=
  match xs with
  | [] => acc
  | x :: rest => reducei_from f rest (S i) (f acc x i)
  end.

Definition reducei {A B} (f : B -> A -> nat -> B) (xs : list A) (init : B) : B :=
  reducei_from f xs 0 init.

(** [for (let i = lo; i < lo + n; i++) s = body i s] *)
Fixpoint for_from {S} (lo : nat) (n : nat) (body : nat -> S -> S) (s : S) : S :=
  match n with
  | O => s
  | Datatypes.S n' => for_from (Datatypes.S lo) n' body (body lo s)
  end.

Definition for_upto {S} (n : nat) (body : nat -> S -> S) (s : S) : S :=
  for_from 0 n body s.

(** [a[i] = v] on an index inside the array. *)
Fixpoint set_nth {A} (a : list A) (i : nat) (v : A) : list A :=
  match a, i with
  | [], _ => []
  | _ :: rest, O => v :: rest
  | x :: rest, Datatypes.S i' => x :: set_nth rest i' v
  end.

(** [Array.prototype.sort(cmp)]: ECMAScript requires a stable sort; under a
    comparator that is a consistent ordering every stable sort returns the
    same array, here computed by stable insertion.  [cmp a b > 0] is the
    only answer that moves [b] in front of [a]. *)
Fixpoint sort_insert {A} (cmp : A -> A -> number) (x : A) (l : list A) : list A :=
  match l with
  | [] => [x]
  | y :: rest =>
      if (0 <? cmp x y)%float then y :: sort_insert cmp x rest
      else x :: y :: rest
  end.

Definition sort {A} (cmp : A -> A -> number) (l : list A) : list A :=
  fold_right (sort_insert cmp) [] l.

(** [Math.floor]: NaN, the infinities, the zeros and the integers are
    returned as they are; any other number is [+- m * 2^e] with [e < 0],
    and goes to the largest integer not above it: [floor(m / 2^(-e))], or
    minus [ceil(m / 2^(-e))]. *)
Definition Math_floor (x : number) : number :=
  match Prim2SF x with
  | S754_finite s m e =>
      if 0 <=? e then x
      else if s then (- num_of_Z ((Zpos m + 2 ^ (- e) - 1) / 2 ^ (- e)))%float
      else num_of_Z (Zpos m / 2 ^ (- e))
  | _ => x
  end.

(** [ToIntegerOrInfinity]: NaN and the zeros go to 0, a finite number is
    truncated towards 0. *)
Inductive IntegerOrInfinity :=
| Finite (z : Z)
| PlusInfinity
| MinusInfinity.

Definition ToIntegerOrInfinity (x : number) : IntegerOrInfinity :=
  match Prim2SF x with
  | S754_nan => Finite 0
  | S754_zero _ => Finite 0
  | S754_infinity s => if s then MinusInfinity else PlusInfinity
  | S754_finite s m e =>
      Finite (cond_Zopp s (if 0 <=? e then Zpos m * 2 ^ e else Zpos m / 2 ^ (- e)))
  end.

(** The index [Array.prototype.slice] makes of an argument on an array of
    [len] elements: a negative one counts from the end, and the result is
    clamped to [0, len]. *)
Definition relative_index (len : nat) (i : IntegerOrInfinity) : nat :=
  match i with
  | MinusInfinity => 0
  | PlusInfinity => len
  | Finite z =>
      if z <? 0 then Z.to_nat (Z.max (Z.of_nat len + z) 0)
      else Z.to_nat (Z.min z (Z.of_nat len))
  end.

(** [xs.slice(start, end)]; [xs.slice(start)] is [slice xs start None]. *)
Definition slice {A} (xs : list A) (start : number) (end_ : option number) : list A :=
  let len := length xs in
  let k := relative_index len (ToIntegerOrInfinity start) in
  let final :=
    match end_ with
    | None => len
    | Some e => relative_index len (ToIntegerOrInfinity e)
    end in
  firstn (final - k) (skipn k xs).

End JS.

Import JS.

(* ================================================================== *)
(** ** Data model ([src/types.ts]) *)
(* ================================================================== *)

(** [SmogLevel.value] is documented as "0-5 for logistic regression": a
    class index, kept as an integer.  The other fields of [SmogLevel]
    and of [AirQualityData] (id, timestamp, city, pm10, aqi, level, color,
    description) are never read by the classifier and are left out. *)
Record SmogLevel := { value : Z }.

Record AirQualityData := {
  pm25 : number;
  temperature : number;
  humidity : number;
  windSpeed : number;
  visibility : number;
  pressure : number;
  smogLevel : SmogLevel
}.

Record PredictionInput := {
  in_pm25 : number;
  in_temperature : number;
  in_humidity : number;
  in_windSpeed : number;
  in_visibility : number;
  in_pressure : number
}.

Record LogisticRegressionModel := {
  weights : list number;
  bias : number;
  trained : bool
}.

Record RocPoint := { fpr : number; tpr : number }.

Record ModelMetrics := {
  accuracy : number;
  precision : number;
  recall : number;
  f1Score : number;
  confusionMatrix : list (list Z);
  rocCurve : list RocPoint
}.

Record PredictionResult := {
  prediction : Z;
  probabilities : list number;
  confidence : number
}.

Record FeatureScore := { feature : string; importance : number }.

(** The mutable fields of a [MultiClassLogisticRegression] object.
    [numClasses] and [featureNames] are assigned once, in the field
    initialisers, and appear below as constants. *)
Record Classifier := {
  models : list LogisticRegressionModel;
  featureMins : list number;
  featureMaxs : list number
}.

Definition numClasses : nat := 6.

Definition featureNames : list string :=
  ["PM2.5"; "Temperature"; "Humidity"; "Wind Speed"; "Visibility"; "Pressure"]%string.

(** [new MultiClassLogisticRegression()] *)
Definition fresh : Classifier :=
  {| models := []; featureMins := []; featureMaxs := [] |}.

(** What a call can end with.  [TypeError] is what JavaScript throws on a
    property read of [undefined]. *)
Inductive JSError := TypeError.

(* ================================================================== *)
(** ** The classifier *)
(* ================================================================== *)

Section Host.

(** The host's [Math.exp] and [Math.log], and its random source: a state
    [RNG] from which [Math.random()] draws a number and moves on. *)
Variable Math_exp : number -> number.
Variable Math_log : number -> number.
Variable RNG : Type.
Variable Math_random : RNG -> number * RNG.

(** The state a method runs in: the object ([this]) and the random source. *)
Record World := { self : Classifier; rng : RNG }.

Inductive Outcome (A : Type) :=
| Normal (a : A) (w : World)
| Throw (e : JSError) (w : World)
| OffGrid (w : World).
Arguments Normal {A} a w.
Arguments Throw {A} e w.
Arguments OffGrid {A} w.

Definition M (A : Type) := World -> Outcome A.

Definition ret {A} (a : A) : M A := fun w => Normal a w.

Definition bind {A B} (c : M A) (k : A -> M B) : M B :=
  fun w => match c w with
           | Normal a w' => k a w'
           | Throw e w' => Throw e w'
           | OffGrid w' => OffGrid w'
           end.

Definition throw {A} (e : JSError) : M A := fun w => Throw e w.
Definition this : M Classifier := fun w => Normal (self w) w.
Definition assign (f : Classifier -> Classifier) : M unit :=
  fun w => Normal tt {| self := f (self w); rng := rng w |}.
Definition random : M number :=
  fun w => let (r, g) := Math_random (rng w) in
           Normal r {| self := self w; rng := g |}.

Notation "x <- c ;; k" := (bind c (fun x => k))
  (at level 61, c at next level, right associativity).
Notation "c ;;; k" := (bind c (fun _ => k))
  (at level 61, right associativity).

(** [for (let i = lo; i < lo + n; i++) body(i)] with effects. *)
Fixpoint forM_from (lo n : nat) (body : nat -> M unit) : M unit :=
  match n with
  | O => ret tt
  | S n' => body lo ;;; forM_from (S lo) n' body
  end.

(** [xs.map(f)] / [xs.forEach(f)] with an effectful callback, in order. *)
Fixpoint mapM {A B} (f : A -> M B) (xs : list A) : M (list B) :=
  match xs with
  | [] => ret []
  | x :: rest => y <- f x ;; ys <- mapM f rest ;; ret (y :: ys)
  end.

(** *** Module-level helpers *)

(** [sigmoid]: [1 / (1 + Math.exp(-Math.max(-500, Math.min(500, z))))] *)
Definition sigmoid (z : number) : number :=
  (1 / (1 + Math_exp (- Math_max [(-500)%float; Math_min [500%float; z]])))%float.

(** [normalizeFeatures] *)
Definition normalizeFeatures (data : list (list number)) (mins maxs : list number)
  : list (list number) :=
  map (fun row =>
         mapi (fun value i => ((value - get mins i) / (get maxs i - get mins i))%float) row)
      data.

Definition feature_row (d : AirQualityData) : list number :=
  [pm25 d; temperature d; humidity d; windSpeed d; visibility d; pressure d].

(** [extractFeatures]: [features[0].map] throws a [TypeError] when there is
    no row 0. *)
Definition extractFeatures (data : list AirQualityData)
  : JSError + (list (list number) * list Z * list number * list number) :=
  let features := map feature_row data in
  let labels := map (fun d => value (smogLevel d)) data in
  match features with
  | [] => inl TypeError
  | row0 :: _ =>
      let mins := mapi (fun _ i => Math_min (map (fun row => get row i) features)) row0 in
      let maxs := mapi (fun _ i => Math_max (map (fun row => get row i) features)) row0 in
      inr (features, labels, mins, maxs)
  end.

(** *** [trainBinaryClassifier] *)

Definition learningRate : number := 0.01%float.
Definition epochs : nat := 1000.
Definition lambda : number := 0.01%float.

(** [Array(n).fill(0).map(() => (Math.random() - 0.5) * 0.01)] *)
Fixpoint random_weights (n : nat) : M (list number) :=
  match n with
  | O => ret []
  | S n' =>
      r <- random ;;
      rest <- random_weights n' ;;
      ret (((r - 0.5) * 0.01)%float :: rest)
  end.

(** [x.reduce((sum, xi, j) => sum + xi * weights[j], bias)] *)
Definition forward (ws : list number) (b : number) (x : list number) : number :=
  reducei (fun sum xi j => (sum + xi * get ws j)%float) x b.

(** The accumulators of one epoch. *)
Record EpochAcc := {
  totalLoss : number;
  weightGradients : list number;
  biasGradient : number
}.

(** Body of the loop over the samples: forward pass, loss, gradients. *)
Definition sample_step (numFeatures : nat) (ws : list number) (b : number)
  (acc : EpochAcc) (x : list number) (y : number) : EpochAcc :=
  let z := forward ws b x in
  let prediction := sigmoid z in
  let loss := ((- y) * Math_log (Math_max [prediction; 1e-15%float])
               - (1 - y) * Math_log (Math_max [(1 - prediction)%float; 1e-15%float]))%float in
  let error := (prediction - y)%float in
  {| totalLoss := (totalLoss acc + loss)%float;
     weightGradients :=
       for_upto numFeatures
         (fun j g => set_nth g j (get g j + error * get x j)%float)
         (weightGradients acc);
     biasGradient := (biasGradient acc + error)%float |}.

(** One epoch: the pass over all samples with the weights of the epoch's
    start, then the update.  The source's trailing
    [if (epoch % 100 === 0 && epoch > 0) { }] has an empty body. *)
Definition epoch_step (features : list (list number)) (binaryLabels : list number)
  (numFeatures : nat) (epoch : nat) (wb : list number * number)
  : list number * number :=
  let (ws, b) := wb in
  let acc0 := {| totalLoss := 0%float; weightGradients := repeat 0%float numFeatures;
                 biasGradient := 0%float |} in
  let acc := reducei (fun acc x i => sample_step numFeatures ws b acc x (get binaryLabels i))
                     features acc0 in
  let n := num_of_nat (length features) in
  let ws' := for_upto numFeatures
               (fun j w => set_nth w j
                  (get w j - learningRate * (get (weightGradients acc) j / n + lambda * get w j))%float)
               ws in
  let b' := (b - learningRate * (biasGradient acc / n))%float in
  (ws', b').

Definition trainBinaryClassifier (features : list (list number)) (labels : list Z)
  (targetClass : Z) : M LogisticRegressionModel :=
  let binaryLabels := map (fun label => if label =? targetClass then 1%float else 0%float) labels in
  match features with
  | [] => throw TypeError
  | row0 :: _ =>
      let numFeatures := length row0 in
      ws0 <- random_weights numFeatures ;;
      let (ws, b) := for_upto epochs (epoch_step features binaryLabels numFeatures)
                              (ws0, 0%float) in
      ret {| weights := ws; bias := b; trained := true |}
  end.

(** *** [train] *)
Definition train (data : list AirQualityData) : M unit :=
  match extractFeatures data with
  | inl e => throw e
  | inr (features, labels, mins, maxs) =>
      assign (fun c => {| models := models c; featureMins := mins; featureMaxs := featureMaxs c |}) ;;;
      assign (fun c => {| models := models c; featureMins := featureMins c; featureMaxs := maxs |}) ;;;
      let normalizedFeatures := normalizeFeatures features mins maxs in
      assign (fun c => {| models := []; featureMins := featureMins c; featureMaxs := featureMaxs c |}) ;;;
      forM_from 0 numClasses (fun classLabel =>
        model <- trainBinaryClassifier normalizedFeatures labels (Z.of_nat classLabel) ;;
        assign (fun c => {| models := models c ++ [model];
                            featureMins := featureMins c; featureMaxs := featureMaxs c |}))
  end.

(** *** [predict] *)
Definition input_row (input : PredictionInput) : list number :=
  [in_pm25 input; in_temperature input; in_humidity input;
   in_windSpeed input; in_visibility input; in_pressure input].

Definition predict (input : PredictionInput) : M PredictionResult :=
  c <- this ;;
  let features := input_row input in
  let normalizedFeatures :=
    mapi (fun value i =>
            ((value - get (featureMins c) i) / (get (featureMaxs c) i - get (featureMins c) i))%float)
         features in
  let probabilities :=
    map (fun model =>
           if negb (trained model) then 0%float
           else sigmoid (forward (weights model) (bias model) normalizedFeatures))
        (models c) in
  let prediction := indexOf probabilities (Math_max probabilities) in
  let confidence := Math_max probabilities in
  ret {| prediction := prediction; probabilities := probabilities; confidence := confidence |}.

(** *** [getFeatureImportance] *)

(** [this.models.reduce((sum, model) => sum + Math.abs(model.weights[i]), 0)
      / this.models.length] *)
Definition avgWeight (ms : list LogisticRegressionModel) (i : nat) : number :=
  (fold_left (fun sum model => (sum + Math_abs (get (weights model) i))%float) ms 0%float
   / num_of_nat (length ms))%float.

(** The comparator handed to [sort]: [(a, b) => b.importance - a.importance] *)
Definition by_importance_desc (a b : FeatureScore) : number :=
  (importance b - importance a)%float.

Definition getFeatureImportance : M (list FeatureScore) :=
  c <- this ;;
  let raw :=
    mapi (fun name i => {| feature := name; importance := avgWeight (models c) i |})
         featureNames in
  let maxImportance := Math_max (map importance raw) in
  ret (sort by_importance_desc
            (map (fun item => {| feature := feature item;
                                 importance := (importance item / maxImportance)%float |})
                 raw)).

(** *** [evaluate] *)

Definition to_input (data : AirQualityData) : PredictionInput :=
  {| in_pm25 := pm25 data; in_temperature := temperature data;
     in_humidity := humidity data; in_windSpeed := windSpeed data;
     in_visibility := visibility data; in_pressure := pressure data |}.

Definition offgrid {A} : M A := fun w => OffGrid w.

(** [confusionMatrix[a][p]++].  The cells are counters: integer-valued
    numbers, exact below 2^53, which no array length reaches.
    - [confusionMatrix[a]] is [undefined] when [a] is no row: the element
      read on it throws a [TypeError];
    - [p = -1] (what [indexOf] answers when nothing matches) is not an array
      index: the statement stores NaN under the property ["-1"] of that row
      and touches none of its cells;
    - [p] past the row's end would grow the row; [predict] answers an index
      below [models.length] and [train] builds [numClasses] models, so the
      embedding stops there ([OffGrid]) instead of modelling sparse rows. *)
Definition bump (m : list (list Z)) (a p : Z) : M (list (list Z)) :=
  if (a <? 0) || (Z.of_nat (length m) <=? a) then throw TypeError
  else
    let row := nth (Z.to_nat a) m [] in
    if p <? 0 then ret m
    else if Z.of_nat (length row) <=? p then offgrid
    else ret (set_nth m (Z.to_nat a)
                (set_nth row (Z.to_nat p) (nth (Z.to_nat p) row 0 + 1))).

(** [for (let i = 0; i < predictions.length; i++) confusionMatrix[actual[i]][predictions[i]]++];
    [actual] and [predictions] receive one push per record, so the loop
    walks them in step. *)
Fixpoint fill_matrix (m : list (list Z)) (pairs : list (Z * Z)) : M (list (list Z)) :=
  match pairs with
  | [] => ret m
  | (a, p) :: rest => m' <- bump m a p ;; fill_matrix m' rest
  end.

Definition zero_matrix : list (list Z) := repeat (repeat 0 numClasses) numClasses.

(** Counters as numbers in a quotient. *)
Definition class_tp (m : list (list Z)) (classIdx : nat) : Z :=
  nth classIdx (nth classIdx m []) 0.
Definition class_fp (m : list (list Z)) (classIdx : nat) : Z :=
  reducei (fun sum row i => if Nat.eqb i classIdx then sum else sum + nth classIdx row 0) m 0.
Definition class_fn (m : list (list Z)) (classIdx : nat) : Z :=
  reducei (fun sum val j => if Nat.eqb j classIdx then sum else sum + val) (nth classIdx m []) 0.

(** [tp / (tp + fp) || 0], [tp / (tp + fn) || 0] *)
Definition ratio_or_0 (tp other : Z) : number :=
  or_else (num_of_Z tp / num_of_Z (tp + other))%float 0%float.

(** [2 * (precision * recall) / (precision + recall) || 0] *)
Definition f1_of (p r : number) : number :=
  or_else (2 * (p * r) / (p + r))%float 0%float.

Definition class_precision (m : list (list Z)) (classIdx : nat) : number :=
  ratio_or_0 (class_tp m classIdx) (class_fp m classIdx).
Definition class_recall (m : list (list Z)) (classIdx : nat) : number :=
  ratio_or_0 (class_tp m classIdx) (class_fn m classIdx).
Definition class_f1 (m : list (list Z)) (classIdx : nat) : number :=
  f1_of (class_precision m classIdx) (class_recall m classIdx).

(** [Array.from({ length: n }, (_, i) => f i)], from index [lo]. *)
Fixpoint array_from {A} (lo n : nat) (f : nat -> M A) : M (list A) :=
  match n with
  | O => ret []
  | S n' => y <- f lo ;; ys <- array_from (S lo) n' f ;; ret (y :: ys)
  end.

Definition roc_point (i : nat) : M RocPoint :=
  r <- random ;;
  ret {| fpr := (num_of_nat i / 10)%float;
         tpr := Math_min [1%float; (num_of_nat i / 10 + 0.1 + r * 0.1)%float] |}.

Definition evaluate (testData : list AirQualityData) : M ModelMetrics :=
  results <- mapM (fun data =>
                     result <- predict (to_input data) ;;
                     ret (value (smogLevel data), prediction result))
                  testData ;;
  let actual := map fst results in
  let predictions := map snd results in
  confusionMatrix <- fill_matrix zero_matrix (combine actual predictions) ;;
  let matches := filter (fun ap => Z.eqb (snd ap) (fst ap)) (combine actual predictions) in
  let accuracy := (num_of_nat (length matches) / num_of_nat (length predictions))%float in
  let '(totalPrecision, totalRecall, totalF1) :=
    for_upto numClasses
      (fun classIdx '(tP, tR, tF) =>
         ((tP + class_precision confusionMatrix classIdx)%float,
          (tR + class_recall confusionMatrix classIdx)%float,
          (tF + class_f1 confusionMatrix classIdx)%float))
      (0%float, 0%float, 0%float) in
  rocCurve <- array_from 0 11 roc_point ;;
  ret {| accuracy := accuracy;
         precision := (totalPrecision / num_of_nat numClasses)%float;
         recall := (totalRecall / num_of_nat numClasses)%float;
         f1Score := (totalF1 / num_of_nat numClasses)%float;
         confusionMatrix := confusionMatrix;
         rocCurve := rocCurve |}.

(* ------------------------------------------------------------------ *)
(** *** Reference forms, for the statements below *)

(** The result [predict] computes from the object's three fields. *)
Definition predict_with (ms : list LogisticRegressionModel) (mins maxs : list number)
  (input : PredictionInput) : PredictionResult :=
  let normalizedFeatures :=
    mapi (fun value i => ((value - get mins i) / (get maxs i - get mins i))%float)
         (input_row input) in
  let probabilities :=
    map (fun model =>
           if negb (trained model) then 0%float
           else sigmoid (forward (weights model) (bias model) normalizedFeatures))
        ms in
  {| prediction := indexOf probabilities (Math_max probabilities);
     probabilities := probabilities;
     confidence := Math_max probabilities |}.

(** The numbers [random_weights] draws, as a function of the source's
    state. *)
Fixpoint draw_weights (n : nat) (g : RNG) : list number * RNG :=
  match n with
  | O => ([], g)
  | S n' =>
      let (r, g1) := Math_random g in
      let (rest, g2) := draw_weights n' g1 in
      (((r - 0.5) * 0.01)%float :: rest, g2)
  end.

(** The mean of a list of numbers: its sum from 0, left to right, over
    its length. *)
Definition mean (l : list number) : number :=
  (fold_left add l 0 / num_of_nat (length l))%float.

(** [w . x + b], the products added to [b] from the first feature on. *)
Definition affine (ws : list number) (b : number) (x : list number) : number :=
  fold_left (fun s p => (s + fst p * snd p)%float) (combine x ws) b.

(** One step of batch gradient descent as the specification writes it:
    [w_j := w_j - 0.01 * (mean_i ((sigmoid (w.x_i + b) - y_i) * x_i_j) + 0.01 * w_j)]
    and [b := b - 0.01 * mean_i (sigmoid (w.x_i + b) - y_i)]. *)
Definition gd_update (X : list (list number)) (ys : list number)
  (wb : list number * number) : list number * number :=
  let (ws, b) := wb in
  let errors := mapi (fun x i => (sigmoid (affine ws b x) - get ys i)%float) X in
  (mapi (fun wj j =>
           (wj - 0.01 * (mean (map (fun ex => fst ex * get (snd ex) j) (combine errors X))
                         + 0.01 * wj))%float)
        ws,
   (b - 0.01 * mean errors)%float).

(** The points [Array.from({ length: n }, ...)] builds in [evaluate], as a
    function of the random source's state. *)
Fixpoint draw_roc (lo n : nat) (g : RNG) : list RocPoint * RNG :=
  match n with
  | O => ([], g)
  | S n' =>
      let (r, g1) := Math_random g in
      let (rest, g2) := draw_roc (S lo) n' g1 in
      ({| fpr := (num_of_nat lo / 10)%float;
          tpr := Math_min [1%float; (num_of_nat lo / 10 + 0.1 + r * 0.1)%float] |} :: rest,
       g2)
  end.

(** The numbers [Math.random()] returns on its next [n] calls. *)
Fixpoint draws (n : nat) (g : RNG) : list number :=
  match n with
  | O => []
  | S n' => let (r, g1) := Math_random g in r :: draws n' g1
  end.

(** How filling the confusion matrix ends, the state left aside. *)
Inductive Filled :=
| Filled_ok (m : list (list Z))
| Filled_throw
| Filled_offgrid.

Definition bump_pure (m : list (list Z)) (a p : Z) : Filled :=
  if (a <? 0) || (Z.of_nat (length m) <=? a) then Filled_throw
  else
    let row := nth (Z.to_nat a) m [] in
    if p <? 0 then Filled_ok m
    else if Z.of_nat (length row) <=? p then Filled_offgrid
    else Filled_ok (set_nth m (Z.to_nat a)
                      (set_nth row (Z.to_nat p) (nth (Z.to_nat p) row 0 + 1))).

Fixpoint fill_pure (m : list (list Z)) (pairs : list (Z * Z)) : Filled :=
  match pairs with
  | [] => Filled_ok m
  | (a, p) :: rest =>
      match bump_pure m a p with
      | Filled_ok m' => fill_pure m' rest
      | other => other
      end
  end.

(** The report [evaluate] returns, from the filled matrix, the
    (actual, predicted) pairs and the ROC points. *)
Definition metrics_of (cm : list (list Z)) (pairs : list (Z * Z)) (roc : list RocPoint)
  : ModelMetrics :=
  let matches := filter (fun ap => Z.eqb (snd ap) (fst ap)) pairs in
  let '(totalPrecision, totalRecall, totalF1) :=
    for_upto numClasses
      (fun classIdx '(tP, tR, tF) =>
         ((tP + class_precision cm classIdx)%float,
          (tR + class_recall cm classIdx)%float,
          (tF + class_f1 cm classIdx)%float))
      (0%float, 0%float, 0%float) in
  {| accuracy := (num_of_nat (length matches) / num_of_nat (length pairs))%float;
     precision := (totalPrecision / num_of_nat numClasses)%float;
     recall := (totalRecall / num_of_nat numClasses)%float;
     f1Score := (totalF1 / num_of_nat numClasses)%float;
     confusionMatrix := cm;
     rocCurve := roc |}.

(** The (actual, predicted) pairs [evaluate] collects. *)
Definition eval_pairs (c : Classifier) (testData : list AirQualityData) : list (Z * Z) :=
  map (fun data =>
         (value (smogLevel data),
          prediction (predict_with (models c) (featureMins c) (featureMaxs c)
                                   (to_input data))))
      testData.

(** Sums over the confusion matrix, for the statements about it. *)
Definition sumZ (l : list Z) : Z := fold_right Z.add 0 l.
Definition matrix_sum (m : list (list Z)) : Z := sumZ (map sumZ m).
Definition diag_sum (m : list (list Z)) : Z :=
  sumZ (map (fun c => class_tp m c) (seq 0 numClasses)).
Definition cell (m : list (list Z)) (a p : nat) : Z := nth p (nth a m []) 0.

(** How many (actual, predicted) pairs are exactly [(a, p)]. *)
Definition count_pairs (pairs : list (Z * Z)) (a p : Z) : Z :=
  Z.of_nat (length (filter (fun ap => (fst ap =? a) && (snd ap =? p)) pairs)).

(** A [numClasses] x [numClasses] grid. *)
Definition grid (m : list (list Z)) : Prop :=
  length m = numClasses /\ Forall (fun row => length row = numClasses) m.

(** The scores of [getFeatureImportance] before sorting: feature [i] with
    the average magnitude of its weight over the models, divided by the
    largest of the six averages. *)
Definition average_weights (ms : list LogisticRegressionModel) : list number :=
  map (avgWeight ms) (seq 0 (length featureNames)).

Definition normalized_scores (ms : list LogisticRegressionModel) : list FeatureScore :=
  map (fun i => {| feature := nth i featureNames EmptyString;
                   importance := (avgWeight ms i / Math_max (average_weights ms))%float |})
      (seq 0 (length featureNames)).

(** [b] does not score higher than [a]. *)
Definition descending (a b : FeatureScore) : Prop :=
  (importance b <=? importance a)%float = true.

(** The state a call leaves behind, however it ends. *)
Definition world_of {A} (o : Outcome A) : World :=
  match o with
  | Normal _ w => w
  | Throw _ w => w
  | OffGrid w => w
  end.

(** The calls a client can make on a trained classifier besides [train]. *)
Inductive Call :=
| CallPredict (input : PredictionInput)
| CallEvaluate (testData : list AirQualityData)
| CallImportance.

Definition run_call (c : Call) (w : World) : World :=
  match c with
  | CallPredict input => world_of (predict input w)
  | CallEvaluate testData => world_of (evaluate testData w)
  | CallImportance => world_of (getFeatureImportance w)
  end.

Definition run_calls (cs : list Call) (w : World) : World :=
  fold_left (fun w c => run_call c w) cs w.

(** The model [trainBinaryClassifier] returns for [targetClass] when the
    random source is in state [g]: 1000 steps of [gd_update] on the labels
    [label === targetClass ? 1 : 0], from the weights drawn at [g] and
    bias 0. *)
Definition one_vs_all_model (X : list (list number)) (labels : list Z)
  (targetClass : Z) (g : RNG) : LogisticRegressionModel :=
  let ys := map (fun label => if label =? targetClass then 1%float else 0%float) labels in
  let wb := Nat.iter 1000 (gd_update X ys)
                     (fst (draw_weights (length (hd [] X)) g), 0%float) in
  {| weights := fst wb; bias := snd wb; trained := true |}.

(** The random source after the weights of [k] models over [n] features
    have been drawn. *)
Definition after_models (n k : nat) (g : RNG) : RNG :=
  Nat.iter k (fun g => snd (draw_weights n g)) g.

(* ------------------------------------------------------------------ *)
(** *** The caller: [trainModel] of the [Dashboard] component
        ([src/components/ModelMetricsDisplay.tsx]) *)

(** What [trainModel] computes between its updates of the component's
    state: the split of the records, [train] on the first part and
    [evaluate] on the rest, both on the one classifier of the page.  The
    result is the value handed to [setMetrics]; the flags [isTraining] and
    [modelTrained] and the delay before the split are not modelled. *)
Definition trainModel (trainingData : list AirQualityData) : M ModelMetrics :=
  let trainSize := Math_floor (num_of_nat (length trainingData) * 0.8)%float in
  let trainData := slice trainingData 0%float (Some trainSize) in
  let testData := slice trainingData trainSize None in
  train trainData ;;;
  evaluate testData.

End Host.

Arguments Normal {RNG A} a w.
Arguments Throw {RNG A} e w.
Arguments OffGrid {RNG A} w.
Arguments self {RNG} w.
Arguments rng {RNG} w.
Arguments world_of {RNG A} o.

(* ================================================================== *)
(** ** A concrete host, to run the embedding *)
(* ================================================================== *)

(** ECMAScript fixes [Math.exp] and [Math.log] on the special values and
    asks for an implementation-approximated result elsewhere.  The host
    below honours the special values and approximates the rest (a Taylor
    polynomial at [x / 1024] squared ten times; an atanh series).  Its
    random source is a linear congruential generator over 53-bit states,
    read as a number in [0, 1).  Closed examples are run on it; none of the
    general theorems depends on it. *)
Module RefHost.

Definition taylor_exp (r : number) : number :=
  (1 + r * (1 + r / 2 * (1 + r / 3 * (1 + r / 4 * (1 + r / 5 * (1 + r / 6 *
   (1 + r / 7 * (1 + r / 8 * (1 + r / 9 * (1 + r / 10 * (1 + r / 11 *
   (1 + r / 12))))))))))))%float.

Definition exp (x : number) : number :=
  if is_nan x then nan
  else if (x =? infinity)%float then infinity
  else if (x =? neg_infinity)%float then 0%float
  else Nat.iter 10 (fun y => (y * y)%float) (taylor_exp (x / 1024)%float).

(** [ln x = 2 * atanh ((x - 1) / (x + 1))], by its series; crude away
    from 1, which is all the embedding needs of a value that the source
    only sums into a discarded total. *)
Definition log (x : number) : number :=
  if is_nan x then nan
  else if (x <? 0)%float then nan
  else if (x =? 0)%float then neg_infinity
  else if (x =? infinity)%float then infinity
  else
    let t := ((x - 1) / (x + 1))%float in
    let t2 := (t * t)%float in
    (2 * t * (1 + t2 * (1 / 3 + t2 * (1 / 5 + t2 * (1 / 7 + t2 * (1 / 9))))))%float.

Definition RNG := Z.

Definition random (s : RNG) : number * RNG :=
  let s' := (s * 25214903917 + 11) mod 9007199254740992 in
  ((num_of_Z s' / 9007199254740992)%float, s').

End RefHost.

Definition ref_world (c : Classifier) (seed : Z) : World RefHost.RNG :=
  {| self := c; rng := seed |}.

Definition rec1 : AirQualityData :=
  {| pm25 := 45; temperature := 22; humidity := 65; windSpeed := 8;
     visibility := 15; pressure := 1013; smogLevel := {| value := 2 |} |}.
Definition rec2 : AirQualityData :=
  {| pm25 := 120.5; temperature := 10; humidity := 40; windSpeed := 3;
     visibility := 4.2; pressure := 1001; smogLevel := {| value := 4 |} |}.

Abbreviation ref_train := (train RefHost.exp RefHost.log RefHost.RNG RefHost.random).
Abbreviation ref_predict := (predict RefHost.exp RefHost.RNG).
Abbreviation ref_evaluate := (evaluate RefHost.exp RefHost.RNG RefHost.random).
Abbreviation ref_importance := (getFeatureImportance RefHost.RNG).
Abbreviation ref_trainModel :=
  (trainModel RefHost.exp RefHost.log RefHost.RNG RefHost.random).

(** The state after [train([rec1, rec2])] on a fresh classifier. *)
Definition trained_world : World RefHost.RNG :=
  Eval vm_compute in world_of (ref_train [rec1; rec2] (ref_world fresh 1)).

(** The state after [train([rec1])] on a fresh classifier: with one record
    every column has [max = min], normalization computes 0 / 0, and every
    weight and bias ends up NaN. *)
Definition degenerate_world : World RefHost.RNG :=
  Eval vm_compute in world_of (ref_train [rec1] (ref_world fresh 1)).

(** Six trained models with a single nonzero weight, the least positive
    number ([Number.MIN_VALUE]). *)
Definition Number_MIN_VALUE : number := 5e-324%float.
Definition flat_model : LogisticRegressionModel :=
  {| weights := [0; 0; 0; 0; 0; 0]%float; bias := 0%float; trained := true |}.
Definition tiny_model : LogisticRegressionModel :=
  {| weights := [Number_MIN_VALUE; 0; 0; 0; 0; 0]%float; bias := 0%float; trained := true |}.
Definition tiny_classifier : Classifier :=
  {| models := [tiny_model; flat_model; flat_model; flat_model; flat_model; flat_model];
     featureMins := [0; 0; 0; 0; 0; 0]%float;
     featureMaxs := [1; 1; 1; 1; 1; 1]%float |}.

(* ================================================================== *)
(** ** Air-quality index and smog level ([src/utils/dataGenerator.ts]) *)
(* ================================================================== *)

(** An integer as a number. *)
Definition num_of_int (n : Z) : number :=
  if n <? 0 then (- num_of_Z (- n))%float else num_of_Z n.

(** [Math.round]: NaN, the infinities and the integers are returned as they
    are; any other number [x] goes to [floor(x + 0.5)] -- a tie goes up --
    with the sign of [x] kept when that is zero ([Math.round(-0.2)] is
    [-0]).  A finite number is [+- m * 2^e]; it is an integer when
    [e >= 0], and otherwise [x + 0.5 = (+- 2m + 2^(-e)) / 2^(1 - e)]. *)
Definition Math_round (x : number) : number :=
  match Prim2SF x with
  | S754_finite s m e =>
      if 0 <=? e then x
      else
        let n := (2 * cond_Zopp s (Zpos m) + 2 ^ (- e)) / 2 ^ (1 - e) in
        if n =? 0 then (if s then neg_zero else 0%float) else num_of_int n
  | _ => x
  end.

(** One row of the table in [calculateAQI]. *)
Record Breakpoint := { low : number; high : number; aqiLow : number; aqiHigh : number }.

Definition breakpoints : list Breakpoint :=
  [ {| low := 0; high := 12; aqiLow := 0; aqiHigh := 50 |};
    {| low := 12.1; high := 35.4; aqiLow := 51; aqiHigh := 100 |};
    {| low := 35.5; high := 55.4; aqiLow := 101; aqiHigh := 150 |};
    {| low := 55.5; high := 150.4; aqiLow := 151; aqiHigh := 200 |};
    {| low := 150.5; high := 250.4; aqiLow := 201; aqiHigh := 300 |};
    {| low := 250.5; high := 500; aqiLow := 301; aqiHigh := 500 |} ]%float.

(** [for (const bp of breakpoints) { if (pm25 >= bp.low && pm25 <= bp.high) return ...; }
     return 500;] *)
Fixpoint calculateAQI_from (bps : list Breakpoint) (pm25 : number) : number :=
  match bps with
  | [] => 500%float
  | bp :: rest =>
      if (low bp <=? pm25)%float && (pm25 <=? high bp)%float
      then Math_round ((aqiHigh bp - aqiLow bp) / (high bp - low bp)
                       * (pm25 - low bp) + aqiLow bp)%float
      else calculateAQI_from rest pm25
  end.

Definition calculateAQI (pm25 : number) : number := calculateAQI_from breakpoints pm25.

(** What [getSmogLevel] returns: the class index (the [SmogLevel] the
    classifier reads) with its name, color and description. *)
Record SmogLevelInfo := {
  level : string;
  smog : SmogLevel;
  color : string;
  description : string
}.

Definition getSmogLevel (aqi : number) : SmogLevelInfo :=
  if (aqi <=? 50)%float then
    {| level := "Good"; smog := {| value := 0 |}; color := "#10B981";
       description := "Air quality is satisfactory" |}
  else if (aqi <=? 100)%float then
    {| level := "Moderate"; smog := {| value := 1 |}; color := "#F59E0B";
       description := "Air quality is acceptable for most people" |}
  else if (aqi <=? 150)%float then
    {| level := "Unhealthy for Sensitive Groups"; smog := {| value := 2 |};
       color := "#F97316";
       description := "Members of sensitive groups may experience health effects" |}
  else if (aqi <=? 200)%float then
    {| level := "Unhealthy"; smog := {| value := 3 |}; color := "#EF4444";
       description := "Everyone may begin to experience health effects" |}
  else if (aqi <=? 300)%float then
    {| level := "Very Unhealthy"; smog := {| value := 4 |}; color := "#7C3AED";
       description := "Health alert: everyone may experience serious health effects" |}
  else
    {| level := "Hazardous"; smog := {| value := 5 |}; color := "#7F1D1D";
       description := "Health warnings of emergency conditions" |}.

(** The tables of [src/components/PredictionForm.tsx], indexed by the
    predicted class. *)
Definition smogLevelColors : list string :=
  ["#10B981"; "#F59E0B"; "#F97316"; "#EF4444"; "#7C3AED"; "#7F1D1D"]%string.
Definition smogLevelNames : list string :=
  ["Good"; "Moderate"; "Unhealthy for Sensitive"; "Unhealthy"; "Very Unhealthy";
   "Hazardous"]%string.

(* ================================================================== *)
(** ** Binary64 arithmetic: classes and values of numbers *)
(* ================================================================== *)

(** The facts about numbers the claims need are derived from the
    standard library's specification of the binary64 operations
    ([SpecFloat], [FloatAxioms]).  [Prim2SF] reads a number as a sign, a
    mantissa and an exponent. *)

(** A number that is not NaN, as a key: comparing two numbers is comparing
    their keys lexicographically. *)
Definition sf_key (X : spec_float) : Z * Z * Z :=
  match X with
  | S754_infinity true => (-2, 0, 0)
  | S754_finite true m e => (-1, - e, - Zpos m)
  | S754_zero _ => (0, 0, 0)
  | S754_nan => (0, 0, 0)
  | S754_finite false m e => (1, e, Zpos m)
  | S754_infinity false => (2, 0, 0)
  end.

Definition lex3 (a b : Z * Z * Z) : comparison :=
  let '(a1, a2, a3) := a in
  let '(b1, b2, b3) := b in
  match a1 ?= b1 with
  | Eq => match a2 ?= b2 with
          | Eq => a3 ?= b3
          | c => c
          end
  | c => c
  end.

Definition fkey (x : float) := sf_key (Prim2SF x).

(** The value [m * 2^e] of a mantissa and an exponent, scaled by [2^OFF] so
    that it is an integer for every exponent that occurs. *)
Definition OFF : Z := 3000.
Definition val (m e : Z) : Z := m * 2 ^ (e + OFF).

(** The scaled value of +0, -0 or a positive finite number. *)
Definition sf_val (X : spec_float) : Z :=
  match X with
  | S754_finite false m e => val (Zpos m) e
  | _ => 0
  end.

(** zero of either sign, or a positive finite number *)
Definition sf_nnf (X : spec_float) : Prop :=
  match X with
  | S754_zero _ => True
  | S754_finite s _ _ => s = false
  | _ => False
  end.

(** zero of either sign, positive finite, or +Infinity *)
Definition sf_nn (X : spec_float) : Prop :=
  match X with
  | S754_zero _ => True
  | S754_finite s _ _ => s = false
  | S754_infinity s => s = false
  | S754_nan => False
  end.

(** +0 or a positive finite number *)
Definition sf_pf (X : spec_float) : Prop :=
  match X with
  | S754_zero s => s = false
  | S754_finite s _ _ => s = false
  | _ => False
  end.

(** not NaN, sign bit clear *)
Definition sf_pn (X : spec_float) : Prop :=
  match X with
  | S754_zero s => s = false
  | S754_finite s _ _ => s = false
  | S754_infinity s => s = false
  | S754_nan => False
  end.

(* ================================================================== *)
(** ** Binary64 arithmetic: order, rounding, and the four operations *)
(* ================================================================== *)

Lemma SFcompare_key (X Y : spec_float) :
  X <> S754_nan -> Y <> S754_nan ->
  SFcompare X Y = Some (lex3 (sf_key X) (sf_key Y)).
Proof.
  intros HX HY.
  destruct X as [sx|sx| |sx mx ex], Y as [sy|sy| |sy my ey]; try congruence;
    try (destruct sx; reflexivity); try (destruct sy; reflexivity);
    try (destruct sx, sy; reflexivity).
  destruct sx, sy; try reflexivity; unfold SFcompare, sf_key, lex3.
  change (-1 ?= -1) with Eq. cbv iota.
    rewrite Z.compare_opp, (Z.compare_antisym ex ey).
    rewrite Pos.compare_cont_spec. cbn [Pos.switch_Eq].
    change (- Z.pos mx ?= - Z.pos my) with (CompOpp (Z.pos mx ?= Z.pos my)).
    change (Z.pos mx ?= Z.pos my) with (mx ?= my)%positive.
    destruct (ex ?= ey), (mx ?= my)%positive; reflexivity.
Qed.

Lemma lex3_spec (a b : Z * Z * Z) :
  let '(a1, a2, a3) := a in
  let '(b1, b2, b3) := b in
  match lex3 a b with
  | Lt => a1 < b1 \/ (a1 = b1 /\ (a2 < b2 \/ (a2 = b2 /\ a3 < b3)))
  | Eq => a1 = b1 /\ a2 = b2 /\ a3 = b3
  | Gt => a1 > b1 \/ (a1 = b1 /\ (a2 > b2 \/ (a2 = b2 /\ a3 > b3)))
  end.
Proof.
  destruct a as [[a1 a2] a3], b as [[b1 b2] b3]. unfold lex3.
  destruct (Z.compare_spec a1 b1); try lia.
  destruct (Z.compare_spec a2 b2); try lia.
  destruct (Z.compare_spec a3 b3); lia.
Qed.

Lemma lex3_refl a : lex3 a a = Eq.
Proof.
  destruct a as [[a1 a2] a3]. unfold lex3. now rewrite !Z.compare_refl.
Qed.

Lemma lex3_antisym a b : lex3 b a = CompOpp (lex3 a b).
Proof.
  pose proof (lex3_spec a b) as H1. pose proof (lex3_spec b a) as H2.
  destruct a as [[a1 a2] a3], b as [[b1 b2] b3].
  destruct (lex3 (a1,a2,a3) (b1,b2,b3)), (lex3 (b1,b2,b3) (a1,a2,a3)); simpl; try reflexivity; lia.
Qed.

Lemma lex3_trans_le a b c : lex3 a b <> Gt -> lex3 b c <> Gt -> lex3 a c <> Gt.
Proof.
  pose proof (lex3_spec a b) as H1. pose proof (lex3_spec b c) as H2.
  pose proof (lex3_spec a c) as H3.
  destruct a as [[a1 a2] a3], b as [[b1 b2] b3], c as [[c1 c2] c3].
  destruct (lex3 (a1,a2,a3) (b1,b2,b3)), (lex3 (b1,b2,b3) (c1,c2,c3)),
    (lex3 (a1,a2,a3) (c1,c2,c3)); try congruence; intros _ _; lia.
Qed.

Lemma lex3_trans_lt_le a b c : lex3 a b = Lt -> lex3 b c <> Gt -> lex3 a c = Lt.
Proof.
  pose proof (lex3_spec a b) as H1. pose proof (lex3_spec b c) as H2.
  pose proof (lex3_spec a c) as H3.
  destruct a as [[a1 a2] a3], b as [[b1 b2] b3], c as [[c1 c2] c3].
  destruct (lex3 (a1,a2,a3) (b1,b2,b3)), (lex3 (b1,b2,b3) (c1,c2,c3)),
    (lex3 (a1,a2,a3) (c1,c2,c3)); try congruence; intros _ _; lia.
Qed.

Lemma lex3_trans_le_lt a b c : lex3 a b <> Gt -> lex3 b c = Lt -> lex3 a c = Lt.
Proof.
  pose proof (lex3_spec a b) as H1. pose proof (lex3_spec b c) as H2.
  pose proof (lex3_spec a c) as H3.
  destruct a as [[a1 a2] a3], b as [[b1 b2] b3], c as [[c1 c2] c3].
  destruct (lex3 (a1,a2,a3) (b1,b2,b3)), (lex3 (b1,b2,b3) (c1,c2,c3)),
    (lex3 (a1,a2,a3) (c1,c2,c3)); try congruence; intros _ _; lia.
Qed.

Lemma SFcompare_refl (X : spec_float) : X <> S754_nan -> SFcompare X X = Some Eq.
Proof. intros H. rewrite SFcompare_key by assumption. now rewrite lex3_refl. Qed.

Lemma is_nan_spec (x : float) : is_nan x = true <-> Prim2SF x = S754_nan.
Proof.
  unfold is_nan. rewrite eqb_spec. unfold SFeqb.
  destruct (Prim2SF x) as [s|s| |s m e] eqn:E;
    try (rewrite SFcompare_refl by discriminate; split; discriminate).
  split; reflexivity.
Qed.

Lemma not_nan_spec (x : float) : is_nan x = false <-> Prim2SF x <> S754_nan.
Proof.
  rewrite <- is_nan_spec. destruct (is_nan x); split; congruence.
Qed.

Lemma leb_key (x y : float) :
  is_nan x = false -> is_nan y = false ->
  (x <=? y)%float = true <-> lex3 (fkey x) (fkey y) <> Gt.
Proof.
  intros Hx Hy. rewrite not_nan_spec in Hx, Hy.
  rewrite leb_spec. unfold SFleb. rewrite SFcompare_key by assumption.
  fold (fkey x) (fkey y). destruct (lex3 (fkey x) (fkey y)); split; congruence.
Qed.

Lemma ltb_key (x y : float) :
  is_nan x = false -> is_nan y = false ->
  (x <? y)%float = true <-> lex3 (fkey x) (fkey y) = Lt.
Proof.
  intros Hx Hy. rewrite not_nan_spec in Hx, Hy.
  rewrite ltb_spec. unfold SFltb. rewrite SFcompare_key by assumption.
  fold (fkey x) (fkey y). destruct (lex3 (fkey x) (fkey y)); split; congruence.
Qed.

Lemma eqb_key (x y : float) :
  is_nan x = false -> is_nan y = false ->
  (x =? y)%float = true <-> lex3 (fkey x) (fkey y) = Eq.
Proof.
  intros Hx Hy. rewrite not_nan_spec in Hx, Hy.
  rewrite eqb_spec. unfold SFeqb. rewrite SFcompare_key by assumption.
  fold (fkey x) (fkey y). destruct (lex3 (fkey x) (fkey y)); split; congruence.
Qed.

Lemma ltb_not_nan (x y : float) : (x <? y)%float = true -> is_nan x = false /\ is_nan y = false.
Proof.
  rewrite ltb_spec. unfold SFltb. intros H.
  split; apply not_nan_spec; intros E; rewrite E in H; simpl in H;
    try discriminate. destruct (Prim2SF x); discriminate.
Qed.

Lemma leb_not_nan (x y : float) : (x <=? y)%float = true -> is_nan x = false /\ is_nan y = false.
Proof.
  rewrite leb_spec. unfold SFleb. intros H.
  split; apply not_nan_spec; intros E; rewrite E in H; simpl in H;
    try discriminate. destruct (Prim2SF x); discriminate.
Qed.

Lemma eqb_not_nan (x y : float) : (x =? y)%float = true -> is_nan x = false /\ is_nan y = false.
Proof.
  rewrite eqb_spec. unfold SFeqb. intros H.
  split; apply not_nan_spec; intros E; rewrite E in H; simpl in H;
    try discriminate. destruct (Prim2SF x); discriminate.
Qed.

Lemma leb_refl (x : float) : is_nan x = false -> (x <=? x)%float = true.
Proof. intros H. apply leb_key; auto. rewrite lex3_refl. discriminate. Qed.

Lemma eqb_refl (x : float) : is_nan x = false -> (x =? x)%float = true.
Proof. intros H. apply eqb_key; auto. apply lex3_refl. Qed.

Lemma leb_trans (x y z : float) :
  (x <=? y)%float = true -> (y <=? z)%float = true -> (x <=? z)%float = true.
Proof.
  intros H1 H2.
  destruct (leb_not_nan _ _ H1) as [Hx Hy]. destruct (leb_not_nan _ _ H2) as [_ Hz].
  apply leb_key in H1; auto. apply leb_key in H2; auto. apply leb_key; auto.
  eapply lex3_trans_le; eauto.
Qed.

Lemma ltb_leb_trans (x y z : float) :
  (x <? y)%float = true -> (y <=? z)%float = true -> (x <? z)%float = true.
Proof.
  intros H1 H2.
  destruct (ltb_not_nan _ _ H1) as [Hx Hy]. destruct (leb_not_nan _ _ H2) as [_ Hz].
  apply ltb_key in H1; auto. apply leb_key in H2; auto. apply ltb_key; auto.
  eapply lex3_trans_lt_le; eauto.
Qed.

Lemma leb_ltb_trans (x y z : float) :
  (x <=? y)%float = true -> (y <? z)%float = true -> (x <? z)%float = true.
Proof.
  intros H1 H2.
  destruct (leb_not_nan _ _ H1) as [Hx Hy]. destruct (ltb_not_nan _ _ H2) as [_ Hz].
  apply leb_key in H1; auto. apply ltb_key in H2; auto. apply ltb_key; auto.
  eapply lex3_trans_le_lt; eauto.
Qed.

Lemma ltb_leb (x y : float) : (x <? y)%float = true -> (x <=? y)%float = true.
Proof.
  intros H. destruct (ltb_not_nan _ _ H) as [Hx Hy].
  apply ltb_key in H; auto. apply leb_key; auto. congruence.
Qed.

Lemma eqb_leb (x y : float) : (x =? y)%float = true -> (x <=? y)%float = true.
Proof.
  intros H. destruct (eqb_not_nan _ _ H) as [Hx Hy].
  apply eqb_key in H; auto. apply leb_key; auto. congruence.
Qed.

Lemma eqb_sym (x y : float) : (x =? y)%float = (y =? x)%float.
Proof.
  rewrite !eqb_spec. unfold SFeqb.
  destruct (Prim2SF x) as [sx|sx| |sx mx ex] eqn:Ex, (Prim2SF y) as [sy|sy| |sy my ey] eqn:Ey;
    try reflexivity; try (destruct sx; reflexivity); try (destruct sy; reflexivity);
    try (destruct sx, sy; reflexivity).
  rewrite !SFcompare_key by discriminate.
  rewrite (lex3_antisym (sf_key (S754_finite sx mx ex))).
  destruct (lex3 _ _); reflexivity.
Qed.

(** not less means greater-or-equal, on numbers *)
Lemma not_ltb_leb (x y : float) :
  is_nan x = false -> is_nan y = false ->
  (x <? y)%float = false -> (y <=? x)%float = true.
Proof.
  intros Hx Hy H. apply leb_key; auto.
  rewrite lex3_antisym.
  destruct (lex3 (fkey x) (fkey y)) eqn:E; simpl; try discriminate.
  apply ltb_key in E; auto. congruence.
Qed.

Lemma not_leb_ltb (x y : float) :
  is_nan x = false -> is_nan y = false ->
  (x <=? y)%float = false -> (y <? x)%float = true.
Proof.
  intros Hx Hy H. apply ltb_key; auto.
  rewrite lex3_antisym.
  destruct (lex3 (fkey x) (fkey y)) eqn:E; simpl; try reflexivity.
  - assert ((x <=? y)%float = true) by (apply leb_key; auto; congruence). congruence.
  - assert ((x <=? y)%float = true) by (apply leb_key; auto; congruence). congruence.
Qed.

Lemma leb_antisym_eqb (x y : float) :
  (x <=? y)%float = true -> (y <=? x)%float = true -> (x =? y)%float = true.
Proof.
  intros H1 H2. destruct (leb_not_nan _ _ H1) as [Hx Hy].
  apply leb_key in H1; auto. apply leb_key in H2; auto. apply eqb_key; auto.
  rewrite lex3_antisym in H2. destruct (lex3 (fkey x) (fkey y)); simpl in *; congruence.
Qed.

Lemma ltb_irrefl_eqb (x y : float) :
  (x <? y)%float = true -> (x =? y)%float = false.
Proof.
  intros H. destruct (ltb_not_nan _ _ H) as [Hx Hy].
  apply ltb_key in H; auto.
  destruct (x =? y)%float eqn:E; [|reflexivity].
  apply eqb_key in E; auto. congruence.
Qed.

(** Powers of two *)
Lemma p2_pos (k : Z) : 0 <= k -> 0 < 2 ^ k.
Proof. intros. apply Z.pow_pos_nonneg; lia. Qed.

Lemma p2_add (a b : Z) : 0 <= a -> 0 <= b -> 2 ^ (a + b) = 2 ^ a * 2 ^ b.
Proof. intros. apply Z.pow_add_r; lia. Qed.

Lemma p2_le (a b : Z) : 0 <= a <= b -> 2 ^ a <= 2 ^ b.
Proof. intros. apply Z.pow_le_mono_r; lia. Qed.

Lemma p2_lt (a b : Z) : 0 <= a < b -> 2 ^ a < 2 ^ b.
Proof. intros. apply Z.pow_lt_mono_r; lia. Qed.

Lemma p2_lt_inv (a b : Z) : 0 <= a -> 0 <= b -> 2 ^ a < 2 ^ b -> a < b.
Proof. intros Ha Hb H. apply (Z.pow_lt_mono_r_iff 2); lia. Qed.

(** Digits *)
Lemma digits2_pos_bounds (p : positive) :
  2 ^ (Zpos (digits2_pos p) - 1) <= Zpos p < 2 ^ Zpos (digits2_pos p).
Proof.
  induction p as [p IH|p IH|]; cbn [digits2_pos].
  - rewrite Pos2Z.inj_succ.
    replace (Z.succ (Z.pos (digits2_pos p)) - 1) with (Z.succ (Z.pos (digits2_pos p) - 1)) by lia.
    rewrite !Z.pow_succ_r by lia. lia.
  - rewrite Pos2Z.inj_succ.
    replace (Z.succ (Z.pos (digits2_pos p)) - 1) with (Z.succ (Z.pos (digits2_pos p) - 1)) by lia.
    rewrite !Z.pow_succ_r by lia. lia.
  - simpl. lia.
Qed.

Lemma Zdigits2_bounds (m : Z) :
  0 < m -> 0 < Zdigits2 m /\ 2 ^ (Zdigits2 m - 1) <= m < 2 ^ Zdigits2 m.
Proof.
  destruct m as [|p|p]; try lia. intros _. simpl. split; [lia|].
  apply digits2_pos_bounds.
Qed.

Lemma Zdigits2_nonneg (m : Z) : 0 <= Zdigits2 m.
Proof. destruct m; simpl; lia. Qed.

Lemma Zdigits2_le (m k : Z) : 0 < m -> 0 <= k -> m < 2 ^ k -> Zdigits2 m <= k.
Proof.
  intros Hm Hk H. destruct (Zdigits2_bounds m Hm) as [Hd [Hlo _]].
  assert (2 ^ (Zdigits2 m - 1) < 2 ^ k) by lia.
  apply p2_lt_inv in H0; lia.
Qed.

Lemma Zdigits2_gt (m k : Z) : 0 <= k -> 2 ^ k <= m -> k < Zdigits2 m.
Proof.
  intros Hk H. assert (Hm : 0 < m) by (pose proof (p2_pos k Hk); lia).
  destruct (Zdigits2_bounds m Hm) as [Hd [_ Hhi]].
  assert (2 ^ k < 2 ^ Zdigits2 m) by lia.
  apply p2_lt_inv in H0; lia.
Qed.

(** fexp *)
Lemma fexp_eq (k : Z) : fexp prec emax k = Z.max (k - 53) (-1074).
Proof. reflexivity. Qed.

Lemma fexp_mono (a b : Z) : a <= b -> fexp prec emax a <= fexp prec emax b.
Proof. rewrite !fexp_eq. lia. Qed.

(** Shifting right *)
Lemma iter_pos_nat {A} (f : A -> A) (p : positive) (x : A) :
  iter_pos f p x = Nat.iter (Pos.to_nat p) f x.
Proof.
  revert x. induction p as [p IH|p IH|]; intros x; cbn [iter_pos].
  - rewrite !IH. rewrite Pos2Nat.inj_xI.
    replace (S (2 * Pos.to_nat p)) with (Pos.to_nat p + Pos.to_nat p + 1)%nat by lia.
    rewrite !Nat.iter_add. reflexivity.
  - rewrite !IH. rewrite Pos2Nat.inj_xO.
    replace (2 * Pos.to_nat p)%nat with (Pos.to_nat p + Pos.to_nat p)%nat by lia.
    rewrite Nat.iter_add. reflexivity.
  - reflexivity.
Qed.

Lemma shr_1_m (mrs : shr_record) :
  0 <= shr_m mrs -> shr_m (shr_1 mrs) = shr_m mrs / 2.
Proof.
  destruct mrs as [m r s]. cbn [shr_m]. intros Hm.
  rewrite <- Z.div2_div.
  destruct m as [|[p|p|]|p]; try reflexivity; lia.
Qed.

Lemma shr_1_r (mrs : shr_record) :
  0 <= shr_m mrs -> shr_r (shr_1 mrs) = Z.odd (shr_m mrs).
Proof.
  destruct mrs as [m r s]. cbn [shr_m]. intros Hm.
  destruct m as [|[p|p|]|p]; try reflexivity; lia.
Qed.

Lemma shr_1_s (mrs : shr_record) :
  shr_s (shr_1 mrs) = shr_r mrs || shr_s mrs.
Proof.
  destruct mrs as [m r s].
  destruct m as [|[p|p|]|[p|p|]]; reflexivity.
Qed.

Lemma shr_iter_m (n : nat) (mrs : shr_record) :
  0 <= shr_m mrs ->
  shr_m (Nat.iter n shr_1 mrs) = shr_m mrs / 2 ^ Z.of_nat n.
Proof.
  intros Hm. induction n as [|n IH].
  - simpl. now rewrite Z.div_1_r.
  - rewrite Nat.iter_succ. rewrite shr_1_m.
    + rewrite IH. rewrite Z.div_div by (try apply p2_pos; lia).
      rewrite Nat2Z.inj_succ, Z.pow_succ_r by lia. f_equal. lia.
    + rewrite IH. apply Z.div_pos; [lia|apply p2_pos; lia].
Qed.

Lemma shr_record_of_loc_m (m : Z) (l : location) : shr_m (shr_record_of_loc m l) = m.
Proof. destruct l as [|[]]; reflexivity. Qed.

(** [shr_fexp]: the exponent reached and the mantissa kept *)
Lemma shr_fexp_spec (m e : Z) (l : location) :
  0 <= m ->
  snd (shr_fexp prec emax m e l) = Z.max e (fexp prec emax (Zdigits2 m + e))
  /\ shr_m (fst (shr_fexp prec emax m e l))
     = m / 2 ^ (Z.max e (fexp prec emax (Zdigits2 m + e)) - e).
Proof.
  intros Hm. set (e' := Z.max e (fexp prec emax (Zdigits2 m + e))).
  unfold shr_fexp, shr.
  destruct (fexp prec emax (Zdigits2 m + e) - e) as [|p|p] eqn:Hn; cbn [fst snd].
  - replace e' with e by lia. rewrite Z.sub_diag, shr_record_of_loc_m.
    split; [reflexivity|]. now rewrite Z.div_1_r.
  - assert (He' : e' = e + Z.pos p) by lia. split; [lia|].
    rewrite iter_pos_nat, shr_iter_m by (rewrite shr_record_of_loc_m; lia).
    rewrite shr_record_of_loc_m, positive_nat_Z. f_equal. f_equal. lia.
  - replace e' with e by lia. rewrite Z.sub_diag, shr_record_of_loc_m.
    split; [reflexivity|]. now rewrite Z.div_1_r.
Qed.

Lemma round_nearest_even_bounds (m : Z) (l : location) :
  m <= round_nearest_even m l <= m + 1.
Proof.
  destruct l as [|[]]; simpl; try lia.
  destruct (Z.even m); lia.
Qed.

(** What [binary_round_aux] returns, from the two shifts and the rounding
    between them. *)
Lemma binary_round_aux_spec (sx : bool) (M E : Z) (l : location) :
  0 <= M ->
  exists m2 m3 e1 e3,
    e1 = Z.max E (fexp prec emax (Zdigits2 M + E))
    /\ M / 2 ^ (e1 - E) <= m2 <= M / 2 ^ (e1 - E) + 1
    /\ e3 = Z.max e1 (fexp prec emax (Zdigits2 m2 + e1))
    /\ m3 = m2 / 2 ^ (e3 - e1)
    /\ 0 <= m3
    /\ binary_round_aux prec emax sx M E l
       = match m3 with
         | Z0 => S754_zero sx
         | Zpos m => if e3 <=? emax - prec then S754_finite sx m e3 else S754_infinity sx
         | Zneg _ => S754_nan
         end.
Proof.
  intros HM. unfold binary_round_aux.
  destruct (shr_fexp_spec M E l HM) as [He1 Hm1].
  destruct (shr_fexp prec emax M E l) as [mrs1 e1]. cbn [fst snd] in *.
  set (m2 := round_nearest_even (shr_m mrs1) (loc_of_shr_record mrs1)).
  assert (Hm1pos : 0 <= shr_m mrs1).
  { rewrite Hm1. apply Z.div_pos; [lia|]. apply p2_pos. lia. }
  pose proof (round_nearest_even_bounds (shr_m mrs1) (loc_of_shr_record mrs1)) as Hb.
  fold m2 in Hb.
  assert (Hm2 : 0 <= m2) by lia.
  destruct (shr_fexp_spec m2 e1 loc_Exact Hm2) as [He3 Hm3].
  destruct (shr_fexp prec emax m2 e1 loc_Exact) as [mrs3 e3]. cbn [fst snd] in *.
  rewrite <- He1 in Hm1. rewrite <- He3 in Hm3.
  exists m2, (shr_m mrs3), e1, e3.
  split; [exact He1|]. split; [rewrite <- Hm1; exact Hb|].
  split; [exact He3|]. split; [exact Hm3|].
  split; [|reflexivity].
  rewrite Hm3. apply Z.div_pos; [lia|]. apply p2_pos. lia.
Qed.

Lemma val_mono (m m' e : Z) : - OFF <= e -> m <= m' -> val m e <= val m' e.
Proof.
  intros He Hm. unfold val. apply Z.mul_le_mono_nonneg_r; [|exact Hm].
  pose proof (p2_pos (e + OFF)). lia.
Qed.

Lemma val_cancel (a b e : Z) : - OFF <= e -> val a e <= val b e -> a <= b.
Proof.
  intros He H. unfold val in H.
  apply Z.mul_le_mono_pos_r in H; [exact H|]. apply p2_pos. lia.
Qed.

Lemma val_cancel_lt (a b e : Z) : - OFF <= e -> val a e < val b e -> a < b.
Proof.
  intros He H. unfold val in H.
  apply Z.mul_lt_mono_pos_r in H; [exact H|]. apply p2_pos. lia.
Qed.

Lemma val_shift (m e n : Z) : 0 <= n -> - OFF <= e -> val m (e + n) = val (m * 2 ^ n) e.
Proof.
  intros Hn He. unfold val.
  replace (e + n + OFF) with (n + (e + OFF)) by lia.
  rewrite p2_add by lia. ring.
Qed.

Lemma val_p2 (e k : Z) : 0 <= k -> - OFF <= e -> val (2 ^ k) e = 2 ^ (k + e + OFF).
Proof.
  intros Hk He. unfold val. rewrite <- p2_add by lia. f_equal. lia.
Qed.

Lemma val_digits (m e : Z) :
  0 < m -> - OFF <= e ->
  2 ^ (Zdigits2 m - 1 + e + OFF) <= val m e < 2 ^ (Zdigits2 m + e + OFF).
Proof.
  intros Hm He. destruct (Zdigits2_bounds m Hm) as [Hd [Hlo Hhi]].
  rewrite <- !val_p2 by lia.
  split.
  - apply val_mono; assumption.
  - unfold val. apply Z.mul_lt_mono_pos_r; [apply p2_pos; lia|exact Hhi].
Qed.

(** From a bound on values to a bound on digit positions. *)
Lemma val_le_digits (m e B F : Z) :
  0 < m -> 0 < B -> - OFF <= e -> - OFF <= F ->
  val m e <= val B F -> Zdigits2 m + e <= Zdigits2 B + F.
Proof.
  intros Hm HB He HF H.
  destruct (val_digits m e Hm He) as [Hlo _].
  destruct (val_digits B F HB HF) as [_ Hhi].
  destruct (Zdigits2_bounds m Hm) as [Hdm _].
  destruct (Zdigits2_bounds B HB) as [HdB _].
  assert (Hlt : 2 ^ (Zdigits2 m - 1 + e + OFF) < 2 ^ (Zdigits2 B + F + OFF)) by lia.
  apply p2_lt_inv in Hlt; lia.
Qed.

Lemma fexp_ge_emin (k : Z) : -1074 <= fexp prec emax k.
Proof. rewrite fexp_eq. lia. Qed.

(** ** Rounding stays below a representable bound *)
Lemma round_upper (sx : bool) (M E : Z) (l : location) (B F : Z) :
  0 <= M -> 0 < B -> - OFF <= E -> E <= 971 ->
  fexp prec emax (Zdigits2 B + F) = F -> F <= 971 ->
  val (M + 1) E <= val B F ->
  match binary_round_aux prec emax sx M E l with
  | S754_zero s => s = sx
  | S754_finite s m e => s = sx /\ - OFF <= e /\ val (Zpos m) e <= val B F
  | _ => False
  end.
Proof.
  intros HM HB HE HE' Hcan HF Hval.
  assert (HFlo : -1074 <= F) by (rewrite <- Hcan; apply fexp_ge_emin).
  assert (HFoff : - OFF <= F) by (unfold OFF; lia).
  destruct (binary_round_aux_spec sx M E l HM)
    as [m2 [m3 [e1 [e3 [He1 [Hm2 [He3 [Hm3 [Hm3pos Hres]]]]]]]]].
  rewrite Hres. clear Hres.
  set (m1 := M / 2 ^ (e1 - E)) in *.
  assert (He1E : E <= e1) by lia.
  assert (He3e1 : e1 <= e3) by lia.
  assert (Hm1pos : 0 <= m1) by (apply Z.div_pos; [lia|apply p2_pos; lia]).
  (* the digits of M against those of the bound *)
  assert (HdM : 0 < M -> Zdigits2 M + E <= Zdigits2 B + F).
  { intros HMpos. apply val_le_digits; try assumption.
    pose proof (val_mono M (M + 1) E HE). lia. }
  (* K1 *)
  assert (K1 : val (m1 + 1) e1 <= val B F).
  { destruct (Z.eq_dec e1 E) as [Heq|Hneq].
    - unfold m1. rewrite Heq, Z.sub_diag, Z.div_1_r. rewrite Heq in *. exact Hval.
    - assert (Hfe : e1 = fexp prec emax (Zdigits2 M + E)) by lia.
      assert (Hn : 0 < e1 - E) by lia.
      destruct (Z_le_gt_dec e1 F) as [HFe|HFe].
      + set (C := B * 2 ^ (F - e1)).
        assert (HvB : val B F = val C e1).
        { unfold C. rewrite <- val_shift by lia. f_equal. lia. }
        assert (HvC : val C e1 = val (C * 2 ^ (e1 - E)) E).
        { rewrite <- val_shift by lia. f_equal. lia. }
        rewrite HvB. apply val_mono; [lia|].
        rewrite HvB, HvC in Hval. apply val_cancel in Hval; [|lia].
        assert (m1 < C); [|lia].
        unfold m1. apply Z.div_lt_upper_bound; [apply p2_pos; lia|]. lia.
      + exfalso.
        assert (Hd : Zdigits2 B + F < Zdigits2 M + E).
        { destruct (Z_lt_le_dec (Zdigits2 B + F) (Zdigits2 M + E)) as [|Hle]; [assumption|].
          apply fexp_mono in Hle. lia. }
        destruct (Z.eq_dec M 0) as [HM0|HM0].
        * subst M. simpl in Hd, Hfe. rewrite fexp_eq in Hfe.
          destruct (Zdigits2_bounds B HB) as [HdB _]. lia.
        * assert (HMpos : 0 < M) by lia. specialize (HdM HMpos). lia. }
  assert (K2 : val m2 e1 <= val B F).
  { pose proof (val_mono m2 (m1 + 1) e1). lia. }
  assert (K3 : val m3 e3 <= val m2 e1).
  { replace e3 with (e1 + (e3 - e1)) by lia. rewrite val_shift by lia.
    apply val_mono; [lia|]. rewrite Hm3.
    rewrite Z.mul_comm. apply Z.mul_div_le. apply p2_pos. lia. }
  destruct m3 as [|p|p]; [reflexivity| |lia].
  assert (Hm2pos : 0 < m2).
  { destruct (Z_lt_le_dec 0 m2) as [|Hle]; [assumption|].
    assert (m2 = 0) by lia. subst m2. rewrite Z.div_0_l in Hm3; [lia|].
    pose proof (p2_pos (e3 - e1)). lia. }
  assert (K4 : e3 <= 971).
  { assert (Hd2 : Zdigits2 m2 + e1 <= Zdigits2 B + F)
      by (apply val_le_digits; try assumption; lia).
    apply fexp_mono in Hd2. rewrite Hcan in Hd2.
    assert (e1 <= 971); [|lia].
    destruct (Z.eq_dec M 0) as [HM0|HM0].
    - subst M. simpl in He1. rewrite fexp_eq in He1. lia.
    - assert (HMpos : 0 < M) by lia. specialize (HdM HMpos).
      apply fexp_mono in HdM. lia. }
  change (emax - prec) with 971.
  destruct (Z.leb_spec e3 971); [|lia].
  split; [reflexivity|]. split; lia.
Qed.

(** ** Rounding a positive mantissa above the least exponent never
    vanishes *)
Lemma round_pos (sx : bool) (M E : Z) (l : location) :
  0 < M -> -1074 <= E ->
  match binary_round_aux prec emax sx M E l with
  | S754_finite s _ _ => s = sx
  | S754_infinity s => s = sx
  | _ => False
  end.
Proof.
  intros HM HE.
  destruct (binary_round_aux_spec sx M E l (Z.lt_le_incl _ _ HM))
    as [m2 [m3 [e1 [e3 [He1 [Hm2 [He3 [Hm3 [Hm3pos Hres]]]]]]]]].
  rewrite Hres. clear Hres.
  assert (Hshift : forall m e e', 0 < m -> -1074 <= e ->
            e' = Z.max e (fexp prec emax (Zdigits2 m + e)) -> 0 < m / 2 ^ (e' - e)).
  { intros m e e' Hm He He'.
    destruct (Z.eq_dec e' e) as [Heq|Hneq].
    - rewrite Heq, Z.sub_diag, Z.div_1_r. exact Hm.
    - rewrite fexp_eq in He'.
      assert (Hn : e' - e = Zdigits2 m - 53) by lia.
      destruct (Zdigits2_bounds m Hm) as [Hd [Hlo _]].
      rewrite Hn.
      assert (1 <= m / 2 ^ (Zdigits2 m - 53)); [|lia].
      apply Z.div_le_lower_bound; [apply p2_pos; lia|].
      rewrite Z.mul_1_r.
      assert (2 ^ (Zdigits2 m - 53) <= 2 ^ (Zdigits2 m - 1)) by (apply p2_le; lia).
      lia. }
  assert (H1 : 0 < M / 2 ^ (e1 - E)) by (apply Hshift; assumption).
  assert (Hm2pos : 0 < m2) by lia.
  assert (He1lo : -1074 <= e1) by lia.
  assert (H3 : 0 < m3) by (rewrite Hm3; apply Hshift; assumption).
  destruct m3 as [|p|p]; try lia.
  destruct (e3 <=? emax - prec); reflexivity.
Qed.

(** ** Rounding never yields NaN, and keeps the sign *)
Lemma round_sign (sx : bool) (M E : Z) (l : location) :
  0 <= M ->
  match binary_round_aux prec emax sx M E l with
  | S754_zero s => s = sx
  | S754_finite s _ _ => s = sx
  | S754_infinity s => s = sx
  | S754_nan => False
  end.
Proof.
  intros HM.
  destruct (binary_round_aux_spec sx M E l HM)
    as [m2 [m3 [e1 [e3 [He1 [Hm2 [He3 [Hm3 [Hm3pos Hres]]]]]]]]].
  rewrite Hres. destruct m3 as [|p|p]; try lia; [reflexivity|].
  destruct (e3 <=? emax - prec); reflexivity.
Qed.

(** ** Valid (canonical) finite floats *)
Lemma valid_finite (s : bool) (m : positive) (e : Z) :
  valid_binary (S754_finite s m e) = true ->
  fexp prec emax (Zdigits2 (Zpos m) + e) = e /\ -1074 <= e <= 971.
Proof.
  unfold SpecFloat.valid_binary, bounded, canonical_mantissa.
  rewrite andb_true_iff, Z.eqb_eq, Z.leb_le. intros [H1 H2].
  change (emax - prec) with 971 in H2. simpl Zdigits2.
  split; [exact H1|]. split; [|exact H2]. rewrite <- H1. apply fexp_ge_emin.
Qed.

(** Among canonical mantissa-exponent pairs the order of values is the
    lexicographic order on (exponent, mantissa). *)
Lemma canonical_val_lt (m e B F : Z) :
  0 < m -> 0 < B ->
  fexp prec emax (Zdigits2 m + e) = e -> fexp prec emax (Zdigits2 B + F) = F ->
  e < F -> val m e < val B F.
Proof.
  intros Hm HB Hcm HcB HeF.
  pose proof (fexp_ge_emin (Zdigits2 m + e)) as Hlo. rewrite Hcm in Hlo.
  rewrite fexp_eq in Hcm, HcB.
  destruct (Zdigits2_bounds m Hm) as [Hdm [_ Hmhi]].
  destruct (Zdigits2_bounds B HB) as [HdB [HBlo _]].
  assert (HdB53 : Zdigits2 B = 53) by lia.
  assert (Hdm53 : Zdigits2 m <= 53) by lia.
  replace F with (e + (F - e)) by lia. rewrite val_shift by (unfold OFF; lia).
  unfold val. apply Z.mul_lt_mono_pos_r; [apply p2_pos; unfold OFF; lia|].
  assert (2 ^ Zdigits2 m <= 2 ^ 53) by (apply p2_le; lia).
  rewrite HdB53 in HBlo. change (53 - 1) with 52 in HBlo.
  assert (2 ^ 1 <= 2 ^ (F - e)) by (apply p2_le; lia).
  change (2 ^ 1) with 2 in *. change (2 ^ 53) with (2 * 2 ^ 52) in *.
  nia.
Qed.

Lemma canonical_val_le_iff (m e B F : Z) :
  0 < m -> 0 < B ->
  fexp prec emax (Zdigits2 m + e) = e -> fexp prec emax (Zdigits2 B + F) = F ->
  (val m e <= val B F <-> e < F \/ (e = F /\ m <= B)).
Proof.
  intros Hm HB Hcm HcB.
  pose proof (fexp_ge_emin (Zdigits2 m + e)) as Hlo. rewrite Hcm in Hlo.
  pose proof (fexp_ge_emin (Zdigits2 B + F)) as HloF. rewrite HcB in HloF.
  split.
  - intros H. destruct (Z.lt_trichotomy e F) as [Hlt|[Heq|Hgt]].
    + now left.
    + right. split; [exact Heq|]. subst F. apply val_cancel in H; [exact H|unfold OFF; lia].
    + exfalso. pose proof (canonical_val_lt B F m e HB Hm HcB Hcm Hgt). lia.
  - intros [Hlt|[Heq Hle]].
    + pose proof (canonical_val_lt m e B F Hm HB Hcm HcB Hlt). lia.
    + subst F. apply val_mono; [unfold OFF; lia|exact Hle].
Qed.

Lemma canonical_val_lt_iff (m e B F : Z) :
  0 < m -> 0 < B ->
  fexp prec emax (Zdigits2 m + e) = e -> fexp prec emax (Zdigits2 B + F) = F ->
  (val m e < val B F <-> e < F \/ (e = F /\ m < B)).
Proof.
  intros Hm HB Hcm HcB.
  pose proof (canonical_val_le_iff B F m e HB Hm HcB Hcm) as H.
  split.
  - intros Hlt. destruct (Z.lt_trichotomy e F) as [H1|[H1|H1]]; [now left| |].
    + right. split; [exact H1|]. subst F.
      apply val_cancel_lt in Hlt; [exact Hlt|].
      pose proof (fexp_ge_emin (Zdigits2 m + e)). unfold OFF. lia.
    + exfalso. assert (val B F <= val m e) by (apply H; now left). lia.
  - intros Hc. destruct (Z_lt_le_dec (val m e) (val B F)) as [|Hge]; [assumption|].
    exfalso. apply H in Hge. lia.
Qed.

Lemma val_pos (m : positive) (e : Z) : - OFF <= e -> 0 < val (Zpos m) e.
Proof.
  intros He. unfold val. apply Z.mul_pos_pos; [lia|]. apply p2_pos. lia.
Qed.

Lemma sf_leb_val (X Y : spec_float) :
  sf_nnf X -> sf_nnf Y -> valid_binary X = true -> valid_binary Y = true ->
  (SFleb X Y = true <-> sf_val X <= sf_val Y).
Proof.
  intros HX HY VX VY.
  destruct X as [sx| | |sx mx ex], Y as [sy| | |sy my ey]; simpl in HX, HY; try contradiction;
    subst.
  - unfold SFleb, SFltb; cbn [sf_val SFcompare]. split; [lia|reflexivity].
  - apply valid_finite in VY. destruct VY as [_ Hey].
    assert (0 < val (Zpos my) ey) by (apply val_pos; unfold OFF; lia).
    unfold SFleb, SFltb; cbn [sf_val SFcompare]. split; [lia|reflexivity].
  - apply valid_finite in VX. destruct VX as [_ Hex].
    assert (0 < val (Zpos mx) ex) by (apply val_pos; unfold OFF; lia).
    unfold SFleb, SFltb; cbn [sf_val SFcompare]. split; [discriminate|lia].
  - apply valid_finite in VX. apply valid_finite in VY.
    destruct VX as [Hcx Hex], VY as [Hcy Hey].
    unfold SFleb. rewrite SFcompare_key by discriminate.
    pose proof (lex3_spec (sf_key (S754_finite false mx ex)) (sf_key (S754_finite false my ey))) as Hlex.
    cbn [sf_key sf_val] in *.
    rewrite (canonical_val_le_iff (Zpos mx) ex (Zpos my) ey) by (assumption || lia).
    destruct (lex3 (1, ex, Z.pos mx) (1, ey, Z.pos my)); split; try discriminate; try reflexivity; lia.
Qed.

Lemma sf_ltb_val (X Y : spec_float) :
  sf_nnf X -> sf_nnf Y -> valid_binary X = true -> valid_binary Y = true ->
  (SFltb X Y = true <-> sf_val X < sf_val Y).
Proof.
  intros HX HY VX VY.
  destruct X as [sx| | |sx mx ex], Y as [sy| | |sy my ey]; simpl in HX, HY; try contradiction;
    subst.
  - unfold SFleb, SFltb; cbn [sf_val SFcompare]. split; [discriminate|lia].
  - apply valid_finite in VY. destruct VY as [_ Hey].
    assert (0 < val (Zpos my) ey) by (apply val_pos; unfold OFF; lia).
    unfold SFleb, SFltb; cbn [sf_val SFcompare]. split; [lia|reflexivity].
  - apply valid_finite in VX. destruct VX as [_ Hex].
    assert (0 < val (Zpos mx) ex) by (apply val_pos; unfold OFF; lia).
    unfold SFleb, SFltb; cbn [sf_val SFcompare]. split; [discriminate|lia].
  - apply valid_finite in VX. apply valid_finite in VY.
    destruct VX as [Hcx Hex], VY as [Hcy Hey].
    unfold SFltb. rewrite SFcompare_key by discriminate.
    pose proof (lex3_spec (sf_key (S754_finite false mx ex)) (sf_key (S754_finite false my ey))) as Hlex.
    cbn [sf_key sf_val] in *.
    rewrite (canonical_val_lt_iff (Zpos mx) ex (Zpos my) ey) by (assumption || lia).
    destruct (lex3 (1, ex, Z.pos mx) (1, ey, Z.pos my)); split; try discriminate; try reflexivity; lia.
Qed.

(** ** Reading a float's class off comparisons *)
Lemma Prim2SF_zero : Prim2SF 0 = S754_zero false.
Proof. reflexivity. Qed.
Lemma Prim2SF_one : Prim2SF 1 = S754_finite false 4503599627370496 (-52).
Proof. reflexivity. Qed.
Lemma Prim2SF_infinity : Prim2SF infinity = S754_infinity false.
Proof. reflexivity. Qed.

Lemma zero_leb_spec (x : float) : (0 <=? x)%float = true <-> sf_nn (Prim2SF x).
Proof.
  rewrite leb_spec, Prim2SF_zero. unfold SFleb.
  destruct (Prim2SF x) as [s|[]| |[] m e]; simpl; split; try discriminate; try reflexivity;
    try contradiction; auto.
Qed.

Lemma zero_ltb_spec (x : float) :
  (0 <? x)%float = true <->
  match Prim2SF x with
  | S754_finite s _ _ => s = false
  | S754_infinity s => s = false
  | _ => False
  end.
Proof.
  rewrite ltb_spec, Prim2SF_zero. unfold SFltb.
  destruct (Prim2SF x) as [s|[]| |[] m e]; simpl; split; try discriminate; try reflexivity;
    try contradiction; auto.
Qed.

Lemma ltb_infinity_spec (x : float) :
  (x <? infinity)%float = true <->
  match Prim2SF x with
  | S754_nan => False
  | S754_infinity s => s = true
  | _ => True
  end.
Proof.
  rewrite ltb_spec, Prim2SF_infinity. unfold SFltb.
  destruct (Prim2SF x) as [s|[]| |[] m e]; simpl; split; try discriminate; try reflexivity;
    try contradiction; auto.
Qed.

Lemma positive_finite (x : float) :
  (0 <? x)%float = true -> (x <? infinity)%float = true ->
  exists m e, Prim2SF x = S754_finite false m e.
Proof.
  rewrite zero_ltb_spec, ltb_infinity_spec.
  destruct (Prim2SF x) as [s|s| |s m e]; try contradiction.
  - intros -> H. discriminate.
  - intros -> _. eauto.
Qed.

Lemma between_nnf (a M : float) (m : positive) (e : Z) :
  (0 <=? a)%float = true -> (a <=? M)%float = true ->
  Prim2SF M = S754_finite false m e ->
  sf_nnf (Prim2SF a).
Proof.
  rewrite zero_leb_spec, leb_spec. intros Ha Hle HM. rewrite HM in Hle.
  destruct (Prim2SF a) as [s|s| |s ma ea]; simpl in *; try contradiction; auto.
  subst s. discriminate.
Qed.

(** ** Division *)
Lemma new_location_exact (n : Z) : new_location n 0 = loc_Exact.
Proof. unfold new_location. destruct (Z.even n); reflexivity. Qed.

Lemma div_self (x : float) (s : bool) (m : positive) (e : Z) :
  Prim2SF x = S754_finite s m e -> (x / x)%float = 1%float.
Proof.
  intros Hx. apply Prim2SF_inj. rewrite div_spec, Hx, Prim2SF_one.
  unfold SF64div, SFdiv, SFdiv_core_binary.
  replace (Zdigits2 (Z.pos m) + e - (Zdigits2 (Z.pos m) + e)) with 0 by lia.
  rewrite Z.sub_diag.
  change (Z.min (fexp prec emax 0) 0) with (-53).
  change (0 - -53) with 53.
  rewrite Z.shiftl_mul_pow2 by lia.
  assert (Hd : Z.div_eucl (Z.pos m * 2 ^ 53) (Z.pos m) = (2 ^ 53, 0)).
  { pose proof (Z.div_eucl_eq (Z.pos m * 2 ^ 53) (Z.pos m)) as Heq.
    assert (Hq : (Z.pos m * 2 ^ 53) / Z.pos m = 2 ^ 53)
      by (rewrite Z.mul_comm; apply Z.div_mul; lia).
    assert (Hr : (Z.pos m * 2 ^ 53) mod Z.pos m = 0)
      by (rewrite Z.mul_comm; apply Z.mod_mul; lia).
    unfold Z.div, Z.modulo in Hq, Hr.
    destruct (Z.div_eucl (Z.pos m * 2 ^ 53) (Z.pos m)) as [q r]. now subst. }
  rewrite Hd. rewrite new_location_exact.
  destruct s; reflexivity.
Qed.

Lemma div_eucl_fst (a b : Z) : fst (Z.div_eucl a b) = a / b.
Proof. reflexivity. Qed.

(** The quotient of a nonnegative number by a positive finite number at
    least as large lies in [0, 1]. *)
Lemma div_bounds (a M : float) :
  (0 <=? a)%float = true -> (a <=? M)%float = true ->
  (0 <? M)%float = true -> (M <? infinity)%float = true ->
  (0 <=? a / M)%float = true /\ (a / M <=? 1)%float = true.
Proof.
  intros H0a HaM H0M HMinf.
  destruct (positive_finite M H0M HMinf) as [mM [eM HM]].
  pose proof (between_nnf a M mM eM H0a HaM HM) as Hnnf.
  pose proof (Prim2SF_valid a) as Va. pose proof (Prim2SF_valid M) as VM.
  pose proof (Prim2SF_valid (a / M)) as Vq.
  rewrite leb_spec in HaM.
  rewrite zero_leb_spec, (leb_spec (a / M)), Prim2SF_one.
  rewrite div_spec in *. rewrite HM in *.
  destruct (Prim2SF a) as [sa| | |sa ma ea] eqn:Ea; simpl in Hnnf; try contradiction.
  - cbn [SF64div SFdiv]. split; [exact I|reflexivity].
  - subst sa.
    apply sf_leb_val in HaM; [|reflexivity|reflexivity|assumption|assumption].
    cbn [sf_val] in HaM.
    destruct (valid_finite _ _ _ Va) as [Hca Hea].
    destruct (valid_finite _ _ _ VM) as [HcM HeM].
    destruct (Z.eq_dec (val (Zpos ma) ea) (val (Zpos mM) eM)) as [Heq|Hneq].
    + (* equal values: the same float *)
      assert (Hle1 : val (Zpos ma) ea <= val (Zpos mM) eM) by lia.
      assert (Hle2 : val (Zpos mM) eM <= val (Zpos ma) ea) by lia.
      apply canonical_val_le_iff in Hle1; try assumption; try lia.
      apply canonical_val_le_iff in Hle2; try assumption; try lia.
      assert (ea = eM /\ ma = mM) as [-> ->] by lia.
      assert (Ha : a = M) by (apply Prim2SF_inj; congruence).
      subst a. rewrite <- HM, <- div_spec, (div_self M false mM eM HM), Prim2SF_one.
      split; reflexivity.
    + assert (Hlt : val (Zpos ma) ea < val (Zpos mM) eM) by lia. clear Hneq HaM.
      cbn [SF64div SFdiv xorb] in *.
      unfold SFdiv_core_binary in *.
      set (e' := Z.min (fexp prec emax (Zdigits2 (Z.pos ma) + ea - (Zdigits2 (Z.pos mM) + eM)))
                       (ea - eM)) in *.
      set (sh := ea - eM - e') in *.
      set (m' := match sh with
                 | 0 => Z.pos ma
                 | Z.pos _ => Z.shiftl (Z.pos ma) sh
                 | Z.neg _ => 0
                 end) in *.
      assert (Hdig : Zdigits2 (Zpos ma) + ea <= Zdigits2 (Zpos mM) + eM)
        by (apply val_le_digits; unfold OFF; lia).
      assert (He'le : e' <= -53) by (unfold e'; rewrite fexp_eq; lia).
      assert (He'lo : -2045 <= e') by (unfold e'; rewrite fexp_eq; lia).
      assert (Hsh : 0 <= sh) by (unfold sh, e'; lia).
      assert (Hm' : m' = Zpos ma * 2 ^ sh).
      { unfold m'. destruct sh as [|p|p] eqn:Hs; try lia.
        now rewrite Z.shiftl_mul_pow2. }
      assert (HeaM : ea <= eM).
      { apply canonical_val_lt_iff in Hlt; try assumption; lia. }
      pose proof (div_eucl_fst m' (Zpos mM)) as Hq.
      destruct (Z.div_eucl m' (Z.pos mM)) as [q r]. cbn [fst] in Hq.
      assert (Hq0 : 0 <= q).
      { rewrite Hq. apply Z.div_pos; [|lia]. rewrite Hm'.
        apply Z.mul_nonneg_nonneg; [lia|]. pose proof (p2_pos sh). lia. }
      assert (Hqlt : q < 2 ^ (- e')).
      { rewrite Hq. apply Z.div_lt_upper_bound; [lia|].
        rewrite Hm'. replace (- e') with ((eM - ea) + sh) by (unfold sh; lia).
        rewrite p2_add by lia.
        replace eM with (ea + (eM - ea)) in Hlt by lia.
        rewrite val_shift in Hlt by (unfold OFF; lia).
        apply val_cancel_lt in Hlt; [|unfold OFF; lia].
        pose proof (p2_pos sh Hsh). nia. }
      pose proof (round_upper false q e' (new_location (Z.pos mM) r)
                    4503599627370496 (-52)) as Hup.
      assert (Hvb : val (q + 1) e' <= val 4503599627370496 (-52)).
      { change 4503599627370496 with (2 ^ 52).
        rewrite (val_p2 (-52) 52) by (unfold OFF; lia).
        replace (52 + -52 + OFF) with ((- e') + (e' + OFF)) by lia.
        rewrite p2_add by (unfold OFF; lia). unfold val.
        apply Z.mul_le_mono_nonneg_r; [|lia].
        pose proof (p2_pos (e' + OFF)). unfold OFF in *. lia. }
      specialize (Hup Hq0 ltac:(lia) ltac:(unfold OFF; lia) ltac:(lia)
                      ltac:(reflexivity) ltac:(lia) Hvb).
      destruct (binary_round_aux prec emax false q e' (new_location (Z.pos mM) r))
        as [s| | |s m e] eqn:Er; try contradiction.
      * subst s. split; [exact I|reflexivity].
      * destruct Hup as [-> [Helo Hv]]. split; [reflexivity|].
        apply sf_leb_val; [reflexivity|reflexivity|assumption|reflexivity|].
        exact Hv.
Qed.

(** ** Aligning and rounding *)
Lemma pos_iter_xO (m d : positive) : Zpos (Pos.iter xO m d) = Zpos m * 2 ^ Zpos d.
Proof.
  induction d as [|d IH] using Pos.peano_ind.
  - simpl. lia.
  - rewrite Pos.iter_succ, Pos2Z.inj_succ, Z.pow_succ_r by lia.
    rewrite Pos2Z.inj_xO, IH. ring.
Qed.

Lemma shl_align_spec (mx : positive) (ex ez : Z) :
  let '(mz, ez') := shl_align mx ex ez in
  ez' = Z.min ex ez /\ Zpos mz = Zpos mx * 2 ^ (ex - ez').
Proof.
  unfold shl_align. destruct (ez - ex) as [|d|d] eqn:Hd.
  - split; [lia|]. rewrite Z.sub_diag. simpl. lia.
  - split; [lia|]. rewrite Z.sub_diag. simpl. lia.
  - split; [lia|]. rewrite pos_iter_xO. f_equal. f_equal. lia.
Qed.

Lemma shl_align_fst (mx : positive) (ex ez : Z) :
  ez <= ex -> Zpos (fst (shl_align mx ex ez)) = Zpos mx * 2 ^ (ex - ez).
Proof.
  intros H. pose proof (shl_align_spec mx ex ez) as Hs.
  destruct (shl_align mx ex ez) as [mz ez']. cbn [fst]. destruct Hs as [He Hm].
  rewrite Hm. f_equal. f_equal. lia.
Qed.

(** [binary_round] of a positive mantissa: some positive mantissa of the
    same value goes through [binary_round_aux]. *)
Lemma binary_round_unfold (sx : bool) (mx : positive) (ex : Z) :
  exists mz ez,
    binary_round prec emax sx mx ex
    = binary_round_aux prec emax sx (Zpos mz) ez loc_Exact
    /\ ez = Z.min ex (fexp prec emax (Zdigits2 (Zpos mx) + ex))
    /\ Zpos mz = Zpos mx * 2 ^ (ex - ez).
Proof.
  unfold binary_round.
  pose proof (shl_align_spec mx ex (fexp prec emax (Z.pos (digits2_pos mx) + ex))) as Hs.
  destruct (shl_align mx ex _) as [mz ez]. exists mz, ez.
  destruct Hs as [He Hm]. split; [reflexivity|]. split; assumption.
Qed.

Lemma binary_round_pos (sx : bool) (mx : positive) (ex : Z) :
  -1074 <= ex ->
  match binary_round prec emax sx mx ex with
  | S754_finite s _ _ => s = sx
  | S754_infinity s => s = sx
  | _ => False
  end.
Proof.
  intros He. destruct (binary_round_unfold sx mx ex) as [mz [ez [Hr [Hez Hmz]]]].
  rewrite Hr. apply round_pos; [lia|].
  pose proof (fexp_ge_emin (Zdigits2 (Z.pos mx) + ex)). lia.
Qed.

Lemma binary_round_sign (sx : bool) (mx : positive) (ex : Z) :
  match binary_round prec emax sx mx ex with
  | S754_zero s => s = sx
  | S754_finite s _ _ => s = sx
  | S754_infinity s => s = sx
  | S754_nan => False
  end.
Proof.
  destruct (binary_round_unfold sx mx ex) as [mz [ez [Hr _]]].
  rewrite Hr. apply round_sign. lia.
Qed.

Lemma val_mono_e (m e e' : Z) : 0 <= m -> - OFF <= e -> e <= e' -> val m e <= val m e'.
Proof.
  intros Hm He Hee. unfold val.
  apply Z.mul_le_mono_nonneg_l; [exact Hm|]. apply p2_le. lia.
Qed.

(** [binary_round] below a representable bound. *)
Lemma binary_round_upper (mx : positive) (ex B F : Z) :
  0 < B -> -1074 <= ex -> ex <= 971 ->
  fexp prec emax (Zdigits2 B + F) = F -> F <= 971 ->
  val (Zpos mx + 1) ex <= val B F ->
  match binary_round prec emax false mx ex with
  | S754_finite s m e => s = false /\ - OFF <= e /\ val (Zpos m) e <= val B F
  | _ => False
  end.
Proof.
  intros HB He He' Hcan HF Hv.
  pose proof (binary_round_pos false mx ex He) as Hpos.
  destruct (binary_round_unfold false mx ex) as [mz [ez [Hr [Hez Hmz]]]].
  rewrite Hr in *.
  pose proof (fexp_ge_emin (Zdigits2 (Z.pos mx) + ex)) as Hfe.
  assert (Hezlo : -1074 <= ez) by lia.
  assert (Hezle : ez <= ex) by lia.
  assert (Hup : match binary_round_aux prec emax false (Zpos mz) ez loc_Exact with
                | S754_zero s => s = false
                | S754_finite s m e => s = false /\ - OFF <= e /\ val (Zpos m) e <= val B F
                | _ => False
                end).
  { apply round_upper; try assumption; try lia.
    - unfold OFF. lia.
    - replace ex with (ez + (ex - ez)) in Hv by lia.
      rewrite val_shift in Hv by (unfold OFF; lia).
      eapply Z.le_trans; [|exact Hv].
      apply val_mono; [unfold OFF; lia|].
      rewrite Hmz. pose proof (p2_pos (ex - ez)). nia. }
  destruct (binary_round_aux prec emax false (Zpos mz) ez loc_Exact) as [s|s| |s m e];
    try contradiction. exact Hup.
Qed.

(** ** Sums, differences and quotients of nonnegative numbers *)
Lemma SFadd_nn (X Y : spec_float) : sf_nn X -> sf_nn Y -> sf_nn (SF64add X Y).
Proof.
  intros HX HY.
  destruct X as [sx|sx| |sx mx ex], Y as [sy|sy| |sy my ey]; simpl in HX, HY;
    try contradiction; subst; try exact I; try reflexivity.
  - destruct sx, sy; exact I.
  - unfold SF64add, SFadd. cbn [cond_Zopp].
    change (Z.pos (fst (shl_align mx ex (Z.min ex ey)))
            + Z.pos (fst (shl_align my ey (Z.min ex ey))))
      with (Z.pos (fst (shl_align mx ex (Z.min ex ey)) + fst (shl_align my ey (Z.min ex ey)))).
    cbn [binary_normalize].
    pose proof (binary_round_sign false
                  (fst (shl_align mx ex (Z.min ex ey)) + fst (shl_align my ey (Z.min ex ey)))
                  (Z.min ex ey)) as H.
    destruct (binary_round _ _ _ _ _) as [s|s| |s m e]; simpl; auto.
Qed.

Lemma add_nonneg (x y : float) :
  (0 <=? x)%float = true -> (0 <=? y)%float = true -> (0 <=? x + y)%float = true.
Proof.
  rewrite !zero_leb_spec, add_spec. apply SFadd_nn.
Qed.

Lemma abs_nonneg (x : float) : is_nan x = false -> (0 <=? abs x)%float = true.
Proof.
  rewrite not_nan_spec, zero_leb_spec, abs_spec.
  destruct (Prim2SF x); simpl; intros H; try exact I; try reflexivity; congruence.
Qed.

Lemma abs_nan (x : float) : is_nan x = true -> is_nan (abs x) = true.
Proof. rewrite !is_nan_spec, abs_spec. intros ->. reflexivity. Qed.

Lemma add_nan_l (x y : float) : is_nan x = true -> is_nan (x + y) = true.
Proof. rewrite !is_nan_spec, add_spec. intros ->. reflexivity. Qed.

Lemma add_nan_r (x y : float) : is_nan y = true -> is_nan (x + y) = true.
Proof.
  rewrite !is_nan_spec, add_spec. intros ->. destruct (Prim2SF x); reflexivity.
Qed.

Lemma div_nan_l (x y : float) : is_nan x = true -> is_nan (x / y) = true.
Proof. rewrite !is_nan_spec, div_spec. intros ->. reflexivity. Qed.

Lemma SFdiv_core_nonneg (m1 : positive) (e1 : Z) (m2 : positive) (e2 : Z) :
  let '(q, e, l) := SFdiv_core_binary prec emax (Zpos m1) e1 (Zpos m2) e2 in 0 <= q.
Proof.
  unfold SFdiv_core_binary.
  set (sh := e1 - e2 - _).
  set (m' := match sh with 0 => Z.pos m1 | Z.pos _ => Z.shiftl (Z.pos m1) sh | Z.neg _ => 0 end).
  assert (Hm' : 0 <= m').
  { unfold m'. destruct sh; try lia. apply Z.shiftl_nonneg. lia. }
  pose proof (div_eucl_fst m' (Zpos m2)) as Hq.
  destruct (Z.div_eucl m' (Z.pos m2)) as [q r]. cbn [fst] in Hq.
  rewrite Hq. apply Z.div_pos; lia.
Qed.

Lemma SFdiv_nn (X Y : spec_float) (m : positive) (e : Z) :
  sf_nn X -> Y = S754_finite false m e -> sf_nn (SF64div X Y).
Proof.
  intros HX ->.
  destruct X as [sx|sx| |sx mx ex]; simpl in HX; try contradiction; subst; try exact I;
    try reflexivity.
  unfold SF64div, SFdiv. cbn [xorb].
  pose proof (SFdiv_core_nonneg mx ex m e) as Hq.
  destruct (SFdiv_core_binary prec emax (Z.pos mx) ex (Z.pos m) e) as [[q e'] l].
  pose proof (round_sign false q e' l Hq) as H.
  destruct (binary_round_aux prec emax false q e' l); simpl; auto.
Qed.

Lemma div_nonneg (x y : float) :
  (0 <=? x)%float = true -> (0 <? y)%float = true -> (y <? infinity)%float = true ->
  (0 <=? x / y)%float = true.
Proof.
  intros Hx Hy Hy'. destruct (positive_finite y Hy Hy') as [m [e Hm]].
  rewrite zero_leb_spec in *. rewrite div_spec.
  eapply SFdiv_nn; eauto.
Qed.

(** The sign of a difference of two nonnegative finite numbers tells which
    is larger. *)
Lemma sub_sign (x y : float) :
  sf_nnf (Prim2SF x) -> sf_nnf (Prim2SF y) ->
  (0 <? y - x)%float = (x <? y)%float.
Proof.
  intros Hx Hy.
  pose proof (Prim2SF_valid x) as Vx. pose proof (Prim2SF_valid y) as Vy.
  rewrite !ltb_spec, sub_spec, Prim2SF_zero.
  destruct (Prim2SF x) as [sx| | |sx mx ex] eqn:Ex, (Prim2SF y) as [sy| | |sy my ey] eqn:Ey;
    simpl in Hx, Hy; try contradiction; subst.
  - destruct sx, sy; reflexivity.
  - reflexivity.
  - reflexivity.
  - destruct (valid_finite _ _ _ Vx) as [Hcx Hex].
    destruct (valid_finite _ _ _ Vy) as [Hcy Hey].
    pose proof (sf_ltb_val (S754_finite false mx ex) (S754_finite false my ey)
                  eq_refl eq_refl Vx Vy) as Hlt.
    cbn [sf_val] in Hlt.
    unfold SF64sub, SFsub. cbn [cond_Zopp].
    set (ez := Z.min ey ex).
    rewrite !shl_align_fst by (unfold ez; lia).
    set (D := Z.pos my * 2 ^ (ey - ez) - Z.pos mx * 2 ^ (ex - ez)).
    assert (HD : val (Zpos my) ey - val (Zpos mx) ex = val D ez).
    { unfold D.
      replace (val (Zpos my) ey) with (val (Zpos my * 2 ^ (ey - ez)) ez)
        by (rewrite <- val_shift by (unfold ez, OFF; lia); f_equal; lia).
      replace (val (Zpos mx) ex) with (val (Zpos mx * 2 ^ (ex - ez)) ez)
        by (rewrite <- val_shift by (unfold ez, OFF; lia); f_equal; lia).
      unfold val. ring. }
    assert (Hp2 : 0 < 2 ^ (ez + OFF)) by (apply p2_pos; unfold ez, OFF; lia).
    assert (Hezlo : -1074 <= ez) by (unfold ez; lia).
    destruct D as [|d|d] eqn:HDs; cbn [binary_normalize].
    + unfold val in HD at 3. rewrite Z.mul_0_l in HD.
      destruct (SFltb (S754_finite false mx ex) (S754_finite false my ey));
        [|reflexivity].
      destruct Hlt as [H1 _]. specialize (H1 eq_refl). lia.
    + assert (Hv : 0 < val (Zpos d) ez) by (unfold val; nia).
      assert (E : SFltb (S754_finite false mx ex) (S754_finite false my ey) = true)
        by (apply Hlt; lia).
      rewrite E.
      pose proof (binary_round_pos false d ez Hezlo) as Hr.
      destruct (binary_round prec emax false d ez) as [s|s| |s m e]; try contradiction;
        subst; reflexivity.
    + assert (Hv : val (Zneg d) ez < 0) by (unfold val; nia).
      destruct (SFltb (S754_finite false mx ex) (S754_finite false my ey)).
      * destruct Hlt as [H1 _]. specialize (H1 eq_refl). lia.
      * pose proof (binary_round_pos true d ez Hezlo) as Hr.
        destruct (binary_round prec emax true d ez) as [s|s| |s m e]; try contradiction;
          subst; reflexivity.
Qed.

Lemma sf_pf_nnf X : sf_pf X -> sf_nnf X.
Proof. destruct X; simpl; intros H; try contradiction; auto. Qed.
Lemma sf_pf_pn X : sf_pf X -> sf_pn X.
Proof. destruct X; simpl; intros H; try contradiction; auto. Qed.
Lemma sf_pn_nn X : sf_pn X -> sf_nn X.
Proof. destruct X; simpl; intros H; try contradiction; auto. Qed.

Lemma binary_round_aux_canonical (sx : bool) (m : positive) (e : Z) :
  fexp prec emax (Zdigits2 (Zpos m) + e) = e -> e <= 971 ->
  binary_round_aux prec emax sx (Zpos m) e loc_Exact = S754_finite sx m e.
Proof.
  intros Hc He. unfold binary_round_aux, shr_fexp.
  rewrite Hc, Z.sub_diag. cbn [shr shr_record_of_loc shr_m loc_of_shr_record round_nearest_even].
  rewrite Hc, Z.sub_diag. cbn [shr shr_record_of_loc shr_m].
  change (emax - prec) with 971.
  destruct (Z.leb_spec e 971); [reflexivity|lia].
Qed.

Lemma Zdigits2_mul_p2 (m k : Z) : 0 < m -> 0 <= k -> Zdigits2 (m * 2 ^ k) = Zdigits2 m + k.
Proof.
  intros Hm Hk. destruct (Zdigits2_bounds m Hm) as [Hd [Hlo Hhi]].
  pose proof (p2_pos k Hk) as Hp.
  assert (Hlo' : 2 ^ (Zdigits2 m + k - 1) <= m * 2 ^ k).
  { replace (Zdigits2 m + k - 1) with ((Zdigits2 m - 1) + k) by lia.
    rewrite p2_add by lia. nia. }
  assert (Hhi' : m * 2 ^ k < 2 ^ (Zdigits2 m + k)).
  { rewrite p2_add by lia. nia. }
  apply Zdigits2_gt in Hlo'; [|lia].
  apply Zdigits2_le in Hhi'; [lia|nia|lia].
Qed.

Lemma num_of_Z_spec (z : Z) :
  0 <= z < 2 ^ 53 ->
  sf_pf (Prim2SF (num_of_Z z))
  /\ sf_val (Prim2SF (num_of_Z z)) = val z 0
  /\ (z = 0 -> num_of_Z z = 0%float).
Proof.
  intros Hz. unfold num_of_Z.
  assert (Hspec : Prim2SF (of_uint63 (of_Z z)) = binary_normalize prec emax z 0 false).
  { rewrite of_uint63_spec, Uint63.of_Z_spec, Z.mod_small; [reflexivity|].
    change wB with (2 ^ 63). change (2 ^ 53) with 9007199254740992 in Hz.
    change (2 ^ 63) with 9223372036854775808. lia. }
  destruct z as [|p|p]; [| |lia].
  - split; [reflexivity|]. split; [reflexivity|]. intros _. reflexivity.
  - rewrite Hspec. cbn [binary_normalize].
    destruct (binary_round_unfold false p 0) as [mz [ez [Hr [Hez Hmz]]]].
    destruct (Zdigits2_bounds (Zpos p) ltac:(lia)) as [Hd [Hlo Hhi]].
    assert (Hd53 : Zdigits2 (Zpos p) <= 53) by (apply Zdigits2_le; lia).
    rewrite fexp_eq in Hez.
    assert (Hez' : ez = Zdigits2 (Zpos p) - 53) by lia.
    assert (Hdz : Zdigits2 (Zpos mz) = 53).
    { rewrite Hmz, Zdigits2_mul_p2 by lia. lia. }
    rewrite Hr, binary_round_aux_canonical; [| rewrite Hdz, fexp_eq; lia | lia].
    split; [reflexivity|]. split; [|intros; discriminate].
    cbn [sf_val]. rewrite Hmz.
    rewrite <- val_shift by (unfold OFF; lia). f_equal. lia.
Qed.

Lemma is_zero_spec (x : float) :
  is_zero x = true <-> exists s, Prim2SF x = S754_zero s.
Proof.
  unfold is_zero. rewrite eqb_spec. change (Prim2SF zero) with (S754_zero false).
  unfold SFeqb.
  destruct (Prim2SF x) as [s|[]| |[] m e]; simpl; split; try discriminate; eauto;
    intros [s' H]; discriminate.
Qed.

(** [x || 0] is [x] itself for every number that is not NaN and not -0. *)
Lemma or_else_zero (x : float) : sf_pn (Prim2SF x) -> or_else x 0 = x.
Proof.
  intros Hx. unfold or_else, truthy.
  assert (Hnan : is_nan x = false).
  { apply not_nan_spec. intros E. rewrite E in Hx. exact Hx. }
  rewrite Hnan. cbn [orb].
  destruct (is_zero x) eqn:Ez; [|reflexivity]. cbn [negb].
  apply is_zero_spec in Ez. destruct Ez as [s Hs]. rewrite Hs in Hx. simpl in Hx. subst s.
  apply Prim2SF_inj. now rewrite Hs.
Qed.

Lemma or_else_not_nan (x : float) : is_nan (or_else x 0) = false.
Proof.
  unfold or_else, truthy. destruct (is_nan x) eqn:E; cbn [orb negb]; [reflexivity|].
  destruct (is_zero x); cbn [negb]; [reflexivity|exact E].
Qed.

Lemma SFdiv_pn (X Y : spec_float) (m : positive) (e : Z) :
  sf_pn X -> Y = S754_finite false m e -> sf_pn (SF64div X Y).
Proof.
  intros HX ->.
  destruct X as [sx|sx| |sx mx ex]; simpl in HX; try contradiction; subst; try reflexivity.
  unfold SF64div, SFdiv. cbn [xorb].
  pose proof (SFdiv_core_nonneg mx ex m e) as Hq.
  destruct (SFdiv_core_binary prec emax (Z.pos mx) ex (Z.pos m) e) as [[q e'] l].
  pose proof (round_sign false q e' l Hq) as H.
  destruct (binary_round_aux prec emax false q e' l); simpl; auto.
Qed.

Lemma leb_of_val (x y : float) :
  sf_nnf (Prim2SF x) -> sf_nnf (Prim2SF y) ->
  ((x <=? y)%float = true <-> sf_val (Prim2SF x) <= sf_val (Prim2SF y)).
Proof.
  intros Hx Hy. rewrite leb_spec. apply sf_leb_val; auto using Prim2SF_valid.
Qed.

Lemma ltb_of_val (x y : float) :
  sf_nnf (Prim2SF x) -> sf_nnf (Prim2SF y) ->
  ((x <? y)%float = true <-> sf_val (Prim2SF x) < sf_val (Prim2SF y)).
Proof.
  intros Hx Hy. rewrite ltb_spec. apply sf_ltb_val; auto using Prim2SF_valid.
Qed.

Lemma sf_val_pos (X : spec_float) (m : positive) (e : Z) :
  X = S754_finite false m e -> valid_binary X = true -> 0 < sf_val X.
Proof.
  intros -> V. destruct (valid_finite _ _ _ V) as [_ He].
  cbn [sf_val]. apply val_pos. unfold OFF. lia.
Qed.

Lemma val_one : sf_val (Prim2SF 1) = val 1 0.
Proof. reflexivity. Qed.

(** A count over a non-zero total: the quotient is a number from +0 to 1,
    and [|| 0] leaves it alone. *)
Lemma ratio_spec (a d : Z) :
  0 <= a <= d -> 0 < d < 2 ^ 53 ->
  let q := (num_of_Z a / num_of_Z d)%float in
  sf_pf (Prim2SF q) /\ sf_val (Prim2SF q) <= val 1 0 /\ or_else q 0 = q
  /\ (a = 0 -> q = 0%float).
Proof.
  intros Ha Hd q.
  destruct (num_of_Z_spec a ltac:(lia)) as [Hpa [Hva Hza]].
  destruct (num_of_Z_spec d ltac:(lia)) as [Hpd [Hvd _]].
  assert (HD : exists m e, Prim2SF (num_of_Z d) = S754_finite false m e).
  { destruct (Prim2SF (num_of_Z d)) as [s| | |s m e]; simpl in Hpd; try contradiction.
    - cbn [sf_val] in Hvd. unfold val in Hvd.
      pose proof (p2_pos (0 + OFF) ltac:(unfold OFF; lia)). nia.
    - subst s. eauto. }
  destruct HD as [md [ed HD]].
  assert (H0a : (0 <=? num_of_Z a)%float = true)
    by (apply zero_leb_spec, sf_pn_nn, sf_pf_pn, Hpa).
  assert (Had : (num_of_Z a <=? num_of_Z d)%float = true).
  { apply leb_of_val; auto using sf_pf_nnf. rewrite Hva, Hvd.
    apply val_mono; [unfold OFF; lia|lia]. }
  assert (H0d : (0 <? num_of_Z d)%float = true) by (apply zero_ltb_spec; now rewrite HD).
  assert (Hdi : (num_of_Z d <? infinity)%float = true)
    by (apply ltb_infinity_spec; now rewrite HD).
  destruct (div_bounds _ _ H0a Had H0d Hdi) as [Hq0 Hq1]. fold q in Hq0, Hq1.
  assert (Hpn : sf_pn (Prim2SF q)).
  { unfold q. rewrite div_spec. eapply SFdiv_pn; [|exact HD]. now apply sf_pf_pn. }
  assert (Hpf : sf_pf (Prim2SF q)).
  { rewrite leb_spec, Prim2SF_one in Hq1.
    destruct (Prim2SF q) as [s|s| |s m e]; simpl in Hpn |- *; auto. subst s. discriminate. }
  split; [exact Hpf|]. split.
  - rewrite <- val_one. apply leb_of_val; auto using sf_pf_nnf. reflexivity.
  - split; [now apply or_else_zero|].
    intros ->. unfold q. rewrite (Hza eq_refl).
    apply Prim2SF_inj. rewrite div_spec, HD. reflexivity.
Qed.

Lemma SFmul_pn (X Y : spec_float) : sf_pf X -> sf_pf Y -> sf_pn (SF64mul X Y).
Proof.
  intros HX HY.
  destruct X as [sx|sx| |sx mx ex], Y as [sy|sy| |sy my ey]; simpl in HX, HY;
    try contradiction; subst; try reflexivity.
  unfold SF64mul, SFmul. cbn [xorb].
  pose proof (round_sign false (Z.pos (mx * my)) (ex + ey) loc_Exact ltac:(lia)) as H.
  destruct (binary_round_aux _ _ _ _ _ _); simpl; auto.
Qed.

Lemma sf_pf_zero_or_finite (x : float) :
  sf_pf (Prim2SF x) -> x = 0%float \/ exists m e, Prim2SF x = S754_finite false m e.
Proof.
  intros H. destruct (Prim2SF x) as [s| | |s m e] eqn:E; simpl in H; try contradiction; subst.
  - left. apply Prim2SF_inj. now rewrite E.
  - right. eauto.
Qed.

Lemma val_le_one_exp (m : positive) (e : Z) :
  -1074 <= e -> val (Zpos m) e <= val 1 0 -> e <= 0.
Proof.
  intros He H. unfold val in H. rewrite Z.mul_1_l in H.
  destruct (Z_le_gt_dec e 0) as [|Hgt]; [assumption|exfalso].
  assert (2 ^ (0 + OFF) < 2 ^ (e + OFF)) by (apply p2_lt; unfold OFF; lia).
  pose proof (p2_pos (e + OFF) ltac:(unfold OFF; lia)). nia.
Qed.

(** The sum of two numbers of [0, 1], not both zero, is a positive finite
    number. *)
Lemma add_unit_finite (p r : float) :
  sf_pf (Prim2SF p) -> sf_pf (Prim2SF r) ->
  sf_val (Prim2SF p) <= val 1 0 -> sf_val (Prim2SF r) <= val 1 0 ->
  p <> 0%float \/ r <> 0%float ->
  exists m e, Prim2SF (p + r) = S754_finite false m e.
Proof.
  intros Hp Hr Hvp Hvr Hnz.
  pose proof (Prim2SF_valid p) as Vp. pose proof (Prim2SF_valid r) as Vr.
  rewrite add_spec.
  destruct (sf_pf_zero_or_finite p Hp) as [Hp0|[mp [ep HP]]];
    destruct (sf_pf_zero_or_finite r Hr) as [Hr0|[mr [er HR]]].
  - exfalso. destruct Hnz; contradiction.
  - subst p. rewrite HR, Prim2SF_zero. cbn. eauto.
  - subst r. rewrite HP, Prim2SF_zero. cbn. eauto.
  - rewrite HP, HR in *. cbn [sf_val] in Hvp, Hvr.
    destruct (valid_finite _ _ _ Vp) as [Hcp Hep].
    destruct (valid_finite _ _ _ Vr) as [Hcr Her].
    unfold SF64add, SFadd. cbn [cond_Zopp].
    set (ez := Z.min ep er).
    change (Z.pos (fst (shl_align mp ep ez)) + Z.pos (fst (shl_align mr er ez)))
      with (Z.pos (fst (shl_align mp ep ez) + fst (shl_align mr er ez))).
    cbn [binary_normalize].
    pose proof (binary_round_upper (fst (shl_align mp ep ez) + fst (shl_align mr er ez))
                  ez 4503599627370496 (-50)) as Hup.
    assert (Hv : val (Z.pos (fst (shl_align mp ep ez) + fst (shl_align mr er ez)) + 1) ez
                 <= val 4503599627370496 (-50)).
    { rewrite Pos2Z.inj_add, !shl_align_fst by (unfold ez; lia).
      pose proof (val_le_one_exp mp ep ltac:(lia) Hvp) as Hep0.
      assert (H1 : val (Zpos mp * 2 ^ (ep - ez)) ez = val (Zpos mp) ep)
        by (rewrite <- val_shift by (unfold ez, OFF; lia); f_equal; lia).
      assert (H2 : val (Zpos mr * 2 ^ (er - ez)) ez = val (Zpos mr) er)
        by (rewrite <- val_shift by (unfold ez, OFF; lia); f_equal; lia).
      assert (H3 : val 1 ez <= val 1 0)
        by (apply val_mono_e; unfold ez, OFF; lia).
      assert (H4 : val 4503599627370496 (-50) = 4 * val 1 0).
      { change 4503599627370496 with (2 ^ 52). rewrite val_p2 by (unfold OFF; lia).
        unfold val. rewrite Z.mul_1_l. change 4 with (2 ^ 2).
        rewrite <- p2_add by (unfold OFF; lia). f_equal. }
      rewrite H4. unfold val in *. nia. }
    specialize (Hup ltac:(lia) ltac:(unfold ez; lia) ltac:(unfold ez; lia)
                    ltac:(reflexivity) ltac:(lia) Hv).
    destruct (binary_round _ _ _ _ _) as [s|s| |s m e]; try contradiction.
    destruct Hup as [-> _]. eauto.
Qed.

(** [f1 = 2 * (p * r) / (p + r) || 0] on two numbers of [0, 1]. *)
Lemma f1_spec (p r : float) :
  sf_pf (Prim2SF p) -> sf_pf (Prim2SF r) ->
  sf_val (Prim2SF p) <= val 1 0 -> sf_val (Prim2SF r) <= val 1 0 ->
  is_nan (f1_of p r) = false
  /\ (p = 0%float -> r = 0%float -> f1_of p r = 0%float)
  /\ (p <> 0%float \/ r <> 0%float -> f1_of p r = (2 * (p * r) / (p + r))%float).
Proof.
  intros Hp Hr Hvp Hvr. split; [apply or_else_not_nan|]. split.
  - intros -> ->. reflexivity.
  - intros Hnz. unfold f1_of. apply or_else_zero.
    destruct (add_unit_finite p r Hp Hr Hvp Hvr Hnz) as [m [e Hv]].
    rewrite div_spec. eapply SFdiv_pn; [|exact Hv].
    rewrite mul_spec.
    assert (Ht : sf_pn (Prim2SF (p * r))).
    { rewrite mul_spec. apply SFmul_pn; assumption. }
    change (Prim2SF 2) with (S754_finite false 4503599627370496 (-51)).
    destruct (Prim2SF (p * r)) as [s|s| |s mt et]; simpl in Ht; try contradiction; subst;
      try reflexivity.
    unfold SF64mul, SFmul. cbn [xorb].
    pose proof (round_sign false (Z.pos (4503599627370496 * mt)) (-51 + et) loc_Exact
                  ltac:(lia)) as H.
    destruct (binary_round_aux _ _ _ _ _ _); simpl; auto.
Qed.

(** ** The round bit *)
Lemma shr_iter_r (n : nat) (mrs : shr_record) :
  0 <= shr_m mrs ->
  shr_r (Nat.iter (S n) shr_1 mrs) = Z.testbit (shr_m mrs) (Z.of_nat n).
Proof.
  intros Hm. rewrite Nat.iter_succ, shr_1_r.
  - rewrite shr_iter_m by assumption.
    rewrite Z.testbit_odd, Z.shiftr_div_pow2 by lia. reflexivity.
  - rewrite shr_iter_m by assumption. apply Z.div_pos; [lia|apply p2_pos; lia].
Qed.

Lemma round_down_of_bit (mrs : shr_record) :
  shr_r mrs = false ->
  round_nearest_even (shr_m mrs) (loc_of_shr_record mrs) = shr_m mrs.
Proof. destruct mrs as [m [] []]; simpl; congruence. Qed.

(** Shifting an exact mantissa right by [n >= 1] places rounds down when
    bit [n - 1] of the mantissa is clear. *)
Lemma shr_fexp_round_down (M E : Z) :
  0 <= M ->
  0 < fexp prec emax (Zdigits2 M + E) - E ->
  Z.testbit M (fexp prec emax (Zdigits2 M + E) - E - 1) = false ->
  round_nearest_even (shr_m (fst (shr_fexp prec emax M E loc_Exact)))
                     (loc_of_shr_record (fst (shr_fexp prec emax M E loc_Exact)))
  = M / 2 ^ (fexp prec emax (Zdigits2 M + E) - E).
Proof.
  intros HM Hn Hbit.
  destruct (shr_fexp_spec M E loc_Exact HM) as [_ Hm1].
  replace (Z.max E (fexp prec emax (Zdigits2 M + E)) - E)
    with (fexp prec emax (Zdigits2 M + E) - E) in Hm1 by lia.
  rewrite <- Hm1. apply round_down_of_bit.
  unfold shr_fexp, shr.
  destruct (fexp prec emax (Zdigits2 M + E) - E) as [|p|p] eqn:Hp; try lia.
  cbn [fst]. rewrite iter_pos_nat.
  destruct (Pos.to_nat p) as [|k] eqn:Hk; [lia|].
  rewrite shr_iter_r by (cbn [shr_record_of_loc shr_m]; lia).
  cbn [shr_record_of_loc shr_m].
  replace (Z.of_nat k) with (Z.pos p - 1) by lia. exact Hbit.
Qed.

Lemma testbit_small_mod (M n : Z) :
  0 <= M -> 0 < n -> M mod 2 ^ n < 2 ^ (n - 1) -> Z.testbit M (n - 1) = false.
Proof.
  intros HM Hn Hmod.
  rewrite <- (Z.mod_pow2_bits_low M n (n - 1)) by lia.
  pose proof (Z.mod_pos_bound M (2 ^ n) (p2_pos n ltac:(lia))) as Hb.
  destruct (Z.eq_dec (M mod 2 ^ n) 0) as [E0|Hne].
  - rewrite E0. apply Z.bits_0.
  - apply Z.bits_above_log2; [lia|].
    apply Z.log2_lt_pow2; [lia|exact Hmod].
Qed.

Lemma Prim2SF_tenth : Prim2SF 0.1 = S754_finite false 7205759403792794 (-56).
Proof. reflexivity. Qed.

Lemma canonical_digits_le (m : positive) (e : Z) :
  fexp prec emax (Zdigits2 (Zpos m) + e) = e -> Zdigits2 (Zpos m) <= 53.
Proof. rewrite fexp_eq. lia. Qed.

(** A tenth of a number of [0, 1) is a number of [0, 0.1). *)
Lemma tenth_bounds (r : float) :
  (0 <=? r)%float = true -> (r <? 1)%float = true ->
  (0 <=? r * 0.1)%float = true /\ (r * 0.1 <? 0.1)%float = true.
Proof.
  intros H0 H1.
  pose proof (Prim2SF_valid r) as Vr. pose proof (Prim2SF_valid (r * 0.1)) as Vq.
  rewrite zero_leb_spec in H0. rewrite ltb_spec, Prim2SF_one in H1.
  rewrite zero_leb_spec, ltb_spec, mul_spec, Prim2SF_tenth.
  rewrite mul_spec, Prim2SF_tenth in Vq.
  destruct (Prim2SF r) as [s|s| |s mr er] eqn:Er; simpl in H0; try contradiction; subst.
  - destruct s; split; reflexivity.
  - discriminate.
  - set (c := 7205759403792794%positive) in *.
    destruct (valid_finite _ _ _ Vr) as [Hcr Her].
    apply sf_ltb_val in H1; [|reflexivity|reflexivity|assumption|reflexivity].
    cbn [sf_val] in H1.
    apply canonical_val_lt_iff in H1; [|lia|lia|assumption|reflexivity].
    pose proof (canonical_digits_le mr er Hcr) as Hd53.
    destruct (Zdigits2_bounds (Zpos mr) ltac:(lia)) as [Hdpos [Hmlo Hmhi]].
    assert (Hmr : Zpos mr < 2 ^ 53).
    { assert (2 ^ Zdigits2 (Zpos mr) <= 2 ^ 53) by (apply p2_le; lia). lia. }
    assert (Her53 : er <= -53).
    { destruct H1 as [H1|[H1 H2]]; [lia|]. exfalso. subst er.
      rewrite fexp_eq in Hcr. assert (Zdigits2 (Zpos mr) = 53) by lia.
      rewrite H in Hmlo. change (2 ^ (53 - 1)) with 4503599627370496 in Hmlo. lia. }
    clear H1.
    unfold SF64mul, SFmul in *. cbn [xorb] in *.
    set (M := Z.pos (mr * c)) in *. set (E := er + -56) in *.
    assert (HM : M = Zpos mr * Zpos c) by reflexivity.
    pose proof (round_sign false M E loc_Exact ltac:(lia)) as Hsign.
    split.
    { destruct (binary_round_aux prec emax false M E loc_Exact); simpl; auto. }
    assert (Hgoal : forall m e, - OFF <= e -> val (Zpos m) e < val (Zpos c) (-56) ->
              valid_binary (S754_finite false m e) = true ->
              SFltb (S754_finite false m e) (S754_finite false c (-56)) = true).
    { intros m e He Hv V. apply sf_ltb_val; [reflexivity|reflexivity|assumption|reflexivity|].
      exact Hv. }
    assert (Hbelow : forall B F, 0 < B -> fexp prec emax (Zdigits2 B + F) = F -> F <= 971 ->
              val (M + 1) E <= val B F -> val B F < val (Zpos c) (-56) ->
              SFltb (binary_round_aux prec emax false M E loc_Exact)
                    (S754_finite false c (-56)) = true).
    { intros B F HB Hcan HF Hv Hlt.
      pose proof (round_upper false M E loc_Exact B F ltac:(lia) HB
                    ltac:(unfold E, OFF; lia) ltac:(unfold E; lia) Hcan HF Hv) as Hup.
      destruct (binary_round_aux prec emax false M E loc_Exact) as [s0| | |s0 m e];
        try contradiction.
      - subst. reflexivity.
      - destruct Hup as [-> [He Hv']]. apply Hgoal; [assumption|lia|assumption]. }
    destruct (Z_le_gt_dec er (-54)) as [Hsmall|Hbig].
    + (* r < 1/2: the product stays below 0.05 *)
      apply (Hbelow (Zpos c) (-57)); [lia|reflexivity|lia| |].
      * assert (M + 1 <= 2 ^ 53 * Zpos c) by (rewrite HM; nia).
        eapply Z.le_trans; [apply val_mono; [unfold E, OFF; lia|exact H]|].
        rewrite Z.mul_comm, <- val_shift by (unfold E, OFF; lia).
        apply val_mono_e; unfold E, OFF; lia.
      * apply canonical_val_lt; try reflexivity; lia.
    + (* 1/2 <= r < 1 *)
      assert (Her' : er = -53) by lia. subst er.
      rewrite fexp_eq in Hcr. assert (Hd : Zdigits2 (Zpos mr) = 53) by lia.
      rewrite Hd in Hmlo. change (2 ^ (53 - 1)) with 4503599627370496 in Hmlo.
      change (2 ^ 53) with 9007199254740992 in Hmr.
      destruct (Z_lt_le_dec M (2 ^ 105)) as [Hlow|Hhigh].
      * apply (Hbelow 4503599627370496 (-56)); [lia|reflexivity|lia| |].
        -- change 4503599627370496 with (2 ^ 52).
           rewrite val_p2 by (unfold OFF; lia).
           replace (52 + -56 + OFF) with (105 + (E + OFF)) by (unfold E; lia).
           rewrite p2_add by (unfold E, OFF; lia). unfold val.
           apply Z.mul_le_mono_nonneg_r; [|lia].
           pose proof (p2_pos (E + OFF)). unfold E, OFF in *. lia.
        -- unfold val. apply Z.mul_lt_mono_pos_r; [apply p2_pos; unfold OFF; lia|].
           unfold c. lia.
      * (* the mantissa has 106 digits: one shift by 53, rounding down at the top *)
        clear Hbelow. subst E. change (-53 + -56) with (-109) in *.
        assert (HdM : Zdigits2 M = 106).
        { assert (Zdigits2 M <= 106).
          { apply Zdigits2_le; [lia|lia|]. rewrite HM. unfold c.
            change (2 ^ 106) with (9007199254740992 * 9007199254740992). nia. }
          assert (105 < Zdigits2 M) by (apply Zdigits2_gt; lia). lia. }
        assert (Hfe : fexp prec emax (Zdigits2 M + -109) = -56)
          by (rewrite HdM; reflexivity).
        assert (Hq : M / 2 ^ 53 < Zpos c).
        { apply Z.div_lt_upper_bound; [lia|]. rewrite HM.
          change (2 ^ 53) with 9007199254740992. nia. }
        assert (Hq0 : 0 <= M / 2 ^ 53) by (apply Z.div_pos; lia).
        unfold binary_round_aux in *.
        destruct (shr_fexp_spec M (-109) loc_Exact ltac:(lia)) as [He1 Hm1].
        rewrite Hfe in He1, Hm1.
        change (Z.max (-109) (-56)) with (-56) in He1, Hm1.
        change (-56 - -109) with 53 in Hm1.
        (* the rounded mantissa *)
        set (m2 := round_nearest_even (shr_m (fst (shr_fexp prec emax M (-109) loc_Exact)))
                     (loc_of_shr_record (fst (shr_fexp prec emax M (-109) loc_Exact)))).
        assert (Hm2 : M / 2 ^ 53 <= m2 < Zpos c).
        { pose proof (round_nearest_even_bounds
                        (shr_m (fst (shr_fexp prec emax M (-109) loc_Exact)))
                        (loc_of_shr_record (fst (shr_fexp prec emax M (-109) loc_Exact))))
            as Hb.
          fold m2 in Hb. rewrite Hm1 in Hb.
          destruct (Z.eq_dec (M / 2 ^ 53) (Zpos c - 1)) as [Htop|Hnot]; [|lia].
          assert (Hdown : m2 = M / 2 ^ (fexp prec emax (Zdigits2 M + -109) - -109)).
          { unfold m2. apply shr_fexp_round_down; [lia|rewrite Hfe; lia|].
            rewrite Hfe. change (-56 - -109 - 1) with (53 - 1).
            apply testbit_small_mod; [lia|lia|].
            rewrite Z.mod_eq by lia. rewrite Htop.
            change (2 ^ 53) with 9007199254740992. change (2 ^ (53 - 1)) with 4503599627370496.
            rewrite HM. unfold c. nia. }
          rewrite Hfe in Hdown.
          change (-56 - -109) with 53 in Hdown. lia. }
        destruct (shr_fexp prec emax M (-109) loc_Exact) as [mrs1 e1] eqn:Es1.
        cbn [fst snd] in *. subst e1. fold m2. fold m2 in Vq.
        assert (Hm2pos : 0 < m2).
        { assert (1 <= M / 2 ^ 53); [|lia].
          apply Z.div_le_lower_bound; [lia|]. change (2 ^ 105) with (2 ^ 53 * 2 ^ 52) in Hhigh.
          change (2 ^ 52) with 4503599627370496 in Hhigh. lia. }
        assert (Hd2 : Zdigits2 m2 <= 53) by (apply Zdigits2_le; [lia|lia|unfold c in Hm2; lia]).
        destruct (shr_fexp_spec m2 (-56) loc_Exact ltac:(lia)) as [He3 Hm3].
        assert (Hmax : Z.max (-56) (fexp prec emax (Zdigits2 m2 + -56)) = -56)
          by (rewrite fexp_eq; lia).
        rewrite Hmax in He3, Hm3. rewrite Z.sub_diag, Z.div_1_r in Hm3.
        destruct (shr_fexp prec emax m2 (-56) loc_Exact) as [mrs3 e3]. cbn [fst snd] in *.
        subst e3. rewrite Hm3 in *.
        destruct m2 as [|p2|p2]; try lia.
        change (-56 <=? emax - prec) with true in *. cbv iota in *.
        apply Hgoal; [unfold OFF; lia| |assumption].
        unfold val. apply Z.mul_lt_mono_pos_r; [apply p2_pos; unfold OFF; lia|lia].
Qed.

(** ** Numbers made from integers, quotients of magnitudes, and 1 *)

Lemma num_of_Z_pn (z : Z) : sf_pn (Prim2SF (num_of_Z z)).
Proof.
  unfold num_of_Z. rewrite of_uint63_spec.
  pose proof (Uint63.to_Z_bounded (of_Z z)) as [H _].
  destruct (to_Z (of_Z z)) as [|p|p]; [reflexivity| |lia].
  unfold binary_normalize. pose proof (binary_round_sign false p 0) as Hs.
  destruct (binary_round prec emax false p 0); simpl; auto.
Qed.

Lemma div_nn_pn (x y : float) :
  is_nan x = true \/ (0 <=? x)%float = true ->
  sf_pn (Prim2SF y) ->
  is_nan (x / y) = false -> (0 <=? x / y)%float = true.
Proof.
  intros Hx Hy Hq. rewrite zero_leb_spec. rewrite not_nan_spec in Hq.
  rewrite div_spec in *.
  destruct Hx as [Hx|Hx].
  { rewrite is_nan_spec in Hx. rewrite Hx in Hq. exfalso. apply Hq. reflexivity. }
  rewrite zero_leb_spec in Hx.
  destruct (Prim2SF y) as [sy|sy| |sy my ey] eqn:Ey; simpl in Hy; try contradiction; subst.
  - destruct (Prim2SF x) as [sx|sx| |sx mx ex]; simpl in Hx; try contradiction; subst;
      first [exfalso; apply Hq; reflexivity | reflexivity].
  - destruct (Prim2SF x) as [sx|sx| |sx mx ex]; simpl in Hx; try contradiction; subst;
      first [exfalso; apply Hq; reflexivity | exact I].
  - eapply SFdiv_nn; eauto.
Qed.

Lemma SFcompare_pos_eq (m m' : positive) (e e' : Z) :
  SFcompare (S754_finite false m e) (S754_finite false m' e') = Some Eq ->
  e = e' /\ m = m'.
Proof.
  cbn [SFcompare]. destruct (Z.compare_spec e e') as [He| |]; try discriminate.
  rewrite Pos.compare_cont_spec. unfold Pos.switch_Eq.
  destruct (Pos.compare_spec m m'); try discriminate. auto.
Qed.

Lemma eqb_one_eq (x : float) : (x =? 1)%float = true -> x = 1%float.
Proof.
  intros H. apply Prim2SF_inj. rewrite eqb_spec in H. rewrite Prim2SF_one in *.
  unfold SFeqb in H.
  destruct (Prim2SF x) as [s|s| |s m e].
  - destruct s; discriminate.
  - destruct s; discriminate.
  - discriminate.
  - destruct s; [discriminate|].
    destruct (SFcompare (S754_finite false m e) (S754_finite false 4503599627370496 (-52)))
      as [[]|] eqn:E; try discriminate.
    apply SFcompare_pos_eq in E. destruct E as [-> ->]. reflexivity.
Qed.

(* ================================================================== *)
(** ** Running the monad *)
(* ================================================================== *)

Section Laws.

Variable Math_exp : number -> number.
Variable Math_log : number -> number.
Variable RNG : Type.
Variable Math_random : RNG -> number * RNG.

Abbreviation World := (World RNG).
Abbreviation M := (M RNG).
Abbreviation predict := (predict Math_exp RNG).
Abbreviation train := (train Math_exp Math_log RNG Math_random).
Abbreviation evaluate := (evaluate Math_exp RNG Math_random).
Abbreviation getFeatureImportance := (getFeatureImportance RNG).
Abbreviation trainBinaryClassifier := (trainBinaryClassifier Math_exp Math_log RNG Math_random).
Abbreviation sigmoid := (sigmoid Math_exp).
Abbreviation predict_with := (predict_with Math_exp).
Abbreviation gd_update := (gd_update Math_exp).
Abbreviation draw_weights := (draw_weights RNG Math_random).
Abbreviation random_weights := (random_weights RNG Math_random).
Abbreviation epoch_step := (epoch_step Math_exp Math_log).
Abbreviation sample_step := (sample_step Math_exp Math_log).
Abbreviation draw_roc := (draw_roc RNG Math_random).
Abbreviation draws := (draws RNG Math_random).
Abbreviation run_call := (run_call Math_exp RNG Math_random).
Abbreviation run_calls := (run_calls Math_exp RNG Math_random).
Abbreviation fill_matrix := (fill_matrix RNG).
Abbreviation bump := (bump RNG).
Abbreviation eval_pairs := (eval_pairs Math_exp).
Abbreviation trainModel := (trainModel Math_exp Math_log RNG Math_random).

Lemma predict_run (input : PredictionInput) (w : World) :
  predict input w =
  Normal (predict_with (models (self w)) (featureMins (self w)) (featureMaxs (self w)) input) w.
Proof. reflexivity. Qed.

Lemma max_step_zero_zero : max_step 0 0 = 0%float.
Proof. reflexivity. Qed.

Lemma Math_max_all_zero {A} (x : A) (xs : list A) :
  Math_max (map (fun _ => 0%float) (x :: xs)) = 0%float.
Proof.
  unfold Math_max. simpl.
  change (max_step neg_infinity 0) with 0%float.
  induction xs as [|y ys IH]; simpl; [reflexivity|].
  rewrite max_step_zero_zero. exact IH.
Qed.

Lemma untrained_probabilities (f : LogisticRegressionModel -> number)
  (ms : list LogisticRegressionModel) :
  Forall (fun m => trained m = false) ms ->
  map (fun model => if negb (trained model) then 0%float else f model) ms
  = map (fun _ => 0%float) ms.
Proof.
  induction 1 as [|m ms Hm _ IH]; simpl; [reflexivity|].
  rewrite Hm, IH. reflexivity.
Qed.

(** C1 (amended): on a classifier none of whose models is trained,
    [predict] answers a probability 0 per model; with an empty model list
    -- the freshly constructed classifier -- the probability list is empty,
    [Math.max()] of nothing is -Infinity and [indexOf] finds nothing, so the
    prediction is -1 and the confidence -Infinity; only with at least one
    (untrained) model are the prediction 0 and the confidence 0.  The
    classifier is left as it was. *)
Theorem predict_untrained (input : PredictionInput) (w : World) :
  Forall (fun m => trained m = false) (models (self w)) ->
  predict input w =
  Normal {| prediction := match models (self w) with [] => -1 | _ :: _ => 0 end;
            probabilities := map (fun _ => 0%float) (models (self w));
            confidence := match models (self w) with
                          | [] => neg_infinity
                          | _ :: _ => 0%float
                          end |} w.
Proof.
  intros Hun. rewrite predict_run. unfold predict_with.
  rewrite (untrained_probabilities _ _ Hun).
  destruct (models (self w)) as [|m ms].
  - reflexivity.
  - rewrite Math_max_all_zero. reflexivity.
Qed.

(* ------------------------------------------------------------------ *)
(** *** Loops over arrays *)

Lemma mapi_from_length {A B} (f : A -> nat -> B) (xs : list A) (i : nat) :
  length (mapi_from f xs i) = length xs.
Proof.
  revert i. induction xs as [|x xs IH]; intros i; simpl; [reflexivity|].
  now rewrite IH.
Qed.

Lemma mapi_length {A B} (f : A -> nat -> B) (xs : list A) :
  length (mapi f xs) = length xs.
Proof. apply mapi_from_length. Qed.

Lemma mapi_from_ext {A B} (f g : A -> nat -> B) (xs : list A) (i : nat) :
  (forall x k, (i <= k < i + length xs)%nat -> f x k = g x k) ->
  mapi_from f xs i = mapi_from g xs i.
Proof.
  revert i. induction xs as [|x xs IH]; intros i H; simpl; [reflexivity|].
  rewrite H by (simpl; lia). f_equal. apply IH.
  intros y k Hk. apply H. simpl. lia.
Qed.

Lemma mapi_from_compose {A B C} (f : B -> nat -> C) (g : A -> nat -> B)
  (xs : list A) (i : nat) :
  mapi_from f (mapi_from g xs i) i = mapi_from (fun x k => f (g x k) k) xs i.
Proof.
  revert i. induction xs as [|x xs IH]; intros i; simpl; [reflexivity|].
  now rewrite IH.
Qed.

Lemma nth_mapi_from {A B} (f : A -> nat -> B) (xs : list A) (i j : nat) (da : A) (db : B) :
  (j < length xs)%nat ->
  nth j (mapi_from f xs i) db = f (nth j xs da) (i + j)%nat.
Proof.
  revert i j. induction xs as [|x xs IH]; intros i j Hj; simpl in *; [lia|].
  destruct j as [|j].
  - now rewrite Nat.add_0_r.
  - rewrite IH by lia. now rewrite Nat.add_succ_r.
Qed.

Lemma set_nth_app {A} (pre : list A) (a : A) (suf : list A) (v : A) :
  set_nth (pre ++ a :: suf) (length pre) v = pre ++ v :: suf.
Proof. induction pre as [|p pre IH]; simpl; [reflexivity|]. now rewrite IH. Qed.

Lemma get_app (pre : list number) (a : number) (suf : list number) :
  get (pre ++ a :: suf) (length pre) = a.
Proof. unfold get. now rewrite nth_middle. Qed.

(** A [for] loop that rewrites cell [j] from its old content is a [map]
    with index. *)
Lemma for_from_set_nth (F : number -> nat -> number) (suf pre : list number) :
  for_from (length pre) (length suf) (fun j g => set_nth g j (F (get g j) j)) (pre ++ suf)
  = pre ++ mapi_from F suf (length pre).
Proof.
  revert pre. induction suf as [|a suf IH]; intros pre; simpl; [reflexivity|].
  rewrite get_app, set_nth_app.
  change (pre ++ F a (length pre) :: suf) with (pre ++ [F a (length pre)] ++ suf).
  rewrite app_assoc.
  replace (S (length pre)) with (length (pre ++ [F a (length pre)]))
    by (rewrite length_app; simpl; lia).
  rewrite IH. now rewrite <- app_assoc.
Qed.

Lemma for_upto_set_nth (F : number -> nat -> number) (g : list number) :
  for_upto (length g) (fun j g => set_nth g j (F (get g j) j)) g = mapi F g.
Proof. exact (for_from_set_nth F g []). Qed.

Lemma for_from_iter {S} (f : S -> S) (P : S -> Prop) (body : nat -> S -> S) :
  (forall s, P s -> P (f s)) ->
  (forall i s, P s -> body i s = f s) ->
  forall n lo s, P s -> for_from lo n body s = Nat.iter n f s.
Proof.
  intros Hf Hb. induction n as [|n IH]; intros lo s Hs; [reflexivity|].
  simpl for_from. rewrite Nat.iter_succ_r.
  rewrite Hb by assumption. apply IH. now apply Hf.
Qed.

(* ------------------------------------------------------------------ *)
(** *** One epoch *)

Lemma forward_affine_from (ws : list number) (x : list number) :
  forall (k : nat) (acc : number),
    (k + length x <= length ws)%nat ->
    reducei_from (fun sum xi j => (sum + xi * get ws j)%float) x k acc
    = fold_left (fun s p => (s + fst p * snd p)%float) (combine x (skipn k ws)) acc.
Proof.
  induction x as [|xi x IH]; intros k acc Hk; simpl; [reflexivity|].
  simpl in Hk.
  destruct (skipn k ws) as [|wk rest] eqn:Hskip.
  - exfalso. assert (length (skipn k ws) = 0%nat) by now rewrite Hskip.
    rewrite length_skipn in H. lia.
  - simpl. rewrite IH by lia.
    assert (Hget : get ws k = wk).
    { unfold get. rewrite <- (firstn_skipn k ws) at 1. rewrite Hskip.
      assert (Hl : length (firstn k ws) = k) by (rewrite length_firstn; lia).
      rewrite <- Hl at 1. now rewrite nth_middle. }
    assert (Hrest : skipn (S k) ws = rest).
    { replace (S k) with (1 + k)%nat by lia. rewrite <- skipn_skipn, Hskip. reflexivity. }
    now rewrite Hget, Hrest.
Qed.

Lemma forward_affine (ws : list number) (b : number) (x : list number) :
  (length x <= length ws)%nat -> forward ws b x = affine ws b x.
Proof. intros H. unfold forward, reducei, affine. now rewrite forward_affine_from. Qed.

Lemma sample_step_gradients (d : nat) (ws : list number) (b : number)
  (acc : EpochAcc) (x : list number) (y : number) :
  length (weightGradients acc) = d ->
  weightGradients (sample_step d ws b acc x y)
  = mapi (fun gj j => (gj + (sigmoid (forward ws b x) - y) * get x j)%float)
         (weightGradients acc).
Proof.
  intros Hd. unfold sample_step. cbn [weightGradients]. subst d.
  exact (for_upto_set_nth (fun gj j => (gj + (sigmoid (forward ws b x) - y) * get x j)%float)
                          (weightGradients acc)).
Qed.

(** The pass over the samples adds, cell by cell, the products
    [error_i * x_i_j], and adds the errors. *)
Lemma samples_pass (d : nat) (ws : list number) (b : number) (ys : list number)
  (X : list (list number)) :
  (forall x, In x X -> (length x <= length ws)%nat) ->
  forall (k : nat) (acc : EpochAcc),
    length (weightGradients acc) = d ->
    let errors := mapi_from (fun x i => (sigmoid (affine ws b x) - get ys i)%float) X k in
    let acc' := reducei_from (fun acc x i => sample_step d ws b acc x (get ys i)) X k acc in
    weightGradients acc'
    = mapi (fun gj j =>
              fold_left (fun s ex => (s + fst ex * get (snd ex) j)%float)
                        (combine errors X) gj)
           (weightGradients acc)
    /\ biasGradient acc' = fold_left add errors (biasGradient acc).
Proof.
  induction X as [|x X IH]; intros Hlen k acc Hd; simpl.
  - split; [|reflexivity].
    unfold mapi. clear. generalize 0%nat.
    induction (weightGradients acc) as [|g gs IHg]; intros n; simpl; [reflexivity|].
    now rewrite <- IHg.
  - assert (Hx : (length x <= length ws)%nat) by (apply Hlen; now left).
    assert (HX : forall x', In x' X -> (length x' <= length ws)%nat)
      by (intros; apply Hlen; now right).
    pose proof (sample_step_gradients d ws b acc x (get ys k) Hd) as Hg.
    assert (Hd' : length (weightGradients (sample_step d ws b acc x (get ys k))) = d)
      by (rewrite Hg, mapi_length; exact Hd).
    destruct (IH HX (S k) _ Hd') as [IHg IHb].
    split.
    + rewrite IHg, Hg. unfold mapi. rewrite mapi_from_compose.
      apply mapi_from_ext. intros gj j _. cbn [fst snd].
      now rewrite forward_affine.
    + rewrite IHb. unfold sample_step. cbn [biasGradient].
      now rewrite forward_affine.
Qed.

Lemma fold_left_add_map {A} (h : A -> number) (l : list A) (a : number) :
  fold_left add (map h l) a = fold_left (fun s e => (s + h e)%float) l a.
Proof. revert a. induction l as [|e l IH]; intros a; simpl; [reflexivity|]. apply IH. Qed.

(** One epoch of the source is one step of gradient descent as the
    specification writes it. *)
Lemma epoch_step_gd_update (X : list (list number)) (ys : list number)
  (epoch : nat) (ws : list number) (b : number) :
  (forall x, In x X -> length x = length ws) ->
  epoch_step X ys (length ws) epoch (ws, b) = gd_update X ys (ws, b).
Proof.
  intros Hrows. unfold epoch_step, gd_update, reducei.
  set (acc0 := {| totalLoss := 0; weightGradients := repeat 0%float (length ws);
                  biasGradient := 0 |}).
  assert (Hle : forall x, In x X -> (length x <= length ws)%nat)
    by (intros x Hx; rewrite (Hrows x Hx); lia).
  assert (Hd0 : length (weightGradients acc0) = length ws)
    by (unfold acc0; cbn [weightGradients]; apply repeat_length).
  destruct (samples_pass (length ws) ws b ys X Hle 0 acc0 Hd0) as [Hg Hb].
  fold (mapi (fun x i => (sigmoid (affine ws b x) - get ys i)%float) X) in Hg, Hb.
  set (errors := mapi (fun x i => (sigmoid (affine ws b x) - get ys i)%float) X) in *.
  f_equal.
  - assert (Hupd : forall (G : list number) (n : number),
               for_upto (length ws)
                 (fun j w => set_nth w j
                    (get w j - learningRate * (get G j / n + lambda * get w j))%float) ws
               = mapi (fun wj j => (wj - learningRate * (get G j / n + lambda * wj))%float) ws).
    { intros G n.
      exact (for_upto_set_nth
               (fun wj j => (wj - learningRate * (get G j / n + lambda * wj))%float) ws). }
    rewrite Hupd. clear Hupd.
    unfold mapi. apply mapi_from_ext.
    intros wj j Hj. simpl in Hj.
    rewrite Hg. unfold get at 1, mapi.
    rewrite (nth_mapi_from _ _ 0 j nan nan)
      by (unfold acc0; cbn [weightGradients]; rewrite repeat_length; lia).
    unfold acc0 at 1. cbn [weightGradients].
    rewrite nth_repeat_lt by lia.
    unfold mean. rewrite fold_left_add_map, length_map, length_combine.
    replace (length errors) with (length X) by (symmetry; apply mapi_length).
    rewrite Nat.min_id. reflexivity.
  - rewrite Hb. unfold mean, acc0. cbn [biasGradient].
    replace (length errors) with (length X) by (symmetry; apply mapi_length).
    reflexivity.
Qed.

Lemma gd_update_length (X : list (list number)) (ys : list number)
  (wb : list number * number) :
  length (fst (gd_update X ys wb)) = length (fst wb).
Proof. destruct wb as [ws b]. unfold gd_update. cbn [fst]. apply mapi_length. Qed.

Lemma iter_gd_update_length (X : list (list number)) (ys : list number) (n : nat)
  (wb : list number * number) :
  length (fst (Nat.iter n (gd_update X ys) wb)) = length (fst wb).
Proof.
  induction n as [|n IH]; [reflexivity|].
  simpl. now rewrite gd_update_length.
Qed.

(* ------------------------------------------------------------------ *)
(** *** [trainBinaryClassifier] *)

Lemma random_weights_run (n : nat) (w : World) :
  random_weights n w
  = Normal (fst (draw_weights n (rng w)))
           {| self := self w; rng := snd (draw_weights n (rng w)) |}.
Proof.
  revert w. induction n as [|n IH]; intros w.
  - destruct w; reflexivity.
  - simpl. unfold bind, random at 1.
    destruct (Math_random (rng w)) as [r g1] eqn:Hr.
    rewrite IH. cbn [self rng].
    destruct (draw_weights n g1) as [rest g2]. reflexivity.
Qed.

Lemma draw_weights_length (n : nat) (g : RNG) :
  length (fst (draw_weights n g)) = n.
Proof.
  revert g. induction n as [|n IH]; intros g; simpl; [reflexivity|].
  destruct (Math_random g) as [r g1]. specialize (IH g1).
  destruct (draw_weights n g1) as [rest g2]. simpl in *. now rewrite IH.
Qed.

(** What [trainBinaryClassifier] returns on a matrix with a first row:
    1000 steps of gradient descent from the drawn weights and bias 0. *)
Lemma trainBinaryClassifier_run (row0 : list number) (rest : list (list number))
  (labels : list Z) (targetClass : Z) (w : World) :
  (forall x, In x (row0 :: rest) -> length x = length row0) ->
  let X := row0 :: rest in
  let ys := map (fun label => if label =? targetClass then 1%float else 0%float) labels in
  let ws0 := fst (draw_weights (length row0) (rng w)) in
  let wb := Nat.iter 1000 (gd_update X ys) (ws0, 0%float) in
  trainBinaryClassifier X labels targetClass w
  = Normal {| weights := fst wb; bias := snd wb; trained := true |}
           {| self := self w; rng := snd (draw_weights (length row0) (rng w)) |}.
Proof.
  intros Hrows X ys ws0 wb.
  unfold X at 1, trainBinaryClassifier. cbv beta iota. fold X ys. unfold bind.
  rewrite random_weights_run. fold ws0.
  assert (Hloop : for_upto epochs (epoch_step X ys (length row0)) (ws0, 0%float) = wb).
  { unfold for_upto, wb, epochs.
    apply (for_from_iter (gd_update X ys)
             (fun s => length (fst s) = length row0)).
    - intros s Hs. now rewrite gd_update_length.
    - intros i [ws b] Hs. cbn [fst] in Hs. rewrite <- Hs.
      apply epoch_step_gd_update. intros x Hx. rewrite Hs. now apply Hrows.
    - cbn [fst]. apply draw_weights_length. }
  rewrite Hloop. destruct wb as [ws b]. reflexivity.
Qed.

(** C3: on a matrix whose rows all have the length of its first row,
    [trainBinaryClassifier] returns, as a model with [trained = true],
    exactly the 1000-fold iterate (no early exit) of the update
    [w_j := w_j - 0.01 * (mean_i ((sigmoid (w.x_i + b) - y_i) * x_i_j) + 0.01 * w_j)],
    [b := b - 0.01 * mean_i (sigmoid (w.x_i + b) - y_i)] -- the L2 term on
    the weights only -- started from the drawn weights and bias 0, with
    [y_i = 1] where the label is the target class and [0] elsewhere. *)
Theorem trainBinaryClassifier_gradient_descent
  (features : list (list number)) (labels : list Z) (targetClass : Z) (w : World) :
  features <> [] ->
  (forall x, In x features -> length x = length (hd [] features)) ->
  let ys := map (fun label => if label =? targetClass then 1%float else 0%float) labels in
  let ws0 := fst (draw_weights (length (hd [] features)) (rng w)) in
  let step := fun wb : list number * number =>
    let (ws, b) := wb in
    let errors := mapi (fun x i => (sigmoid (affine ws b x) - get ys i)%float) features in
    (mapi (fun wj j =>
             (wj - 0.01 * (mean (map (fun ex => fst ex * get (snd ex) j)
                                     (combine errors features))
                           + 0.01 * wj))%float) ws,
     (b - 0.01 * mean errors)%float) in
  exists w',
    trainBinaryClassifier features labels targetClass w
    = Normal {| weights := fst (Nat.iter 1000 step (ws0, 0%float));
                bias := snd (Nat.iter 1000 step (ws0, 0%float));
                trained := true |} w'
    /\ self w' = self w.
Proof.
  intros Hne Hrows ys ws0 step.
  destruct features as [|row0 rest]; [congruence|].
  cbn [hd] in *.
  eexists. split.
  - exact (trainBinaryClassifier_run row0 rest labels targetClass w Hrows).
  - reflexivity.
Qed.

(* ------------------------------------------------------------------ *)
(** *** [evaluate], step by step *)

Lemma combine_fst_snd {A B} (l : list (A * B)) :
  combine (map fst l) (map snd l) = l.
Proof. induction l as [|[a b] l IH]; simpl; [reflexivity|]. now rewrite IH. Qed.

Lemma mapM_predict (testData : list AirQualityData) (w : World) :
  mapM RNG (fun data =>
          bind RNG (predict (to_input data))
               (fun result => ret RNG (value (smogLevel data), prediction result)))
       testData w
  = Normal (eval_pairs (self w) testData) w.
Proof.
  induction testData as [|d ds IH]; [reflexivity|].
  simpl. unfold bind at 1 2. rewrite predict_run. unfold ret at 1.
  unfold bind at 1. rewrite IH. reflexivity.
Qed.

Lemma bump_run (m : list (list Z)) (a p : Z) (w : World) :
  bump m a p w = match bump_pure m a p with
                 | Filled_ok m' => Normal m' w
                 | Filled_throw => Throw TypeError w
                 | Filled_offgrid => OffGrid w
                 end.
Proof.
  unfold bump, bump_pure.
  destruct ((a <? 0) || (Z.of_nat (length m) <=? a)); [reflexivity|].
  destruct (p <? 0); [reflexivity|].
  destruct (Z.of_nat (length (nth (Z.to_nat a) m [])) <=? p); reflexivity.
Qed.

Lemma fill_matrix_run (pairs : list (Z * Z)) (m : list (list Z)) (w : World) :
  fill_matrix m pairs w = match fill_pure m pairs with
                          | Filled_ok m' => Normal m' w
                          | Filled_throw => Throw TypeError w
                          | Filled_offgrid => OffGrid w
                          end.
Proof.
  revert m. induction pairs as [|[a p] rest IH]; intros m; [reflexivity|].
  simpl. unfold bind. rewrite bump_run.
  destruct (bump_pure m a p); try reflexivity. apply IH.
Qed.

Lemma array_from_roc_run (n lo : nat) (w : World) :
  array_from RNG lo n (roc_point RNG Math_random) w
  = Normal (fst (draw_roc lo n (rng w)))
           {| self := self w; rng := snd (draw_roc lo n (rng w)) |}.
Proof.
  revert lo w. induction n as [|n IH]; intros lo w.
  - destruct w; reflexivity.
  - simpl. unfold bind at 1, roc_point at 1, bind at 1, random at 1.
    destruct (Math_random (rng w)) as [r g1] eqn:Hr.
    unfold ret at 1. unfold bind at 1. rewrite IH. cbn [self rng].
    destruct (draw_roc (S lo) n g1) as [rest g2]. reflexivity.
Qed.

Lemma evaluate_run (testData : list AirQualityData) (w : World) :
  let pairs := eval_pairs (self w) testData in
  evaluate testData w
  = match fill_pure zero_matrix pairs with
    | Filled_ok cm =>
        Normal (metrics_of cm pairs (fst (draw_roc 0 11 (rng w))))
               {| self := self w; rng := snd (draw_roc 0 11 (rng w)) |}
    | Filled_throw => Throw TypeError w
    | Filled_offgrid => OffGrid w
    end.
Proof.
  intros pairs. unfold evaluate. unfold bind at 1.
  rewrite mapM_predict. fold pairs.
  rewrite combine_fst_snd. unfold bind at 1. rewrite fill_matrix_run.
  destruct (fill_pure zero_matrix pairs) as [cm| |]; try reflexivity.
  unfold metrics_of. rewrite length_map.
  destruct (for_upto numClasses _ _) as [[tP tR] tF].
  unfold bind. rewrite array_from_roc_run. reflexivity.
Qed.

(* ------------------------------------------------------------------ *)
(** *** [train], step by step *)

Lemma extractFeatures_cons (d : AirQualityData) (ds : list AirQualityData) :
  exists mins maxs,
    extractFeatures (d :: ds)
    = inr (map feature_row (d :: ds), map (fun d => value (smogLevel d)) (d :: ds), mins, maxs)
    /\ length mins = 6%nat /\ length maxs = 6%nat.
Proof.
  unfold extractFeatures. cbn [map]. eexists; eexists. split; [reflexivity|].
  split; apply mapi_length.
Qed.

Lemma normalizeFeatures_rows (data : list AirQualityData) (mins maxs : list number) :
  forall x, In x (normalizeFeatures (map feature_row data) mins maxs) -> length x = 6%nat.
Proof.
  intros x Hx. unfold normalizeFeatures in Hx. rewrite map_map in Hx.
  apply in_map_iff in Hx. destruct Hx as [d [Hd _]]. subst x.
  now rewrite mapi_length.
Qed.

(** The loop over the class labels appends one trained model per label
    and touches neither bound. *)
Lemma train_loop (row0 : list number) (rest : list (list number)) (labels : list Z) :
  (forall x, In x (row0 :: rest) -> length x = length row0) ->
  forall (n lo : nat) (w : World),
  exists ms g',
    forM_from RNG lo n
      (fun classLabel =>
         bind RNG (trainBinaryClassifier (row0 :: rest) labels (Z.of_nat classLabel))
           (fun model =>
              assign RNG (fun c => {| models := models c ++ [model];
                                      featureMins := featureMins c;
                                      featureMaxs := featureMaxs c |}))) w
    = Normal tt {| self := {| models := models (self w) ++ ms;
                              featureMins := featureMins (self w);
                              featureMaxs := featureMaxs (self w) |};
                   rng := g' |}
    /\ length ms = n
    /\ Forall (fun m => trained m = true /\ length (weights m) = length row0) ms.
Proof.
  intros Hrows. induction n as [|n IH]; intros lo w.
  - exists [], (rng w). rewrite app_nil_r. destruct w as [[ms mins maxs] g].
    repeat split. constructor.
  - cbn [forM_from]. unfold bind at 1, bind at 1.
    rewrite (trainBinaryClassifier_run row0 rest labels (Z.of_nat lo) w Hrows).
    set (m := {| weights := _; bias := _; trained := true |}).
    unfold assign at 1. cbn [self rng].
    specialize (IH (S lo)
      {| self := {| models := models (self w) ++ [m];
                    featureMins := featureMins (self w);
                    featureMaxs := featureMaxs (self w) |};
         rng := snd (draw_weights (length row0) (rng w)) |}).
    destruct IH as [ms [g' [Hrun [Hlen Hall]]]].
    exists (m :: ms), g'. cbn [self models featureMins featureMaxs] in Hrun.
    rewrite Hrun. rewrite <- app_assoc. cbn [app].
    repeat split.
    + simpl. now rewrite Hlen.
    + constructor; [|exact Hall]. unfold m. cbn [trained weights]. split; [reflexivity|].
      rewrite iter_gd_update_length. cbn [fst]. apply draw_weights_length.
Qed.

(** [train] on at least one record: the bounds of [extractFeatures] are
    stored, and six trained models with six weights each replace the
    model list. *)
Lemma train_run (d : AirQualityData) (ds : list AirQualityData) (w : World) :
  exists features labels mins maxs ms g',
    extractFeatures (d :: ds) = inr (features, labels, mins, maxs)
    /\ train (d :: ds) w
       = Normal tt {| self := {| models := ms; featureMins := mins; featureMaxs := maxs |};
                      rng := g' |}
    /\ length ms = 6%nat
    /\ Forall (fun m => trained m = true /\ length (weights m) = 6%nat) ms.
Proof.
  destruct (extractFeatures_cons d ds) as [mins [maxs [Hex [Hmins Hmaxs]]]].
  unfold train. rewrite Hex.
  pose proof (normalizeFeatures_rows (d :: ds) mins maxs) as Hrows.
  destruct (normalizeFeatures (map feature_row (d :: ds)) mins maxs)
    as [|row0 rest] eqn:Hnorm.
  { unfold normalizeFeatures in Hnorm. simpl in Hnorm. discriminate. }
  assert (H6 : length row0 = 6%nat) by (apply Hrows; now left).
  assert (Huni : forall x, In x (row0 :: rest) -> length x = length row0)
    by (intros x Hx; rewrite H6; now apply Hrows).
  unfold bind at 1, assign at 1. unfold bind at 1, assign at 1.
  unfold bind at 1, assign at 1. cbn [self rng models featureMins featureMaxs].
  destruct (train_loop row0 rest (map (fun d => value (smogLevel d)) (d :: ds)) Huni
              numClasses 0
              {| self := {| models := []; featureMins := mins; featureMaxs := maxs |};
                 rng := rng w |}) as [ms [g' [Hrun [Hlen Hall]]]].
  cbn [self models featureMins featureMaxs app] in Hrun.
  exists (map feature_row (d :: ds)), (map (fun d => value (smogLevel d)) (d :: ds)),
         mins, maxs, ms, g'.
  split; [reflexivity|]. split; [exact Hrun|]. split; [exact Hlen|].
  rewrite H6 in Hall. exact Hall.
Qed.

(** C2 (amended): [train] on an empty record list throws a [TypeError]
    -- [extractFeatures] reads [features[0].map] where [features[0]] is
    [undefined] -- before any minimum or maximum is computed; no bound is
    stored and the classifier is left as it was. *)
Theorem train_empty_throws (w : World) :
  train [] w = Throw TypeError w.
Proof. reflexivity. Qed.

(** C10: a [train] call on a non-empty record list completes, and leaves
    exactly six models, each with [trained = true] and six weights; so on
    the classifier it leaves, every probability [predict] computes is the
    sigmoid of a model's score: none comes from the untrained default. *)
Theorem train_builds_six_trained_models (data : list AirQualityData) (w : World) :
  data <> [] ->
  exists w',
    train data w = Normal tt w'
    /\ length (models (self w')) = 6%nat
    /\ Forall (fun m => trained m = true /\ length (weights m) = 6%nat) (models (self w'))
    /\ forall input, exists r,
         predict input w' = Normal r w'
         /\ probabilities r
            = map (fun model =>
                     sigmoid (forward (weights model) (bias model)
                                (mapi (fun value i =>
                                         ((value - get (featureMins (self w')) i)
                                          / (get (featureMaxs (self w')) i
                                             - get (featureMins (self w')) i))%float)
                                      (input_row input))))
                  (models (self w')).
Proof.
  intros Hne. destruct data as [|d ds]; [congruence|].
  destruct (train_run d ds w) as [fs [ls [mins [maxs [ms [g' [_ [Hrun [Hlen Hall]]]]]]]]].
  eexists. split; [exact Hrun|]. cbn [self models featureMins featureMaxs].
  split; [exact Hlen|]. split; [exact Hall|].
  intros input. eexists. split; [apply predict_run|].
  unfold predict_with. cbn [probabilities self models featureMins featureMaxs].
  apply map_ext_in. intros m Hm.
  rewrite Forall_forall in Hall. destruct (Hall m Hm) as [Ht _].
  now rewrite Ht.
Qed.

(* ------------------------------------------------------------------ *)
(** *** What the calls leave of the classifier *)

Lemma evaluate_self (testData : list AirQualityData) (w : World) :
  self (world_of (evaluate testData w)) = self w.
Proof.
  rewrite evaluate_run.
  destruct (fill_pure zero_matrix _); reflexivity.
Qed.

Lemma run_call_self (c : Call) (w : World) : self (run_call c w) = self w.
Proof.
  destruct c as [input|testData|]; unfold run_call.
  - now rewrite predict_run.
  - apply evaluate_self.
  - reflexivity.
Qed.

Lemma run_calls_self (cs : list Call) (w : World) : self (run_calls cs w) = self w.
Proof.
  revert w. induction cs as [|c cs IH]; intros w; [reflexivity|].
  unfold run_calls in *. simpl. rewrite IH. apply run_call_self.
Qed.

(** C9: the bounds [train] stores are those [extractFeatures] computed
    from its records; no sequence of [predict], [evaluate] and
    [getFeatureImportance] calls changes the models or the bounds; and
    after any such sequence [predict] still normalises its input with
    exactly those bounds and leaves the whole state, the random source
    included, as it found it. *)
Theorem normalization_bounds_frozen
  (data : list AirQualityData) (w w1 : World) (calls : list Call)
  (input : PredictionInput) (testData : list AirQualityData) :
  train data w = Normal tt w1 ->
  exists features labels mins maxs,
    extractFeatures data = inr (features, labels, mins, maxs)
    /\ featureMins (self w1) = mins
    /\ featureMaxs (self w1) = maxs
    /\ self (run_calls calls w1) = self w1
    /\ predict input (run_calls calls w1)
       = Normal (predict_with (models (self w1)) mins maxs input) (run_calls calls w1)
    /\ self (world_of (evaluate testData (run_calls calls w1))) = self w1.
Proof.
  intros Htrain. destruct data as [|d ds].
  { discriminate Htrain. }
  destruct (train_run d ds w) as [fs [ls [mins [maxs [ms [g' [Hex [Hrun _]]]]]]]].
  rewrite Hrun in Htrain. inversion Htrain; subst w1; clear Htrain.
  exists fs, ls, mins, maxs. cbn [self featureMins featureMaxs models].
  split; [exact Hex|]. split; [reflexivity|]. split; [reflexivity|].
  split; [apply run_calls_self|].
  split.
  - rewrite predict_run, run_calls_self. reflexivity.
  - rewrite evaluate_self. apply run_calls_self.
Qed.

(* ------------------------------------------------------------------ *)
(** *** [Math.max] and [indexOf] *)

Lemma neg_infinity_leb (x : number) : is_nan x = false -> (neg_infinity <=? x)%float = true.
Proof.
  intros Hx. apply leb_key; [reflexivity|exact Hx|].
  apply not_nan_spec in Hx. unfold fkey.
  change (Prim2SF neg_infinity) with (S754_infinity true).
  destruct (Prim2SF x) as [s|[]| |[] m e]; try congruence; discriminate.
Qed.

Lemma leb_neg_infinity (x : number) : (x <=? neg_infinity)%float = true -> x = neg_infinity.
Proof.
  rewrite leb_spec. change (Prim2SF neg_infinity) with (S754_infinity true).
  intros H. apply Prim2SF_inj. change (Prim2SF neg_infinity) with (S754_infinity true).
  destruct (Prim2SF x) as [s|[]| |[] m e]; try discriminate; reflexivity.
Qed.

Lemma leb_neq_ltb (x y : number) :
  (x <=? y)%float = true -> (x =? y)%float = false -> (x <? y)%float = true.
Proof.
  intros Hle Hne. destruct (leb_not_nan _ _ Hle) as [Hx Hy].
  apply leb_key in Hle; auto. apply ltb_key; auto.
  destruct (lex3 (fkey x) (fkey y)) eqn:E; try congruence.
  apply eqb_key in E; auto. congruence.
Qed.

Lemma is_zero_leb (h x : number) :
  is_zero h = true -> is_zero x = true -> (h <=? x)%float = true.
Proof.
  unfold is_zero. intros Hh Hx.
  apply leb_trans with zero; [now apply eqb_leb|].
  apply eqb_leb. now rewrite eqb_sym.
Qed.

Lemma max_step_spec (h x : number) :
  is_nan h = false -> is_nan x = false ->
  (max_step h x = h \/ max_step h x = x)
  /\ (h <=? max_step h x)%float = true /\ (x <=? max_step h x)%float = true.
Proof.
  intros Hh Hx. unfold max_step. rewrite Hh, Hx. cbn [orb].
  destruct (is_zero x && is_zero h && get_sign h && negb (get_sign x)) eqn:Ez.
  - rewrite !andb_true_iff in Ez. destruct Ez as [[[Zx Zh] _] _].
    split; [now right|]. split; [now apply is_zero_leb|now apply leb_refl].
  - destruct (h <? x)%float eqn:El.
    + split; [now right|]. split; [now apply ltb_leb|now apply leb_refl].
    + split; [now left|]. split; [now apply leb_refl|now apply not_ltb_leb].
Qed.

Lemma max_step_not_nan (h x : number) :
  is_nan (max_step h x) = false -> is_nan h = false /\ is_nan x = false.
Proof.
  unfold max_step. destruct (is_nan h) eqn:Hh; [discriminate|].
  destruct (is_nan x) eqn:Hx; [discriminate|]. auto.
Qed.

Lemma fold_max_not_nan (l : list number) (acc : number) :
  is_nan (fold_left max_step l acc) = false ->
  is_nan acc = false /\ Forall (fun x => is_nan x = false) l.
Proof.
  revert acc. induction l as [|x l IH]; intros acc H; simpl in H.
  - split; [exact H|constructor].
  - destruct (IH _ H) as [Hs Hl]. destruct (max_step_not_nan _ _ Hs) as [Ha Hx].
    split; [exact Ha|]. constructor; assumption.
Qed.

Lemma fold_max_spec (l : list number) (acc : number) :
  is_nan acc = false -> Forall (fun x => is_nan x = false) l ->
  is_nan (fold_left max_step l acc) = false
  /\ (acc <=? fold_left max_step l acc)%float = true
  /\ (forall x, In x l -> (x <=? fold_left max_step l acc)%float = true)
  /\ (fold_left max_step l acc = acc \/ In (fold_left max_step l acc) l).
Proof.
  revert acc. induction l as [|x l IH]; intros acc Ha Hl; simpl.
  - split; [exact Ha|]. split; [now apply leb_refl|]. split; [intros y []|now left].
  - inversion Hl as [|? ? Hx Hl']; subst.
    destruct (max_step_spec acc x Ha Hx) as [Hin [Hle1 Hle2]].
    assert (Hs : is_nan (max_step acc x) = false) by (destruct Hin as [->| ->]; assumption).
    destruct (IH (max_step acc x) Hs Hl') as [Hr [Hle [Hall Hin']]].
    split; [exact Hr|]. split; [eapply leb_trans; eassumption|]. split.
    + intros y [<-|Hy]; [eapply leb_trans; eassumption|now apply Hall].
    + destruct Hin' as [E|Hin']; [|now right; right].
      rewrite E. destruct Hin as [E'|E']; rewrite E'; [now left|now right; left].
Qed.

(** [Math.max] of numbers, none NaN: an upper bound that one of them
    equals. *)
Lemma Math_max_spec (l : list number) :
  l <> [] -> Forall (fun x => is_nan x = false) l ->
  is_nan (Math_max l) = false
  /\ (forall x, In x l -> (x <=? Math_max l)%float = true)
  /\ (exists x, In x l /\ (x =? Math_max l)%float = true).
Proof.
  intros Hne Hl. unfold Math_max.
  destruct (fold_max_spec l neg_infinity eq_refl Hl) as [Hr [_ [Hall Hin]]].
  split; [exact Hr|]. split; [exact Hall|].
  destruct Hin as [E|Hin].
  - destruct l as [|x l]; [congruence|]. exists x. split; [now left|].
    assert (Hx : (x <=? neg_infinity)%float = true) by (rewrite <- E; apply Hall; now left).
    apply leb_neg_infinity in Hx. rewrite E, Hx. reflexivity.
  - exists (fold_left max_step l neg_infinity). split; [exact Hin|now apply eqb_refl].
Qed.

Lemma indexOf_from_spec (l : list number) (v : number) (i0 : Z) :
  (exists x, In x l /\ (x =? v)%float = true) ->
  exists j : nat,
    indexOf_from l v i0 = i0 + Z.of_nat j /\ (j < length l)%nat
    /\ (get l j =? v)%float = true
    /\ forall j', (j' < j)%nat -> (get l j' =? v)%float = false.
Proof.
  revert i0. induction l as [|y l IH]; intros i0 [x [Hin Hx]]; [destruct Hin|].
  simpl. destruct (y =? v)%float eqn:Ey.
  - exists 0%nat. split; [lia|]. split; [simpl; lia|]. split; [exact Ey|]. intros; lia.
  - assert (Hex : exists x, In x l /\ (x =? v)%float = true).
    { destruct Hin as [->|Hin]; [congruence|eauto]. }
    destruct (IH (i0 + 1) Hex) as [j [Hj [Hlt [Heq Hbefore]]]].
    exists (S j). split; [lia|]. split; [simpl; lia|]. split; [exact Heq|].
    intros [|j'] Hj'; [exact Ey|]. apply Hbefore. lia.
Qed.

Lemma indexOf_from_range (l : list number) (v : number) (i0 : Z) :
  indexOf_from l v i0 = -1 \/ i0 <= indexOf_from l v i0 < i0 + Z.of_nat (length l).
Proof.
  revert i0. induction l as [|y l IH]; intros i0; simpl; [now left|].
  destruct (y =? v)%float; [right; lia|].
  destruct (IH (i0 + 1)) as [H|H]; [now left|right; lia].
Qed.

Lemma indexOf_range (l : list number) (v : number) :
  -1 <= indexOf l v < Z.of_nat (length l).
Proof. unfold indexOf. destruct (indexOf_from_range l v 0); lia. Qed.

(** C7: when no class probability is NaN, [predict] returns as confidence
    the largest probability and as prediction the first index holding it:
    every probability is at most the confidence, the one at the predicted
    index equals it, every one before is smaller.  On the tie
    [0.3, 0.3, 0.1, 0.1, 0.1, 0.1] the index is 0. *)
Theorem predict_argmax (input : PredictionInput) (w : World) :
  let r := predict_with (models (self w)) (featureMins (self w)) (featureMaxs (self w))
                        input in
  models (self w) <> [] ->
  Forall (fun p => is_nan p = false) (probabilities r) ->
  predict input w = Normal r w
  /\ confidence r = Math_max (probabilities r)
  /\ (forall p, In p (probabilities r) -> (p <=? confidence r)%float = true)
  /\ (exists i : nat,
        prediction r = Z.of_nat i /\ (i < length (probabilities r))%nat
        /\ (get (probabilities r) i =? confidence r)%float = true
        /\ forall j, (j < i)%nat -> (get (probabilities r) j <? confidence r)%float = true)
  /\ indexOf [0.3; 0.3; 0.1; 0.1; 0.1; 0.1]%float
             (Math_max [0.3; 0.3; 0.1; 0.1; 0.1; 0.1]%float) = 0.
Proof.
  intros r Hms Hnan.
  split; [apply predict_run|]. split; [reflexivity|].
  assert (Hne : probabilities r <> []).
  { unfold r, predict_with. cbn [probabilities].
    destruct (models (self w)); [congruence|discriminate]. }
  destruct (Math_max_spec (probabilities r) Hne Hnan) as [Hm [Hall Hex]].
  change (confidence r) with (Math_max (probabilities r)).
  split; [exact Hall|]. split; [|reflexivity].
  destruct (indexOf_from_spec (probabilities r) (Math_max (probabilities r)) 0 Hex)
    as [i [Hi [Hlt [Heq Hbefore]]]].
  exists i. change (prediction r) with (indexOf (probabilities r) (Math_max (probabilities r))).
  split; [exact Hi|]. split; [exact Hlt|]. split; [exact Heq|].
  intros j Hj. apply leb_neq_ltb; [|now apply Hbefore].
  apply Hall. apply nth_In. lia.
Qed.

(* ------------------------------------------------------------------ *)
(** *** The confusion matrix *)

Ltac destruct_row r H :=
  destruct r as [|? [|? [|? [|? [|? [|? [|? ?]]]]]]]; try discriminate H; clear H.

Lemma grid_inv (m : list (list Z)) :
  grid m ->
  exists a00 a01 a02 a03 a04 a05 a10 a11 a12 a13 a14 a15
         a20 a21 a22 a23 a24 a25 a30 a31 a32 a33 a34 a35
         a40 a41 a42 a43 a44 a45 a50 a51 a52 a53 a54 a55,
    m = [[a00; a01; a02; a03; a04; a05]; [a10; a11; a12; a13; a14; a15];
         [a20; a21; a22; a23; a24; a25]; [a30; a31; a32; a33; a34; a35];
         [a40; a41; a42; a43; a44; a45]; [a50; a51; a52; a53; a54; a55]].
Proof.
  intros [Hlen Hrows]. unfold numClasses in *.
  destruct m as [|r0 [|r1 [|r2 [|r3 [|r4 [|r5 [|r6 m]]]]]]]; try discriminate Hlen.
  clear Hlen.
  inversion Hrows as [|? ? H0 Hrows1]; subst; clear Hrows.
  inversion Hrows1 as [|? ? H1 Hrows2]; subst; clear Hrows1.
  inversion Hrows2 as [|? ? H2 Hrows3]; subst; clear Hrows2.
  inversion Hrows3 as [|? ? H3 Hrows4]; subst; clear Hrows3.
  inversion Hrows4 as [|? ? H4 Hrows5]; subst; clear Hrows4.
  inversion Hrows5 as [|? ? H5 _]; subst; clear Hrows5.
  destruct_row r0 H0. destruct_row r1 H1. destruct_row r2 H2.
  destruct_row r3 H3. destruct_row r4 H4. destruct_row r5 H5.
  repeat eexists.
Qed.

Lemma grid_intro (r0 r1 r2 r3 r4 r5 : list Z) :
  length r0 = 6%nat -> length r1 = 6%nat -> length r2 = 6%nat ->
  length r3 = 6%nat -> length r4 = 6%nat -> length r5 = 6%nat ->
  grid [r0; r1; r2; r3; r4; r5].
Proof. intros. split; [reflexivity|]. repeat constructor; assumption. Qed.

Lemma small_index (a : Z) :
  0 <= a < 6 -> a = 0 \/ a = 1 \/ a = 2 \/ a = 3 \/ a = 4 \/ a = 5.
Proof. lia. Qed.

(** One increment: the cell [(a, p)] of the grid gains one; with [p = -1]
    nothing changes. *)
Lemma bump_pure_spec (m : list (list Z)) (a p : Z) :
  grid m -> 0 <= a < 6 -> -1 <= p < 6 ->
  exists m',
    bump_pure m a p = Filled_ok m' /\ grid m'
    /\ (forall a' p' : nat, (a' < 6)%nat -> (p' < 6)%nat ->
          cell m' a' p' = cell m a' p'
                          + (if (Z.of_nat a' =? a) && (Z.of_nat p' =? p) then 1 else 0))
    /\ matrix_sum m' = matrix_sum m + (if 0 <=? p then 1 else 0)
    /\ diag_sum m' = diag_sum m + (if p =? a then 1 else 0).
Proof.
  intros Hg Ha Hp.
  destruct (grid_inv m Hg) as
    [a00 [a01 [a02 [a03 [a04 [a05 [a10 [a11 [a12 [a13 [a14 [a15
    [a20 [a21 [a22 [a23 [a24 [a25 [a30 [a31 [a32 [a33 [a34 [a35
    [a40 [a41 [a42 [a43 [a44 [a45 [a50 [a51 [a52 [a53 [a54 [a55 ->
    ]]]]]]]]]]]]]]]]]]]]]]]]]]]]]]]]]]]].
  assert (Hp' : p = -1 \/ 0 <= p < 6) by lia.
  destruct (small_index a Ha) as [->|[->|[->|[->|[->| ->]]]]];
    (destruct Hp' as [->|Hp'];
     [|destruct (small_index p Hp') as [->|[->|[->|[->|[->| ->]]]]]]);
    (eexists; split; [reflexivity|]; split; [apply grid_intro; reflexivity|];
     split;
     [intros a' p' Ha' Hp'';
      destruct a' as [|[|[|[|[|[|a']]]]]]; try lia;
      destruct p' as [|[|[|[|[|[|p']]]]]]; try lia;
      cbv -[Z.add]; lia
     |split; cbv -[Z.add]; lia]).
Qed.

Lemma bump_pure_ok (m m' : list (list Z)) (a p : Z) :
  grid m -> bump_pure m a p = Filled_ok m' -> 0 <= a < 6 /\ p < 6.
Proof.
  intros Hg H. unfold bump_pure in H.
  destruct Hg as [Hlen Hrows]. rewrite Hlen in H. unfold numClasses in H.
  destruct (a <? 0) eqn:E1; [discriminate|].
  destruct (Z.of_nat 6 <=? a) eqn:E2; [discriminate|]. cbn [orb] in H.
  apply Z.ltb_ge in E1. apply Z.leb_gt in E2.
  split; [lia|].
  destruct (p <? 0) eqn:E3; [apply Z.ltb_lt in E3; lia|].
  assert (Hrow : length (nth (Z.to_nat a) m []) = 6%nat).
  { rewrite Forall_forall in Hrows. apply Hrows. apply nth_In. unfold numClasses in *. lia. }
  rewrite Hrow in H.
  destruct (Z.of_nat 6 <=? p) eqn:E4; [discriminate|]. apply Z.leb_gt in E4. lia.
Qed.

Lemma bump_pure_neg (m : list (list Z)) (a p : Z) :
  grid m -> 0 <= a < 6 -> p < 0 -> bump_pure m a p = Filled_ok m.
Proof.
  intros [Hlen _] Ha Hp. unfold bump_pure. rewrite Hlen. unfold numClasses.
  destruct (Z.ltb_spec a 0); [lia|]. destruct (Z.leb_spec (Z.of_nat 6) a); [lia|].
  cbn [orb]. destruct (Z.ltb_spec p 0); [reflexivity|lia].
Qed.

Lemma count_pairs_cons (x : Z * Z) (pairs : list (Z * Z)) (a p : Z) :
  count_pairs (x :: pairs) a p
  = (if (fst x =? a) && (snd x =? p) then 1 else 0) + count_pairs pairs a p.
Proof.
  unfold count_pairs. cbn [filter].
  destruct ((fst x =? a) && (snd x =? p)); cbn [length]; lia.
Qed.

(** Filling the matrix from a grid, with labels in [0, 5] and predictions
    in [-1, 5]: it completes; each cell gains the number of pairs met with
    those coordinates; the entries' sum gains the number of pairs with a
    prediction in the grid; the diagonal's sum gains the number of pairs
    with prediction = actual. *)
Lemma fill_pure_spec (pairs : list (Z * Z)) :
  forall m,
    grid m ->
    Forall (fun ap => 0 <= fst ap < 6 /\ -1 <= snd ap < 6) pairs ->
    exists m',
      fill_pure m pairs = Filled_ok m' /\ grid m'
      /\ (forall a p : nat, (a < 6)%nat -> (p < 6)%nat ->
            cell m' a p = cell m a p + count_pairs pairs (Z.of_nat a) (Z.of_nat p))
      /\ matrix_sum m'
         = matrix_sum m + Z.of_nat (length (filter (fun ap => 0 <=? snd ap) pairs))
      /\ diag_sum m'
         = diag_sum m + Z.of_nat (length (filter (fun ap => snd ap =? fst ap) pairs)).
Proof.
  induction pairs as [|[a p] pairs IH]; intros m Hg Hall.
  - exists m. split; [reflexivity|]. split; [exact Hg|].
    split; [intros; unfold count_pairs; simpl; lia|]. split; simpl; lia.
  - inversion Hall as [|? ? [Ha Hp] Hall']; subst. cbn [fst snd] in Ha, Hp.
    destruct (bump_pure_spec m a p Hg Ha Hp) as [m1 [Hb [Hg1 [Hc1 [Hs1 Hd1]]]]].
    destruct (IH m1 Hg1 Hall') as [m' [Hf [Hg' [Hc [Hs Hd]]]]].
    exists m'. cbn [fill_pure]. rewrite Hb. split; [exact Hf|]. split; [exact Hg'|].
    split; [|split].
    + intros a' p' Ha' Hp'. rewrite Hc, Hc1, count_pairs_cons by assumption.
      cbn [fst snd]. rewrite (Z.eqb_sym a), (Z.eqb_sym p). lia.
    + rewrite Hs, Hs1. cbn [filter snd].
      destruct (0 <=? p); cbn [length]; lia.
    + rewrite Hd, Hd1. cbn [filter fst snd].
      destruct (p =? a); cbn [length]; lia.
Qed.

Lemma confusionMatrix_metrics_of (cm : list (list Z)) (pairs : list (Z * Z))
  (roc : list RocPoint) :
  confusionMatrix (metrics_of cm pairs roc) = cm.
Proof.
  unfold metrics_of. destruct (for_upto numClasses _ _) as [[tP tR] tF]. reflexivity.
Qed.

Lemma rocCurve_metrics_of (cm : list (list Z)) (pairs : list (Z * Z))
  (roc : list RocPoint) :
  rocCurve (metrics_of cm pairs roc) = roc.
Proof.
  unfold metrics_of. destruct (for_upto numClasses _ _) as [[tP tR] tF]. reflexivity.
Qed.

Lemma zero_matrix_grid : grid zero_matrix.
Proof. apply grid_intro; reflexivity. Qed.

Lemma eval_pairs_range (c : Classifier) (testData : list AirQualityData) :
  (length (models c) <= 6)%nat ->
  Forall (fun d => 0 <= value (smogLevel d) <= 5) testData ->
  Forall (fun ap => 0 <= fst ap < 6 /\ -1 <= snd ap < 6) (eval_pairs c testData).
Proof.
  intros Hms Hall. unfold eval_pairs. rewrite Forall_map.
  eapply Forall_impl; [|exact Hall]. intros d Hd. cbv beta in Hd. cbv beta.
  cbn [fst snd]. split; [lia|].
  unfold predict_with. cbn [prediction].
  match goal with |- -1 <= indexOf ?l ?v < 6 => pose proof (indexOf_range l v) as Hr end.
  rewrite length_map in Hr. lia.
Qed.

Lemma evaluate_returns (testData : list AirQualityData) (w : World) :
  (length (models (self w)) <= 6)%nat ->
  Forall (fun d => 0 <= value (smogLevel d) <= 5) testData ->
  exists m w', evaluate testData w = Normal m w'.
Proof.
  intros Hms Hlabels.
  pose proof (eval_pairs_range (self w) testData Hms Hlabels) as Hrange.
  destruct (fill_pure_spec (eval_pairs (self w) testData) zero_matrix zero_matrix_grid Hrange)
    as [cm [Hfill _]].
  rewrite evaluate_run. rewrite Hfill. eauto.
Qed.

(** C5 (amended): on a classifier with at most six models and test
    records labelled in [0, 5], [evaluate] completes with a 6 x 6 matrix
    whose cell [(a, p)] counts the records of actual class [a] predicted as
    [p]; a record whose prediction is -1 (no probability equals the maximum,
    which is what a NaN probability causes) increments no cell.  So the
    entries sum to the number of records with a prediction in [0, 5] -- the
    number of test records when every prediction is -- and the accuracy is
    the diagonal's sum over the number of test records. *)
Theorem evaluate_confusion_matrix (testData : list AirQualityData) (w : World) :
  (length (models (self w)) <= 6)%nat ->
  Forall (fun d => 0 <= value (smogLevel d) <= 5) testData ->
  exists m w',
    evaluate testData w = Normal m w'
    /\ grid (confusionMatrix m)
    /\ (forall a p : nat, (a < 6)%nat -> (p < 6)%nat ->
          cell (confusionMatrix m) a p
          = count_pairs (eval_pairs (self w) testData) (Z.of_nat a) (Z.of_nat p))
    /\ matrix_sum (confusionMatrix m)
       = Z.of_nat (length (filter (fun ap => 0 <=? snd ap) (eval_pairs (self w) testData)))
    /\ (Forall (fun ap => 0 <= snd ap) (eval_pairs (self w) testData) ->
        matrix_sum (confusionMatrix m) = Z.of_nat (length testData))
    /\ accuracy m
       = (num_of_Z (diag_sum (confusionMatrix m)) / num_of_nat (length testData))%float.
Proof.
  intros Hms Hlabels.
  pose proof (eval_pairs_range (self w) testData Hms Hlabels) as Hrange.
  destruct (fill_pure_spec (eval_pairs (self w) testData) zero_matrix zero_matrix_grid Hrange)
    as [cm [Hfill [Hg [Hc [Hs Hd]]]]].
  rewrite evaluate_run. rewrite Hfill.
  eexists; eexists. split; [reflexivity|].
  assert (Hcm : forall pairs roc, confusionMatrix (metrics_of cm pairs roc) = cm).
  { intros pairs roc. unfold metrics_of.
    destruct (for_upto numClasses _ _) as [[tP tR] tF]. reflexivity. }
  assert (Hacc : forall pairs roc,
            accuracy (metrics_of cm pairs roc)
            = (num_of_nat (length (filter (fun ap => Z.eqb (snd ap) (fst ap)) pairs))
               / num_of_nat (length pairs))%float).
  { intros pairs roc. unfold metrics_of.
    destruct (for_upto numClasses _ _) as [[tP tR] tF]. reflexivity. }
  rewrite Hcm, Hacc. split; [exact Hg|].
  split.
  { intros a p Ha Hp. rewrite Hc by assumption.
    destruct a as [|[|[|[|[|[|a]]]]]]; try lia;
      destruct p as [|[|[|[|[|[|p]]]]]]; try lia; reflexivity. }
  split; [rewrite Hs; reflexivity|].
  split.
  - intros Hpos. rewrite Hs. change (matrix_sum zero_matrix) with 0.
    rewrite Z.add_0_l. f_equal.
    rewrite forallb_filter_id.
    + unfold eval_pairs. apply length_map.
    + rewrite forallb_forall. rewrite Forall_forall in Hpos.
      intros x Hx. apply Z.leb_le. now apply Hpos.
  - rewrite Hd. change (diag_sum zero_matrix) with 0. rewrite Z.add_0_l.
    unfold num_of_nat, eval_pairs. rewrite length_map. reflexivity.
Qed.

(* ------------------------------------------------------------------ *)
(** *** Per-class metrics *)

Lemma fill_pure_inv (pairs : list (Z * Z)) :
  forall m m',
    grid m -> fill_pure m pairs = Filled_ok m' ->
    grid m'
    /\ (forall a p : nat, (a < 6)%nat -> (p < 6)%nat -> cell m a p <= cell m' a p)
    /\ matrix_sum m' <= matrix_sum m + Z.of_nat (length pairs).
Proof.
  induction pairs as [|[a p] pairs IH]; intros m m' Hg Hfill.
  - cbn in Hfill. inversion Hfill; subst. split; [exact Hg|]. split; [intros; lia|simpl; lia].
  - cbn [fill_pure] in Hfill.
    destruct (bump_pure m a p) as [m1| |] eqn:Hb; try discriminate.
    destruct (bump_pure_ok m m1 a p Hg Hb) as [Ha Hp].
    assert (H1 : grid m1
                 /\ (forall a' p' : nat, (a' < 6)%nat -> (p' < 6)%nat ->
                       cell m a' p' <= cell m1 a' p')
                 /\ matrix_sum m1 <= matrix_sum m + 1).
    { destruct (Z_lt_le_dec p 0) as [Hneg|Hpos].
      - rewrite (bump_pure_neg m a p Hg Ha Hneg) in Hb. inversion Hb; subst.
        split; [exact Hg|]. split; [intros; lia|lia].
      - destruct (bump_pure_spec m a p Hg Ha ltac:(lia)) as [m2 [Hb2 [Hg2 [Hc2 [Hs2 _]]]]].
        rewrite Hb2 in Hb. inversion Hb; subst.
        split; [exact Hg2|]. split.
        + intros a' p' Ha' Hp'. rewrite Hc2 by assumption.
          destruct ((Z.of_nat a' =? a) && (Z.of_nat p' =? p)); lia.
        + rewrite Hs2. destruct (0 <=? p); lia. }
    destruct H1 as [Hg1 [Hc1 Hs1]].
    destruct (IH m1 m' Hg1 Hfill) as [Hg' [Hc' Hs']].
    split; [exact Hg'|]. split.
    + intros a' p' Ha' Hp'. specialize (Hc1 a' p' Ha' Hp'). specialize (Hc' a' p' Ha' Hp'). lia.
    + cbn [length]. lia.
Qed.

Ltac all_cells H :=
    pose proof (H 0%nat 0%nat ltac:(lia) ltac:(lia));
    pose proof (H 0%nat 1%nat ltac:(lia) ltac:(lia));
    pose proof (H 0%nat 2%nat ltac:(lia) ltac:(lia));
    pose proof (H 0%nat 3%nat ltac:(lia) ltac:(lia));
    pose proof (H 0%nat 4%nat ltac:(lia) ltac:(lia));
    pose proof (H 0%nat 5%nat ltac:(lia) ltac:(lia));
    pose proof (H 1%nat 0%nat ltac:(lia) ltac:(lia));
    pose proof (H 1%nat 1%nat ltac:(lia) ltac:(lia));
    pose proof (H 1%nat 2%nat ltac:(lia) ltac:(lia));
    pose proof (H 1%nat 3%nat ltac:(lia) ltac:(lia));
    pose proof (H 1%nat 4%nat ltac:(lia) ltac:(lia));
    pose proof (H 1%nat 5%nat ltac:(lia) ltac:(lia));
    pose proof (H 2%nat 0%nat ltac:(lia) ltac:(lia));
    pose proof (H 2%nat 1%nat ltac:(lia) ltac:(lia));
    pose proof (H 2%nat 2%nat ltac:(lia) ltac:(lia));
    pose proof (H 2%nat 3%nat ltac:(lia) ltac:(lia));
    pose proof (H 2%nat 4%nat ltac:(lia) ltac:(lia));
    pose proof (H 2%nat 5%nat ltac:(lia) ltac:(lia));
    pose proof (H 3%nat 0%nat ltac:(lia) ltac:(lia));
    pose proof (H 3%nat 1%nat ltac:(lia) ltac:(lia));
    pose proof (H 3%nat 2%nat ltac:(lia) ltac:(lia));
    pose proof (H 3%nat 3%nat ltac:(lia) ltac:(lia));
    pose proof (H 3%nat 4%nat ltac:(lia) ltac:(lia));
    pose proof (H 3%nat 5%nat ltac:(lia) ltac:(lia));
    pose proof (H 4%nat 0%nat ltac:(lia) ltac:(lia));
    pose proof (H 4%nat 1%nat ltac:(lia) ltac:(lia));
    pose proof (H 4%nat 2%nat ltac:(lia) ltac:(lia));
    pose proof (H 4%nat 3%nat ltac:(lia) ltac:(lia));
    pose proof (H 4%nat 4%nat ltac:(lia) ltac:(lia));
    pose proof (H 4%nat 5%nat ltac:(lia) ltac:(lia));
    pose proof (H 5%nat 0%nat ltac:(lia) ltac:(lia));
    pose proof (H 5%nat 1%nat ltac:(lia) ltac:(lia));
    pose proof (H 5%nat 2%nat ltac:(lia) ltac:(lia));
    pose proof (H 5%nat 3%nat ltac:(lia) ltac:(lia));
    pose proof (H 5%nat 4%nat ltac:(lia) ltac:(lia));
    pose proof (H 5%nat 5%nat ltac:(lia) ltac:(lia));
    idtac.

(** In a grid of counters, the counts of a class are nonnegative and
    each denominator is at most the sum of all entries. *)
Lemma class_counts_bounds (cm : list (list Z)) (classIdx : nat) :
  grid cm ->
  (forall a p : nat, (a < 6)%nat -> (p < 6)%nat -> 0 <= cell cm a p) ->
  (classIdx < 6)%nat ->
  0 <= class_tp cm classIdx /\ 0 <= class_fp cm classIdx /\ 0 <= class_fn cm classIdx
  /\ class_tp cm classIdx + class_fp cm classIdx <= matrix_sum cm
  /\ class_tp cm classIdx + class_fn cm classIdx <= matrix_sum cm.
Proof.
  intros Hg H Hc.
  destruct (grid_inv cm Hg) as
    [a00 [a01 [a02 [a03 [a04 [a05 [a10 [a11 [a12 [a13 [a14 [a15
    [a20 [a21 [a22 [a23 [a24 [a25 [a30 [a31 [a32 [a33 [a34 [a35
    [a40 [a41 [a42 [a43 [a44 [a45 [a50 [a51 [a52 [a53 [a54 [a55 ->
    ]]]]]]]]]]]]]]]]]]]]]]]]]]]]]]]]]]]].
  all_cells H. clear H Hg.
  cbv [cell nth] in *.
  destruct classIdx as [|[|[|[|[|[|c]]]]]]; try lia; clear Hc;
    cbv -[Z.add Z.le]; lia.
Qed.

Lemma ratio_or_0_spec (tp other : Z) :
  0 <= tp -> 0 <= other -> tp + other < 2 ^ 53 ->
  sf_pf (Prim2SF (ratio_or_0 tp other))
  /\ sf_val (Prim2SF (ratio_or_0 tp other)) <= val 1 0
  /\ is_nan (ratio_or_0 tp other) = false
  /\ (tp + other = 0 -> ratio_or_0 tp other = 0%float)
  /\ (tp + other <> 0 ->
      ratio_or_0 tp other = (num_of_Z tp / num_of_Z (tp + other))%float).
Proof.
  intros Htp Ho Hb. unfold ratio_or_0.
  destruct (Z.eq_dec (tp + other) 0) as [Hz|Hnz].
  - assert (tp = 0) by lia. assert (other = 0) by lia. subst.
    split; [reflexivity|]. split; [vm_compute; discriminate|].
    split; [reflexivity|]. split; [reflexivity|congruence].
  - destruct (ratio_spec tp (tp + other) ltac:(lia) ltac:(lia)) as [Hpf [Hv [Hor _]]].
    rewrite Hor. split; [exact Hpf|]. split; [exact Hv|]. split; [|split; [lia|reflexivity]].
    apply not_nan_spec. intros E. rewrite E in Hpf. exact Hpf.
Qed.

Lemma class_metrics_of_run
  (testData : list AirQualityData) (w : World) (m : ModelMetrics) (w' : World)
  (classIdx : nat) :
  evaluate testData w = Normal m w' ->
  Z.of_nat (length testData) < 2 ^ 53 ->
  (classIdx < 6)%nat ->
  let cm := confusionMatrix m in
  let tp := class_tp cm classIdx in
  let fp := class_fp cm classIdx in
  let fn := class_fn cm classIdx in
  let p := class_precision cm classIdx in
  let r := class_recall cm classIdx in
  let f := class_f1 cm classIdx in
  is_nan p = false /\ is_nan r = false /\ is_nan f = false
  /\ (tp + fp = 0 -> p = 0%float)
  /\ (tp + fn = 0 -> r = 0%float)
  /\ (p = 0%float -> r = 0%float -> f = 0%float)
  /\ (tp + fp <> 0 -> p = (num_of_Z tp / num_of_Z (tp + fp))%float)
  /\ (tp + fn <> 0 -> r = (num_of_Z tp / num_of_Z (tp + fn))%float)
  /\ (p <> 0%float \/ r <> 0%float -> f = (2 * (p * r) / (p + r))%float).
Proof.
  intros Hrun Hlen Hc cm tp fp fn p r f.
  rewrite evaluate_run in Hrun.
  destruct (fill_pure zero_matrix (eval_pairs (self w) testData)) as [cm0| |] eqn:Hfill;
    try discriminate.
  assert (Hcm : cm = cm0).
  { injection Hrun as Hm _. unfold cm. rewrite <- Hm. apply confusionMatrix_metrics_of. }
  destruct (fill_pure_inv _ _ _ zero_matrix_grid Hfill) as [Hg [Hcells Hsum]].
  rewrite <- Hcm in Hg, Hcells, Hsum.
  assert (Hnn : forall a p' : nat, (a < 6)%nat -> (p' < 6)%nat -> 0 <= cell cm a p').
  { intros a p' Ha Hp'. specialize (Hcells a p' Ha Hp').
    assert (cell zero_matrix a p' = 0).
    { destruct a as [|[|[|[|[|[|a]]]]]]; try lia;
        destruct p' as [|[|[|[|[|[|p']]]]]]; try lia; reflexivity. }
    lia. }
  change (matrix_sum zero_matrix) with 0 in Hsum.
  unfold eval_pairs in Hsum. rewrite length_map in Hsum.
  destruct (class_counts_bounds cm classIdx Hg Hnn Hc) as [Htp [Hfp [Hfn [Hcol Hrow]]]].
  fold tp fp fn in Htp, Hfp, Hfn, Hcol, Hrow.
  destruct (ratio_or_0_spec tp fp Htp Hfp ltac:(lia)) as [Hp1 [Hp2 [Hp3 [Hp4 Hp5]]]].
  destruct (ratio_or_0_spec tp fn Htp Hfn ltac:(lia)) as [Hr1 [Hr2 [Hr3 [Hr4 Hr5]]]].
  fold (class_precision cm classIdx) in Hp1, Hp2, Hp3, Hp4, Hp5.
  fold (class_recall cm classIdx) in Hr1, Hr2, Hr3, Hr4, Hr5.
  fold p in Hp1, Hp2, Hp3, Hp4, Hp5. fold r in Hr1, Hr2, Hr3, Hr4, Hr5.
  destruct (f1_spec p r Hp1 Hr1 Hp2 Hr2) as [Hf1 [Hf2 Hf3]].
  fold (class_f1 cm classIdx) in Hf1, Hf2, Hf3. fold f in Hf1, Hf2, Hf3.
  repeat split; assumption.
Qed.

(* ------------------------------------------------------------------ *)
(** *** The ROC points *)

Lemma draw_roc_spec (n : nat) :
  forall (lo : nat) (g : RNG) (d : RocPoint),
    length (fst (draw_roc lo n g)) = n
    /\ forall i, (i < n)%nat ->
         nth i (fst (draw_roc lo n g)) d
         = {| fpr := (num_of_nat (lo + i) / 10)%float;
              tpr := Math_min [1%float;
                               (num_of_nat (lo + i) / 10 + 0.1
                                + get (draws n g) i * 0.1)%float] |}.
Proof.
  induction n as [|n IH]; intros lo g d.
  - split; [reflexivity|intros; lia].
  - cbn [draw_roc draws]. destruct (Math_random g) as [r g1].
    destruct (IH (S lo) g1 d) as [Hlen Hnth].
    destruct (draw_roc (S lo) n g1) as [rest g2]. cbn [fst] in *.
    split; [simpl; now rewrite Hlen|].
    intros [|i] Hi.
    + cbn [nth get]. rewrite Nat.add_0_r. reflexivity.
    + cbn [nth]. rewrite Hnth by lia. unfold get. cbn [nth].
      now rewrite Nat.add_succ_r.
Qed.

Lemma draw_roc_fpr (n : nat) :
  forall (lo : nat) (g : RNG),
    map fpr (fst (draw_roc lo n g))
    = map (fun i => (num_of_nat i / 10)%float) (seq lo n).
Proof.
  induction n as [|n IH]; intros lo g; [reflexivity|].
  cbn [draw_roc seq map]. destruct (Math_random g) as [r g1].
  specialize (IH (S lo) g1).
  destruct (draw_roc (S lo) n g1) as [rest g2]. cbn [fst map fpr] in *.
  now rewrite IH.
Qed.

Lemma draws_length (n : nat) (g : RNG) : length (draws n g) = n.
Proof.
  revert g. induction n as [|n IH]; intros g; [reflexivity|].
  cbn [draws]. destruct (Math_random g) as [r g1]. simpl. now rewrite IH.
Qed.

Lemma roc_curve_of_run
  (testData : list AirQualityData) (w : World) (m : ModelMetrics) (w' : World) :
  evaluate testData w = Normal m w' ->
  Forall (fun r => (0 <=? r)%float = true /\ (r <? 1)%float = true) (draws 11 (rng w)) ->
  rocCurve m = fst (draw_roc 0 11 (rng w))
  /\ length (rocCurve m) = 11%nat
  /\ map fpr (rocCurve m)
     = [0; 0.1; 0.2; 0.3; 0.4; 0.5; 0.6; 0.7; 0.8; 0.9; 1]%float
  /\ forall i d, (i < 11)%nat ->
       exists jitter,
         (0 <=? jitter)%float = true /\ (jitter <? 0.1)%float = true
         /\ nth i (rocCurve m) d
            = {| fpr := (num_of_nat i / 10)%float;
                 tpr := Math_min [1%float; (num_of_nat i / 10 + 0.1 + jitter)%float] |}.
Proof.
  intros Hrun Hdraws.
  assert (Hroc : rocCurve m = fst (draw_roc 0 11 (rng w))).
  { rewrite evaluate_run in Hrun.
    destruct (fill_pure zero_matrix (eval_pairs (self w) testData)); try discriminate.
    injection Hrun as Hm _. rewrite <- Hm. apply rocCurve_metrics_of. }
  split; [exact Hroc|]. rewrite Hroc.
  split; [apply (draw_roc_spec 11 0 (rng w) {| fpr := 0; tpr := 0 |})|].
  split; [rewrite draw_roc_fpr; reflexivity|].
  intros i d Hi.
  destruct (draw_roc_spec 11 0 (rng w) d) as [_ Hnth].
  exists (get (draws 11 (rng w)) i * 0.1)%float.
  assert (Hin : In (get (draws 11 (rng w)) i) (draws 11 (rng w))).
  { apply nth_In. rewrite draws_length. exact Hi. }
  rewrite Forall_forall in Hdraws. destruct (Hdraws _ Hin) as [H0 H1].
  destruct (tenth_bounds _ H0 H1) as [Hj0 Hj1].
  split; [exact Hj0|]. split; [exact Hj1|].
  rewrite Hnth by exact Hi. reflexivity.
Qed.

(** C8: [evaluate] returns on every test list with labels in 0..5 (the
    classifier holding at most six models), and the ROC curve an
    [evaluate] call returns is the list of points drawn from the random
    source alone -- test records and models play no part; it has 11
    points, with false-positive rates 0, 0.1, ..., 1.0 (point [i] has
    [fpr = i / 10]); and, [Math.random()] answering in [0, 1), point [i]
    has [tpr = min(1, fpr + 0.1 + jitter)] for a jitter in [0, 0.1). *)
Theorem evaluate_roc_curve (testData : list AirQualityData) (w : World) :
  Forall (fun r => (0 <=? r)%float = true /\ (r <? 1)%float = true) (draws 11 (rng w)) ->
  ((length (models (self w)) <= 6)%nat ->
   Forall (fun d => 0 <= value (smogLevel d) <= 5) testData ->
   exists m w', evaluate testData w = Normal m w')
  /\ forall m w',
       evaluate testData w = Normal m w' ->
       rocCurve m = fst (draw_roc 0 11 (rng w))
       /\ length (rocCurve m) = 11%nat
       /\ map fpr (rocCurve m)
          = [0; 0.1; 0.2; 0.3; 0.4; 0.5; 0.6; 0.7; 0.8; 0.9; 1]%float
       /\ forall i d, (i < 11)%nat ->
            exists jitter,
              (0 <=? jitter)%float = true /\ (jitter <? 0.1)%float = true
              /\ nth i (rocCurve m) d
                 = {| fpr := (num_of_nat i / 10)%float;
                      tpr := Math_min [1%float;
                                       (num_of_nat i / 10 + 0.1 + jitter)%float] |}.
Proof.
  intros Hdraws. split; [apply evaluate_returns|].
  intros m w' Hrun. exact (roc_curve_of_run testData w m w' Hrun Hdraws).
Qed.

(* ------------------------------------------------------------------ *)
(** *** Feature importance *)

Lemma getFeatureImportance_run (w : World) :
  getFeatureImportance w
  = Normal (sort by_importance_desc (normalized_scores (models (self w)))) w.
Proof. reflexivity. Qed.

Lemma sum_abs_class (ms : list LogisticRegressionModel) (i : nat) :
  forall acc : number,
    is_nan acc = true \/ (0 <=? acc)%float = true ->
    let total :=
      fold_left (fun sum model => (sum + Math_abs (get (weights model) i))%float) ms acc in
    is_nan total = true \/ (0 <=? total)%float = true.
Proof.
  induction ms as [|m ms IH]; intros acc Hacc; cbn [fold_left]; [exact Hacc|].
  apply IH. destruct Hacc as [Hn|Hp]; [left; now apply add_nan_l|].
  unfold Math_abs. destruct (is_nan (get (weights m) i)) eqn:E.
  - left. apply add_nan_r. now apply abs_nan.
  - right. apply add_nonneg; [exact Hp|now apply abs_nonneg].
Qed.

Lemma avgWeight_nonneg (ms : list LogisticRegressionModel) (i : nat) :
  is_nan (avgWeight ms i) = false -> (0 <=? avgWeight ms i)%float = true.
Proof.
  unfold avgWeight. apply div_nn_pn; [|apply num_of_Z_pn].
  apply sum_abs_class. right. reflexivity.
Qed.

Lemma sort_insert_perm {A} (cmp : A -> A -> number) (x : A) (l : list A) :
  Permutation (sort_insert cmp x l) (x :: l).
Proof.
  induction l as [|y l IH]; cbn [sort_insert]; [reflexivity|].
  destruct (0 <? cmp x y)%float; [|reflexivity].
  rewrite IH. apply perm_swap.
Qed.

Lemma sort_perm {A} (cmp : A -> A -> number) (l : list A) :
  Permutation (sort cmp l) l.
Proof.
  unfold sort. induction l as [|x l IH]; cbn [fold_right]; [reflexivity|].
  rewrite sort_insert_perm. now constructor.
Qed.

Lemma sort_insert_hd (x y : FeatureScore) (l : list FeatureScore) :
  descending y x -> HdRel descending y l ->
  HdRel descending y (sort_insert by_importance_desc x l).
Proof.
  intros Hyx Hyl. destruct l as [|z l]; cbn [sort_insert]; [now constructor|].
  destruct (0 <? by_importance_desc x z)%float; constructor; [|exact Hyx].
  now inversion Hyl.
Qed.

Lemma sort_insert_sorted (x : FeatureScore) (l : list FeatureScore) :
  sf_nnf (Prim2SF (importance x)) ->
  Forall (fun s => sf_nnf (Prim2SF (importance s))) l ->
  Sorted descending l ->
  Sorted descending (sort_insert by_importance_desc x l).
Proof.
  intros Hx Hl Hs. induction l as [|y l IH]; cbn [sort_insert].
  - repeat constructor.
  - inversion Hl as [|? ? Hy Hl']; subst. inversion Hs as [|? ? Hs' Hhd]; subst.
    unfold by_importance_desc at 1. rewrite (sub_sign _ _ Hx Hy).
    assert (Hnx : is_nan (importance x) = false).
    { apply not_nan_spec. intros E. rewrite E in Hx. exact Hx. }
    assert (Hny : is_nan (importance y) = false).
    { apply not_nan_spec. intros E. rewrite E in Hy. exact Hy. }
    destruct (importance x <? importance y)%float eqn:Hlt.
    + constructor; [now apply IH|].
      apply sort_insert_hd; [|exact Hhd]. unfold descending. now apply ltb_leb.
    + constructor; [exact Hs|]. constructor. unfold descending.
      now apply not_ltb_leb.
Qed.

Lemma sort_sorted (l : list FeatureScore) :
  Forall (fun s => sf_nnf (Prim2SF (importance s))) l ->
  Sorted descending (sort by_importance_desc l).
Proof.
  unfold sort. induction l as [|x l IH]; intros Hl; cbn [fold_right]; [constructor|].
  inversion Hl as [|? ? Hx Hl']; subst.
  apply sort_insert_sorted; [exact Hx| |now apply IH].
  rewrite Forall_forall in *. intros s Hs. apply Hl'.
  eapply Permutation_in; [apply sort_perm|exact Hs].
Qed.

Lemma Math_max_one (l : list number) :
  Forall (fun x => (x <=? 1)%float = true) l -> In 1%float l -> Math_max l = 1%float.
Proof.
  intros Hle Hin. unfold Math_max.
  assert (Hnn : Forall (fun x => is_nan x = false) l).
  { rewrite Forall_forall in *. intros x Hx. now apply (leb_not_nan x 1), Hle. }
  destruct (fold_max_spec l neg_infinity eq_refl Hnn) as [_ [_ [Hall Hres]]].
  specialize (Hall _ Hin). apply eqb_one_eq.
  destruct Hres as [E|Hres].
  - rewrite E in Hall. discriminate.
  - apply leb_antisym_eqb; [|exact Hall].
    rewrite Forall_forall in Hle. now apply Hle.
Qed.

(** The regular case: when the largest of the six average weight
    magnitudes is positive and finite, every score lies in [0, 1], the
    largest score is exactly 1, and the list is in descending order. *)
Lemma importance_scores_regular (w : World) :
  let ms := models (self w) in
  let top := Math_max (average_weights ms) in
  (0 <? top)%float = true -> (top <? infinity)%float = true ->
  exists scores,
    getFeatureImportance w = Normal scores w
    /\ Permutation scores (normalized_scores ms)
    /\ length scores = 6%nat
    /\ Forall (fun s => (0 <=? importance s)%float = true
                        /\ (importance s <=? 1)%float = true) scores
    /\ Math_max (map importance scores) = 1%float
    /\ Sorted descending scores.
Proof.
  intros ms top H0 Hinf.
  exists (sort by_importance_desc (normalized_scores ms)).
  split; [apply getFeatureImportance_run|].
  pose proof (sort_perm by_importance_desc (normalized_scores ms)) as Hperm.
  split; [exact Hperm|].
  split; [rewrite (Permutation_length Hperm); reflexivity|].
  destruct (ltb_not_nan _ _ H0) as [_ Htop].
  destruct (fold_max_not_nan _ _ Htop) as [_ Hnan].
  destruct (fold_max_spec _ neg_infinity eq_refl Hnan) as [_ [_ [Hall Hres]]].
  fold (Math_max (average_weights ms)) in Hall, Hres. fold top in Hall, Hres.
  assert (Hbounds : forall i, In i (seq 0 (length featureNames)) ->
            (0 <=? avgWeight ms i / top)%float = true
            /\ (avgWeight ms i / top <=? 1)%float = true).
  { intros i Hi.
    assert (Hin : In (avgWeight ms i) (average_weights ms)) by now apply in_map.
    apply div_bounds; [|now apply Hall|exact H0|exact Hinf].
    apply avgWeight_nonneg. rewrite Forall_forall in Hnan. now apply Hnan. }
  assert (Hscores : Forall (fun s => (0 <=? importance s)%float = true
                                     /\ (importance s <=? 1)%float = true)
                           (normalized_scores ms)).
  { apply Forall_forall. intros s Hs. apply in_map_iff in Hs.
    destruct Hs as [i [<- Hi]]. cbn [importance]. now apply Hbounds. }
  assert (Hone : In 1%float (map importance (normalized_scores ms))).
  { destruct Hres as [E|Hres].
    - rewrite E in H0. discriminate.
    - apply in_map_iff in Hres. destruct Hres as [i [Ei Hi]].
      apply in_map_iff.
      exists {| feature := nth i featureNames EmptyString;
                importance := (avgWeight ms i / top)%float |}.
      split.
      + cbn [importance]. rewrite Ei.
        destruct (positive_finite top H0 Hinf) as [m [e Hm]].
        exact (div_self top false m e Hm).
      + apply in_map_iff. exists i. split; [reflexivity|exact Hi]. }
  split; [exact (Permutation_Forall (Permutation_sym Hperm) Hscores)|].
  split.
  - apply Math_max_one.
    + apply Forall_forall. intros x Hx. apply in_map_iff in Hx.
      destruct Hx as [s [<- Hs]].
      apply (Permutation_in _ Hperm) in Hs.
      rewrite Forall_forall in Hscores. now apply Hscores.
    + eapply Permutation_in; [apply Permutation_map, Permutation_sym, Hperm|exact Hone].
  - apply sort_sorted. apply Forall_forall. intros s Hs.
    rewrite Forall_forall in Hscores. destruct (Hscores s Hs) as [Hlo Hhi].
    exact (between_nnf _ _ _ _ Hlo Hhi Prim2SF_one).
Qed.

(* ------------------------------------------------------------------ *)
(** *** NaN through [Math.max], [Math.min] and [indexOf] *)

Lemma nan_eq (x : number) : is_nan x = true -> x = nan.
Proof. intros H. apply Prim2SF_inj. apply is_nan_spec in H. now rewrite H. Qed.

Lemma fold_max_from_nan (l : list number) : fold_left max_step l nan = nan.
Proof. induction l as [|x l IH]; [reflexivity|exact IH]. Qed.

Lemma fold_max_nan (l : list number) (acc : number) :
  Exists (fun x => is_nan x = true) l -> fold_left max_step l acc = nan.
Proof.
  intros H. revert acc. induction H as [x l Hx|x l _ IH]; intros acc; cbn [fold_left].
  - unfold max_step at 2. rewrite Hx, orb_true_r. apply fold_max_from_nan.
  - apply IH.
Qed.

Lemma fold_min_from_nan (l : list number) : fold_left min_step l nan = nan.
Proof. induction l as [|x l IH]; [reflexivity|exact IH]. Qed.

Lemma fold_min_nan (l : list number) (acc : number) :
  Exists (fun x => is_nan x = true) l -> fold_left min_step l acc = nan.
Proof.
  intros H. revert acc. induction H as [x l Hx|x l _ IH]; intros acc; cbn [fold_left].
  - unfold min_step at 2. rewrite Hx, orb_true_r. apply fold_min_from_nan.
  - apply IH.
Qed.

Lemma indexOf_from_nan (l : list number) (v : number) (i0 : Z) :
  is_nan v = true -> indexOf_from l v i0 = -1.
Proof.
  intros Hv. revert i0. induction l as [|x l IH]; intros i0; cbn [indexOf_from]; [reflexivity|].
  destruct (x =? v)%float eqn:E; [|apply IH].
  destruct (eqb_not_nan _ _ E) as [_ Hv']. congruence.
Qed.

Lemma not_nan_dec (l : list number) :
  Forall (fun x => is_nan x = false) l \/ Exists (fun x => is_nan x = true) l.
Proof.
  induction l as [|x l [IH|IH]].
  - left. constructor.
  - destruct (is_nan x) eqn:E; [right; now constructor|left; now constructor].
  - right. now constructor.
Qed.

(** [predict], whatever the classifier holds: one probability per model,
    an index between -1 and the number of models, and the index -1 exactly
    when there is no model or some probability is NaN -- in which case the
    confidence is NaN too. *)
Theorem predict_index_range (input : PredictionInput) (w : World) :
  let r := predict_with (models (self w)) (featureMins (self w)) (featureMaxs (self w)) input in
  predict input w = Normal r w
  /\ length (probabilities r) = length (models (self w))
  /\ -1 <= prediction r < Z.of_nat (length (models (self w)))
  /\ (prediction r = -1 <->
      models (self w) = [] \/ Exists (fun p => is_nan p = true) (probabilities r))
  /\ (Exists (fun p => is_nan p = true) (probabilities r) ->
      is_nan (confidence r) = true).
Proof.
  intros r. split; [apply predict_run|].
  assert (Hlen : length (probabilities r) = length (models (self w))).
  { unfold r, predict_with. cbn [probabilities]. apply length_map. }
  split; [exact Hlen|].
  split; [rewrite <- Hlen; apply indexOf_range|].
  assert (Hnan : Exists (fun p => is_nan p = true) (probabilities r) ->
                 confidence r = nan).
  { intros H. unfold r, predict_with in *. cbn [probabilities confidence] in *.
    unfold Math_max. now apply fold_max_nan. }
  split; [|intros H; rewrite (Hnan H); reflexivity].
  split.
  - intros Hm1. destruct (models (self w)) as [|m0 ms] eqn:Hms; [now left|right].
    destruct (not_nan_dec (probabilities r)) as [Hall|Hex]; [exfalso|exact Hex].
    assert (Hne : probabilities r <> []).
    { intros E. rewrite E in Hlen. discriminate Hlen. }
    destruct (Math_max_spec (probabilities r) Hne Hall) as [_ [_ Hex]].
    destruct (indexOf_from_spec (probabilities r) (Math_max (probabilities r)) 0 Hex)
      as [j [Hj _]].
    change (indexOf_from (probabilities r) (Math_max (probabilities r)) 0)
      with (prediction r) in Hj. lia.
  - intros [Hms|Hex].
    + unfold r. rewrite Hms. reflexivity.
    + change (prediction r) with (indexOf (probabilities r) (confidence r)).
      rewrite (Hnan Hex). apply indexOf_from_nan. reflexivity.
Qed.

(* ------------------------------------------------------------------ *)
(** *** [Math.min], and the bounds [extractFeatures] computes *)

Lemma leb_infinity (x : number) : is_nan x = false -> (x <=? infinity)%float = true.
Proof.
  intros Hx. apply not_nan_spec in Hx. rewrite leb_spec, Prim2SF_infinity.
  destruct (Prim2SF x) as [s|[]| |[] m e]; try reflexivity. congruence.
Qed.

Lemma infinity_leb (x : number) : (infinity <=? x)%float = true -> x = infinity.
Proof.
  rewrite leb_spec, Prim2SF_infinity. intros H. apply Prim2SF_inj.
  rewrite Prim2SF_infinity.
  destruct (Prim2SF x) as [s|[]| |[] m e]; try discriminate; reflexivity.
Qed.

Lemma min_step_spec (l x : number) :
  is_nan l = false -> is_nan x = false ->
  (min_step l x = l \/ min_step l x = x)
  /\ (min_step l x <=? l)%float = true /\ (min_step l x <=? x)%float = true.
Proof.
  intros Hl Hx. unfold min_step. rewrite Hl, Hx. cbn [orb].
  destruct (is_zero x && is_zero l && negb (get_sign l) && get_sign x) eqn:Ez.
  - rewrite !andb_true_iff in Ez. destruct Ez as [[[Zx Zl] _] _].
    split; [now right|]. split; [now apply is_zero_leb|now apply leb_refl].
  - destruct (x <? l)%float eqn:El.
    + split; [now right|]. split; [now apply ltb_leb|now apply leb_refl].
    + split; [now left|]. split; [now apply leb_refl|now apply not_ltb_leb].
Qed.

Lemma fold_min_spec (l : list number) (acc : number) :
  is_nan acc = false -> Forall (fun x => is_nan x = false) l ->
  is_nan (fold_left min_step l acc) = false
  /\ (fold_left min_step l acc <=? acc)%float = true
  /\ (forall x, In x l -> (fold_left min_step l acc <=? x)%float = true)
  /\ (fold_left min_step l acc = acc \/ In (fold_left min_step l acc) l).
Proof.
  revert acc. induction l as [|x l IH]; intros acc Ha Hl; simpl.
  - split; [exact Ha|]. split; [now apply leb_refl|]. split; [intros y []|now left].
  - inversion Hl as [|? ? Hx Hl']; subst.
    destruct (min_step_spec acc x Ha Hx) as [Hin [Hle1 Hle2]].
    assert (Hs : is_nan (min_step acc x) = false) by (destruct Hin as [->| ->]; assumption).
    destruct (IH (min_step acc x) Hs Hl') as [Hr [Hle [Hall Hin']]].
    split; [exact Hr|]. split; [eapply leb_trans; eassumption|]. split.
    + intros y [<-|Hy]; [eapply leb_trans; eassumption|now apply Hall].
    + destruct Hin' as [E|Hin']; [|now right; right].
      rewrite E. destruct Hin as [E'|E']; rewrite E'; [now left|now right; left].
Qed.

(** [Math.min] of numbers, none NaN: a lower bound that one of them
    equals. *)
Lemma Math_min_spec (l : list number) :
  l <> [] -> Forall (fun x => is_nan x = false) l ->
  is_nan (Math_min l) = false
  /\ (forall x, In x l -> (Math_min l <=? x)%float = true)
  /\ (exists x, In x l /\ (x =? Math_min l)%float = true).
Proof.
  intros Hne Hl. unfold Math_min.
  destruct (fold_min_spec l infinity eq_refl Hl) as [Hr [_ [Hall Hin]]].
  split; [exact Hr|]. split; [exact Hall|].
  destruct Hin as [E|Hin].
  - destruct l as [|x l]; [congruence|]. exists x. split; [now left|].
    assert (Hx : (infinity <=? x)%float = true) by (rewrite <- E; apply Hall; now left).
    apply infinity_leb in Hx. rewrite E, Hx. reflexivity.
  - exists (fold_left min_step l infinity). split; [exact Hin|now apply eqb_refl].
Qed.

(** The bounds of a non-empty record list, column by column. *)
Lemma extractFeatures_columns (d : AirQualityData) (ds : list AirQualityData) :
  exists mins maxs,
    extractFeatures (d :: ds)
    = inr (map feature_row (d :: ds), map (fun r => value (smogLevel r)) (d :: ds), mins, maxs)
    /\ length mins = 6%nat /\ length maxs = 6%nat
    /\ forall i, (i < 6)%nat ->
         get mins i = Math_min (map (fun r => get (feature_row r) i) (d :: ds))
         /\ get maxs i = Math_max (map (fun r => get (feature_row r) i) (d :: ds)).
Proof.
  eexists; eexists. split; [reflexivity|]. split; [reflexivity|]. split; [reflexivity|].
  intros i Hi. rewrite <- !(map_map feature_row (fun row => get row i)).
  destruct i as [|[|[|[|[|[|i]]]]]]; try lia; split; reflexivity.
Qed.

(** [extractFeatures] on a non-empty record list none of whose six fields
    is NaN: it returns the rows and labels in order, six minima and six
    maxima; every record's feature lies between the minimum and the maximum
    of its column, and each bound is the value of some record. *)
Theorem extractFeatures_bounds (d : AirQualityData) (ds : list AirQualityData) :
  Forall (fun r => Forall (fun x => is_nan x = false) (feature_row r)) (d :: ds) ->
  exists mins maxs,
    extractFeatures (d :: ds)
    = inr (map feature_row (d :: ds), map (fun r => value (smogLevel r)) (d :: ds), mins, maxs)
    /\ length mins = 6%nat /\ length maxs = 6%nat
    /\ (forall r i, In r (d :: ds) -> (i < 6)%nat ->
          (get mins i <=? get (feature_row r) i)%float = true
          /\ (get (feature_row r) i <=? get maxs i)%float = true)
    /\ (forall i, (i < 6)%nat ->
          exists rlo rhi,
            In rlo (d :: ds) /\ In rhi (d :: ds)
            /\ (get (feature_row rlo) i =? get mins i)%float = true
            /\ (get (feature_row rhi) i =? get maxs i)%float = true).
Proof.
  intros Hall.
  destruct (extractFeatures_columns d ds) as [mins [maxs [Hrun [Hlo [Hhi Hcol]]]]].
  exists mins, maxs. split; [exact Hrun|]. split; [exact Hlo|]. split; [exact Hhi|].
  assert (Hcolumn : forall i, (i < 6)%nat ->
            Forall (fun x => is_nan x = false)
                   (map (fun r => get (feature_row r) i) (d :: ds))).
  { intros i Hi. apply Forall_map. eapply Forall_impl; [|exact Hall].
    intros r Hr. cbv beta in *. rewrite Forall_forall in Hr. apply Hr.
    apply nth_In. exact Hi. }
  assert (Hne : forall i, map (fun r => get (feature_row r) i) (d :: ds) <> [])
    by (intros i; discriminate).
  split.
  - intros r i Hr Hi. destruct (Hcol i Hi) as [-> ->].
    destruct (Math_min_spec _ (Hne i) (Hcolumn i Hi)) as [_ [Hmin _]].
    destruct (Math_max_spec _ (Hne i) (Hcolumn i Hi)) as [_ [Hmax _]].
    split; [apply Hmin|apply Hmax];
      apply (in_map (fun r => get (feature_row r) i)); exact Hr.
  - intros i Hi. destruct (Hcol i Hi) as [-> ->].
    destruct (Math_min_spec _ (Hne i) (Hcolumn i Hi)) as [_ [_ [x [Hx Ex]]]].
    destruct (Math_max_spec _ (Hne i) (Hcolumn i Hi)) as [_ [_ [y [Hy Ey]]]].
    apply in_map_iff in Hx. destruct Hx as [rlo [<- Hrlo]].
    apply in_map_iff in Hy. destruct Hy as [rhi [<- Hrhi]].
    exists rlo, rhi. auto.
Qed.

(** A NaN field in any record makes both bounds of its column NaN. *)
Theorem extractFeatures_nan (d : AirQualityData) (ds : list AirQualityData) (i : nat) :
  (i < 6)%nat ->
  Exists (fun r => is_nan (get (feature_row r) i) = true) (d :: ds) ->
  exists features labels mins maxs,
    extractFeatures (d :: ds) = inr (features, labels, mins, maxs)
    /\ is_nan (get mins i) = true /\ is_nan (get maxs i) = true.
Proof.
  intros Hi Hex.
  destruct (extractFeatures_columns d ds) as [mins [maxs [Hrun [_ [_ Hcol]]]]].
  eexists; eexists; exists mins, maxs. split; [exact Hrun|].
  destruct (Hcol i Hi) as [-> ->].
  assert (Hex' : Exists (fun x => is_nan x = true)
                        (map (fun r => get (feature_row r) i) (d :: ds))).
  { apply Exists_exists in Hex. destruct Hex as [r [Hr Hn]].
    apply Exists_exists. exists (get (feature_row r) i).
    split; [|exact Hn]. apply (in_map (fun r => get (feature_row r) i)). exact Hr. }
  unfold Math_min, Math_max.
  rewrite (fold_min_nan _ _ Hex'), (fold_max_nan _ _ Hex'). split; reflexivity.
Qed.

(* ------------------------------------------------------------------ *)
(** *** Min-max scaling *)

Lemma sub_self (x : float) :
  (exists s, Prim2SF x = S754_zero s) \/ (exists s m e, Prim2SF x = S754_finite s m e) ->
  (x - x)%float = 0%float.
Proof.
  intros H. apply Prim2SF_inj. rewrite sub_spec, Prim2SF_zero.
  destruct H as [[s H]|[s [m [e H]]]]; rewrite H.
  - destruct s; reflexivity.
  - unfold SF64sub, SFsub. rewrite Z.sub_diag. reflexivity.
Qed.

Lemma sub_finite_l (a b : float) (s : bool) (m : positive) (e : Z) :
  Prim2SF (a - b) = S754_finite s m e ->
  ((exists s, Prim2SF a = S754_zero s) \/ (exists s m e, Prim2SF a = S754_finite s m e))
  /\ ((exists s, Prim2SF b = S754_zero s) \/ (exists s m e, Prim2SF b = S754_finite s m e)).
Proof.
  rewrite sub_spec.
  destruct (Prim2SF a) as [sa|sa| |sa ma ea], (Prim2SF b) as [sb|sb| |sb mb eb];
    cbn [SF64sub SFsub]; intros H; try discriminate;
    try (destruct sa, sb; discriminate);
    split; first [left; eexists; reflexivity | right; do 3 eexists; reflexivity].
Qed.

Lemma zero_div_pos (d : float) (m : positive) (e : Z) :
  Prim2SF d = S754_finite false m e -> (0 / d)%float = 0%float.
Proof.
  intros H. apply Prim2SF_inj. rewrite div_spec, H, Prim2SF_zero. reflexivity.
Qed.

Lemma self_quotient_nan (v : float) : is_nan ((v - v) / (v - v)) = true.
Proof.
  rewrite is_nan_spec, div_spec, sub_spec.
  destruct (Prim2SF v) as [s|s| |s m e].
  - destruct s; reflexivity.
  - destruct s; reflexivity.
  - reflexivity.
  - unfold SF64sub, SFsub. rewrite Z.sub_diag. reflexivity.
Qed.

Lemma ltb_irrefl (v : float) : (v <? v)%float = false.
Proof.
  destruct (v <? v)%float eqn:E; [|reflexivity].
  pose proof (ltb_irrefl_eqb _ _ E) as Hne.
  destruct (ltb_not_nan _ _ E) as [Hv _].
  rewrite (eqb_refl v Hv) in Hne. discriminate.
Qed.

Lemma max_step_same (v : number) : max_step v v = v.
Proof.
  unfold max_step. destruct (is_nan v) eqn:Hn; cbn [orb].
  - symmetry. now apply nan_eq.
  - destruct (get_sign v); cbn [negb andb]; rewrite ?andb_false_r;
      rewrite ltb_irrefl; reflexivity.
Qed.

Lemma min_step_same (v : number) : min_step v v = v.
Proof.
  unfold min_step. destruct (is_nan v) eqn:Hn; cbn [orb].
  - symmetry. now apply nan_eq.
  - destruct (get_sign v); cbn [negb andb]; rewrite ?andb_false_r;
      rewrite ltb_irrefl; reflexivity.
Qed.

Lemma fold_max_same (l : list number) (v : number) :
  Forall (fun x => x = v) l -> fold_left max_step l v = v.
Proof.
  induction 1 as [|x l Hx _ IH]; [reflexivity|].
  cbn [fold_left]. rewrite Hx, max_step_same. exact IH.
Qed.

Lemma fold_min_same (l : list number) (v : number) :
  Forall (fun x => x = v) l -> fold_left min_step l v = v.
Proof.
  induction 1 as [|x l Hx _ IH]; [reflexivity|].
  cbn [fold_left]. rewrite Hx, min_step_same. exact IH.
Qed.

Lemma max_step_first (v : number) : max_step neg_infinity v = v.
Proof.
  unfold max_step. change (is_nan neg_infinity) with false. cbn [orb].
  destruct (is_nan v) eqn:Hn; [symmetry; now apply nan_eq|].
  change (is_zero neg_infinity) with false. rewrite andb_false_r. cbn [andb].
  destruct (neg_infinity <? v)%float eqn:E; [reflexivity|].
  symmetry. apply leb_neg_infinity. apply not_ltb_leb; [reflexivity|exact Hn|exact E].
Qed.

Lemma min_step_first (v : number) : min_step infinity v = v.
Proof.
  unfold min_step. change (is_nan infinity) with false. cbn [orb].
  destruct (is_nan v) eqn:Hn; [symmetry; now apply nan_eq|].
  change (is_zero infinity) with false. rewrite andb_false_r. cbn [andb].
  destruct (v <? infinity)%float eqn:E; [reflexivity|].
  symmetry. apply infinity_leb. apply not_ltb_leb; [exact Hn|reflexivity|exact E].
Qed.

Lemma Math_max_same (l : list number) (v : number) :
  l <> [] -> Forall (fun x => x = v) l -> Math_max l = v.
Proof.
  intros Hne H. destruct H as [|x l Hx H]; [congruence|].
  unfold Math_max. cbn [fold_left]. rewrite Hx, max_step_first. now apply fold_max_same.
Qed.

Lemma Math_min_same (l : list number) (v : number) :
  l <> [] -> Forall (fun x => x = v) l -> Math_min l = v.
Proof.
  intros Hne H. destruct H as [|x l Hx H]; [congruence|].
  unfold Math_min. cbn [fold_left]. rewrite Hx, min_step_first. now apply fold_min_same.
Qed.

Lemma normalizeFeatures_entry (data : list (list number)) (mins maxs : list number)
  (r i : nat) :
  (r < length data)%nat -> (i < length (nth r data []))%nat ->
  get (nth r (normalizeFeatures data mins maxs) []) i
  = ((get (nth r data []) i - get mins i) / (get maxs i - get mins i))%float.
Proof.
  intros Hr Hi. unfold normalizeFeatures.
  change (@nil number) with
    ((fun row : list number =>
        mapi (fun value i => ((value - get mins i) / (get maxs i - get mins i))%float) row) [])
    at 1.
  rewrite map_nth. unfold get at 1, mapi.
  rewrite (nth_mapi_from _ _ 0 i nan nan Hi). reflexivity.
Qed.

(** Min-max scaling, entry by entry: the output keeps the shape of the
    input; where the column's range [max - min] is positive and finite, the
    minimum goes to 0 and the maximum to 1; and an entry whose column has
    [min = max =] that entry goes to NaN ([0 / 0]). *)
Theorem normalizeFeatures_endpoints (data : list (list number)) (mins maxs : list number)
  (r i : nat) :
  (r < length data)%nat -> (i < length (nth r data []))%nat ->
  let v := get (nth r data []) i in
  let out := get (nth r (normalizeFeatures data mins maxs) []) i in
  length (normalizeFeatures data mins maxs) = length data
  /\ length (nth r (normalizeFeatures data mins maxs) []) = length (nth r data [])
  /\ ((0 <? get maxs i - get mins i)%float = true ->
      (get maxs i - get mins i <? infinity)%float = true ->
      (v = get mins i -> out = 0%float) /\ (v = get maxs i -> out = 1%float))
  /\ (get mins i = v -> get maxs i = v -> is_nan out = true).
Proof.
  intros Hr Hi v out.
  split; [unfold normalizeFeatures; apply length_map|].
  split.
  { unfold normalizeFeatures.
    change (@nil number) with
      ((fun row : list number =>
          mapi (fun value i => ((value - get mins i) / (get maxs i - get mins i))%float) row) [])
      at 1.
    rewrite map_nth. apply mapi_length. }
  assert (Hout : out = ((v - get mins i) / (get maxs i - get mins i))%float)
    by (apply normalizeFeatures_entry; assumption).
  split.
  - intros Hpos Hfin.
    destruct (positive_finite _ Hpos Hfin) as [m [e Hd]].
    split; intros Hv; rewrite Hout, Hv.
    + destruct (sub_finite_l _ _ _ _ _ Hd) as [_ Hmin].
      rewrite (sub_self _ Hmin). exact (zero_div_pos _ _ _ Hd).
    + exact (div_self _ _ _ _ Hd).
  - intros Hlo Hhi. rewrite Hout, Hlo, Hhi. apply self_quotient_nan.
Qed.

(** A feature with the same value in every training record: both bounds
    are that value, and the normalized column is NaN in every row. *)
Theorem constant_feature_is_nan (d : AirQualityData) (ds : list AirQualityData)
  (i : nat) (v : number) :
  (i < 6)%nat ->
  Forall (fun r => get (feature_row r) i = v) (d :: ds) ->
  exists features labels mins maxs,
    extractFeatures (d :: ds) = inr (features, labels, mins, maxs)
    /\ get mins i = v /\ get maxs i = v
    /\ length (normalizeFeatures features mins maxs) = length (d :: ds)
    /\ Forall (fun row => is_nan (get row i) = true) (normalizeFeatures features mins maxs).
Proof.
  intros Hi Hall.
  destruct (extractFeatures_columns d ds) as [mins [maxs [Hrun [_ [_ Hcol]]]]].
  eexists; eexists; exists mins, maxs. split; [exact Hrun|].
  assert (Hcolumn : Forall (fun x => x = v) (map (fun r => get (feature_row r) i) (d :: ds)))
    by (apply Forall_map; exact Hall).
  destruct (Hcol i Hi) as [Hmin Hmax].
  assert (Hne : map (fun r => get (feature_row r) i) (d :: ds) <> []) by discriminate.
  rewrite (Math_min_same _ v Hne Hcolumn) in Hmin.
  rewrite (Math_max_same _ v Hne Hcolumn) in Hmax.
  split; [exact Hmin|]. split; [exact Hmax|].
  split; [unfold normalizeFeatures; now rewrite !length_map|].
  unfold normalizeFeatures. rewrite map_map. apply Forall_map.
  eapply Forall_impl; [|exact Hall]. intros r Hr. cbv beta in *.
  unfold get at 1, mapi.
  rewrite (nth_mapi_from _ (feature_row r) 0 i nan nan Hi).
  cbn [Nat.add]. fold (get (feature_row r) i). rewrite Hr, Hmin, Hmax.
  apply self_quotient_nan.
Qed.

(* ------------------------------------------------------------------ *)
(** *** [train] as six one-vs-all trainings *)

Lemma after_models_succ (n k : nat) (g : RNG) :
  after_models RNG Math_random n k (snd (draw_weights n g))
  = after_models RNG Math_random n (S k) g.
Proof. unfold after_models. now rewrite Nat.iter_succ_r. Qed.

Lemma train_loop_models (row0 : list number) (rest : list (list number)) (labels : list Z) :
  (forall x, In x (row0 :: rest) -> length x = length row0) ->
  forall (n lo : nat) (w : World),
    forM_from RNG lo n
      (fun classLabel =>
         bind RNG (trainBinaryClassifier (row0 :: rest) labels (Z.of_nat classLabel))
           (fun model =>
              assign RNG (fun c => {| models := models c ++ [model];
                                      featureMins := featureMins c;
                                      featureMaxs := featureMaxs c |}))) w
    = Normal tt
        {| self :=
             {| models :=
                  models (self w)
                  ++ map (fun j =>
                            one_vs_all_model Math_exp RNG Math_random (row0 :: rest) labels
                              (Z.of_nat (lo + j))
                              (after_models RNG Math_random (length row0) j (rng w)))
                         (seq 0 n);
                featureMins := featureMins (self w);
                featureMaxs := featureMaxs (self w) |};
           rng := after_models RNG Math_random (length row0) n (rng w) |}.
Proof.
  intros Hrows. induction n as [|n IH]; intros lo w.
  - cbn [seq map]. rewrite app_nil_r. destruct w as [[ms mins maxs] g]. reflexivity.
  - cbn [forM_from]. unfold bind at 1, bind at 1.
    rewrite (trainBinaryClassifier_run row0 rest labels (Z.of_nat lo) w Hrows).
    unfold assign at 1. cbn [self rng].
    rewrite IH. cbn [self rng models featureMins featureMaxs].
    rewrite after_models_succ. rewrite <- app_assoc. cbn [app].
    f_equal. f_equal. f_equal. f_equal.
    cbn [seq map]. f_equal.
    + change (after_models RNG Math_random (length row0) 0 (rng w)) with (rng w).
      rewrite Nat.add_0_r. reflexivity.
    + rewrite <- seq_shift, map_map. apply map_ext. intros j.
      rewrite after_models_succ. now rewrite Nat.add_succ_r.
Qed.

Lemma train_closed_form (d : AirQualityData) (ds : list AirQualityData) (w : World) :
  exists mins maxs,
    extractFeatures (d :: ds)
    = inr (map feature_row (d :: ds), map (fun r => value (smogLevel r)) (d :: ds), mins, maxs)
    /\ train (d :: ds) w
       = Normal tt
           {| self :=
                {| models :=
                     map (fun k =>
                            one_vs_all_model Math_exp RNG Math_random
                              (normalizeFeatures (map feature_row (d :: ds)) mins maxs)
                              (map (fun r => value (smogLevel r)) (d :: ds))
                              (Z.of_nat k)
                              (after_models RNG Math_random 6 k (rng w)))
                         (seq 0 6);
                   featureMins := mins; featureMaxs := maxs |};
              rng := after_models RNG Math_random 6 6 (rng w) |}.
Proof.
  destruct (extractFeatures_cons d ds) as [mins [maxs [Hex [Hmins Hmaxs]]]].
  exists mins, maxs. split; [exact Hex|].
  unfold train. rewrite Hex.
  pose proof (normalizeFeatures_rows (d :: ds) mins maxs) as Hrows.
  destruct (normalizeFeatures (map feature_row (d :: ds)) mins maxs)
    as [|row0 rest] eqn:Hnorm.
  { unfold normalizeFeatures in Hnorm. simpl in Hnorm. discriminate. }
  assert (H6 : length row0 = 6%nat) by (apply Hrows; now left).
  assert (Huni : forall x, In x (row0 :: rest) -> length x = length row0)
    by (intros x Hx; rewrite H6; now apply Hrows).
  unfold bind at 1, assign at 1. unfold bind at 1, assign at 1.
  unfold bind at 1, assign at 1. cbn [self rng models featureMins featureMaxs].
  rewrite (train_loop_models row0 rest _ Huni numClasses 0).
  cbn [self rng models featureMins featureMaxs app]. rewrite H6. reflexivity.
Qed.

(** [train] on a non-empty record list, in closed form: the model at index
    [k] is the binary classifier of class [k] against the rest, fitted on
    the normalized training matrix from the weights drawn by the draws
    [6k .. 6k + 5] of the random source; 36 numbers are drawn in all; the
    bounds are those of [extractFeatures]; nothing of the previous state of
    the classifier enters the result. *)
Theorem train_one_vs_all (d : AirQualityData) (ds : list AirQualityData) (w : World) :
  exists mins maxs,
    extractFeatures (d :: ds)
    = inr (map feature_row (d :: ds), map (fun r => value (smogLevel r)) (d :: ds), mins, maxs)
    /\ train (d :: ds) w
       = Normal tt
           {| self :=
                {| models :=
                     map (fun k =>
                            one_vs_all_model Math_exp RNG Math_random
                              (normalizeFeatures (map feature_row (d :: ds)) mins maxs)
                              (map (fun r => value (smogLevel r)) (d :: ds))
                              (Z.of_nat k)
                              (after_models RNG Math_random 6 k (rng w)))
                         (seq 0 6);
                   featureMins := mins; featureMaxs := maxs |};
              rng := after_models RNG Math_random 6 6 (rng w) |}.
Proof. exact (train_closed_form d ds w). Qed.

(** Training again starts from scratch: from the same state of the random
    source, [train] on a non-empty list leaves the same classifier whatever
    it held before. *)
Theorem train_discards_previous (data : list AirQualityData) (w1 w2 : World) :
  data <> [] -> rng w1 = rng w2 -> train data w1 = train data w2.
Proof.
  intros Hne Hrng. destruct data as [|d ds]; [congruence|].
  destruct (train_closed_form d ds w1) as [mins1 [maxs1 [Hex1 Hrun1]]].
  destruct (train_closed_form d ds w2) as [mins2 [maxs2 [Hex2 Hrun2]]].
  rewrite Hex1 in Hex2. injection Hex2 as <- <-.
  rewrite Hrun1, Hrun2, Hrng. reflexivity.
Qed.

(* ------------------------------------------------------------------ *)
(** *** [evaluate]: empty test list, labels off the matrix, accuracy *)

Lemma accuracy_metrics_of (cm : list (list Z)) (pairs : list (Z * Z)) (roc : list RocPoint) :
  accuracy (metrics_of cm pairs roc)
  = (num_of_nat (length (filter (fun ap => Z.eqb (snd ap) (fst ap)) pairs))
     / num_of_nat (length pairs))%float.
Proof.
  unfold metrics_of. destruct (for_upto numClasses _ _) as [[tP tR] tF]. reflexivity.
Qed.

(** [evaluate([])]: no record, so the matrix stays at zero, every class
    metric takes its [|| 0] default and the three averages are 0 -- but
    the accuracy is [0 / 0], NaN.  The classifier is left as it was. *)
Theorem evaluate_empty (w : World) :
  exists m w',
    evaluate [] w = Normal m w'
    /\ is_nan (accuracy m) = true
    /\ precision m = 0%float /\ recall m = 0%float /\ f1Score m = 0%float
    /\ confusionMatrix m = zero_matrix
    /\ self w' = self w.
Proof.
  rewrite evaluate_run. cbn [eval_pairs map fill_pure].
  eexists; eexists. split; [reflexivity|].
  repeat split; reflexivity.
Qed.

Lemma eval_pairs_predictions (c : Classifier) (testData : list AirQualityData) :
  (length (models c) <= 6)%nat ->
  Forall (fun ap => -1 <= snd ap < 6) (eval_pairs c testData).
Proof.
  intros Hms. unfold eval_pairs. rewrite Forall_map. apply Forall_forall.
  intros d _. cbn [snd]. unfold predict_with. cbn [prediction].
  match goal with |- -1 <= indexOf ?l ?v < 6 => pose proof (indexOf_range l v) as Hr end.
  rewrite length_map in Hr. lia.
Qed.

Lemma fill_pure_throws (pairs : list (Z * Z)) :
  forall m,
    grid m ->
    Forall (fun ap => -1 <= snd ap < 6) pairs ->
    Exists (fun ap => fst ap < 0 \/ 5 < fst ap) pairs ->
    fill_pure m pairs = Filled_throw.
Proof.
  induction pairs as [|[a p] pairs IH]; intros m Hg Hp Hex; [inversion Hex|].
  inversion Hp as [|? ? Hp0 Hp']; subst. cbn [snd] in Hp0. cbn [fill_pure].
  destruct (Z_lt_dec a 0) as [Hneg|Hnn].
  { unfold bump_pure. apply Z.ltb_lt in Hneg. rewrite Hneg. reflexivity. }
  destruct (Z_lt_dec 5 a) as [Hbig|Hsmall].
  { unfold bump_pure. destruct Hg as [Hlen _]. rewrite Hlen.
    replace (Z.of_nat numClasses <=? a) with true
      by (symmetry; apply Z.leb_le; unfold numClasses; lia).
    rewrite orb_true_r. reflexivity. }
  destruct (bump_pure_spec m a p Hg ltac:(lia) Hp0) as [m' [Hb [Hg' _]]].
  rewrite Hb. apply IH; [exact Hg'|exact Hp'|].
  inversion Hex as [? ? Hbad|? ? Htail]; subst; [cbn [fst] in Hbad; lia|exact Htail].
Qed.

(** A test record whose label is not one of 0..5 has no row in the
    matrix: [evaluate] throws a [TypeError] at [confusionMatrix[actual[i]]],
    before any ROC point is drawn -- classifier and random source are left
    as they were. *)
Theorem evaluate_label_off_matrix (testData : list AirQualityData) (w : World) :
  (length (models (self w)) <= 6)%nat ->
  Exists (fun d => value (smogLevel d) < 0 \/ 5 < value (smogLevel d)) testData ->
  evaluate testData w = Throw TypeError w.
Proof.
  intros Hms Hex. rewrite evaluate_run.
  rewrite (fill_pure_throws _ zero_matrix zero_matrix_grid
             (eval_pairs_predictions (self w) testData Hms)); [reflexivity|].
  unfold eval_pairs. apply Exists_exists in Hex. destruct Hex as [d [Hd Hbad]].
  apply Exists_exists.
  exists (value (smogLevel d),
          prediction (predict_with (models (self w)) (featureMins (self w))
                                   (featureMaxs (self w)) (to_input d))).
  split; [|exact Hbad].
  apply (in_map (fun data =>
                   (value (smogLevel data),
                    prediction (predict_with (models (self w)) (featureMins (self w))
                                             (featureMaxs (self w)) (to_input data))))).
  exact Hd.
Qed.

Lemma accuracy_unit (testData : list AirQualityData) (w : World) (m : ModelMetrics)
  (w' : World) :
  testData <> [] ->
  Z.of_nat (length testData) < 2 ^ 53 ->
  evaluate testData w = Normal m w' ->
  (0 <=? accuracy m)%float = true /\ (accuracy m <=? 1)%float = true.
Proof.
  intros Hne Hlen Hrun. rewrite evaluate_run in Hrun.
  destruct (fill_pure zero_matrix (eval_pairs (self w) testData)); try discriminate.
  injection Hrun as Hm _. rewrite <- Hm, accuracy_metrics_of.
  set (pairs := eval_pairs (self w) testData).
  assert (Hpl : length pairs = length testData) by (unfold pairs, eval_pairs; apply length_map).
  pose proof (filter_length_le (fun ap => Z.eqb (snd ap) (fst ap)) pairs) as Hle.
  assert (Hpos : (0 < length testData)%nat)
    by (destruct testData; [congruence|simpl; lia]).
  unfold num_of_nat.
  destruct (ratio_spec (Z.of_nat (length (filter (fun ap => Z.eqb (snd ap) (fst ap)) pairs)))
                       (Z.of_nat (length pairs)) ltac:(lia) ltac:(lia))
    as [Hpf [Hv _]].
  split.
  - apply zero_leb_spec. apply sf_pn_nn. apply sf_pf_pn. exact Hpf.
  - apply leb_of_val; [now apply sf_pf_nnf|reflexivity|]. rewrite val_one. exact Hv.
Qed.

(** The accuracy [evaluate] reports on a non-empty test list is a number
    of [0, 1]: never NaN, never above 1; and [evaluate] does return when the
    labels are in 0..5 and there are at most six models. *)
Theorem evaluate_accuracy_range (testData : list AirQualityData) (w : World) :
  testData <> [] ->
  Z.of_nat (length testData) < 2 ^ 53 ->
  ((length (models (self w)) <= 6)%nat ->
   Forall (fun d => 0 <= value (smogLevel d) <= 5) testData ->
   exists m w', evaluate testData w = Normal m w')
  /\ forall m w',
       evaluate testData w = Normal m w' ->
       (0 <=? accuracy m)%float = true /\ (accuracy m <=? 1)%float = true.
Proof.
  intros Hne Hlen. split; [apply evaluate_returns|].
  intros m w' Hrun. exact (accuracy_unit testData w m w' Hne Hlen Hrun).
Qed.

(* ------------------------------------------------------------------ *)
(** *** The clamp in [sigmoid] *)

Lemma leb_not_ltb (a b : float) : (a <=? b)%float = true -> (b <? a)%float = false.
Proof.
  intros H. destruct (b <? a)%float eqn:E; [|reflexivity].
  pose proof (ltb_leb_trans _ _ _ E H) as Hc. rewrite ltb_irrefl in Hc. discriminate.
Qed.

Lemma clamp_high (z : number) :
  (500 <=? z)%float = true ->
  Math_max [(-500)%float; Math_min [500%float; z]] = 500%float.
Proof.
  intros H. destruct (leb_not_nan _ _ H) as [_ Hz].
  assert (E : Math_min [500%float; z] = 500%float).
  { unfold Math_min. cbn [fold_left].
    change (min_step infinity 500) with 500%float.
    unfold min_step. rewrite Hz. change (is_nan 500) with false.
    change (is_zero 500) with false. cbn [orb]. rewrite andb_false_r. cbn [andb].
    now rewrite (leb_not_ltb _ _ H). }
  rewrite E. reflexivity.
Qed.

Lemma clamp_low (z : number) :
  (z <=? -500)%float = true ->
  Math_max [(-500)%float; Math_min [500%float; z]] = (-500)%float.
Proof.
  intros H. destruct (leb_not_nan _ _ H) as [Hz _].
  assert (E : Math_min [500%float; z] = z).
  { unfold Math_min. cbn [fold_left].
    change (min_step infinity 500) with 500%float.
    unfold min_step. rewrite Hz. change (is_nan 500) with false.
    change (is_zero 500) with false. cbn [orb]. rewrite andb_false_r. cbn [andb].
    now rewrite (leb_ltb_trans z (-500) 500 H eq_refl). }
  rewrite E. unfold Math_max. cbn [fold_left].
  change (max_step neg_infinity (-500)) with (-500)%float.
  unfold max_step. rewrite Hz. change (is_nan (-500)) with false.
  change (is_zero (-500)) with false. cbn [orb]. rewrite andb_false_r. cbn [andb].
  now rewrite (leb_not_ltb _ _ H).
Qed.

Lemma clamp_inside (z : number) :
  (-500 <? z)%float = true -> (z <? 500)%float = true ->
  Math_max [(-500)%float; Math_min [500%float; z]] = z.
Proof.
  intros Hlo Hhi. destruct (ltb_not_nan _ _ Hhi) as [Hz _].
  assert (E : Math_min [500%float; z] = z).
  { unfold Math_min. cbn [fold_left].
    change (min_step infinity 500) with 500%float.
    unfold min_step. rewrite Hz. change (is_nan 500) with false.
    change (is_zero 500) with false. cbn [orb]. rewrite andb_false_r. cbn [andb].
    now rewrite Hhi. }
  rewrite E. unfold Math_max. cbn [fold_left].
  change (max_step neg_infinity (-500)) with (-500)%float.
  unfold max_step. rewrite Hz. change (is_nan (-500)) with false.
  change (is_zero (-500)) with false. cbn [orb]. rewrite andb_false_r. cbn [andb].
  now rewrite Hlo.
Qed.

Lemma clamp_nan (z : number) :
  is_nan z = true ->
  Math_max [(-500)%float; Math_min [500%float; z]] = nan.
Proof.
  intros Hz. unfold Math_max, Math_min.
  rewrite (fold_min_nan [500%float; z] infinity).
  - reflexivity.
  - apply Exists_cons_tl. now apply Exists_cons_hd.
Qed.

(** [sigmoid] clips its argument to [-500, 500] before [Math.exp] sees it:
    every argument from 500 up, +Infinity included, gives [sigmoid(500)],
    every argument from -500 down gives [sigmoid(-500)], an argument
    strictly between is used as it is, and NaN is passed on to
    [Math.exp]. *)
Theorem sigmoid_clipped (z : number) :
  ((500 <=? z)%float = true -> sigmoid z = sigmoid 500)
  /\ ((z <=? -500)%float = true -> sigmoid z = sigmoid (-500))
  /\ ((-500 <? z)%float = true -> (z <? 500)%float = true ->
      sigmoid z = (1 / (1 + Math_exp (- z)))%float)
  /\ (is_nan z = true -> sigmoid z = (1 / (1 + Math_exp nan))%float)
  /\ sigmoid 500 = (1 / (1 + Math_exp (-500)))%float
  /\ sigmoid (-500) = (1 / (1 + Math_exp 500))%float.
Proof.
  unfold sigmoid.
  split; [intros H; now rewrite (clamp_high z H)|].
  split; [intros H; now rewrite (clamp_low z H)|].
  split; [intros Hlo Hhi; now rewrite (clamp_inside z Hlo Hhi)|].
  split; [intros H; now rewrite (clamp_nan z H)|].
  split; reflexivity.
Qed.

(* ------------------------------------------------------------------ *)
(** *** [getFeatureImportance] on any classifier *)

(** [getFeatureImportance] never throws and changes nothing: whatever the
    models are it returns six entries, one per feature name, holding the
    scores [average / largest average] in some order; on a classifier
    without models every score is NaN ([0 / 0]) and the features keep the
    order of [featureNames]. *)
Theorem feature_importance_names (w : World) :
  exists scores,
    getFeatureImportance w = Normal scores w
    /\ length scores = 6%nat
    /\ Permutation (map feature scores) featureNames
    /\ Permutation scores (normalized_scores (models (self w)))
    /\ (models (self w) = [] ->
        scores = map (fun name => {| feature := name; importance := nan |}) featureNames).
Proof.
  exists (sort by_importance_desc (normalized_scores (models (self w)))).
  split; [apply getFeatureImportance_run|].
  pose proof (sort_perm by_importance_desc (normalized_scores (models (self w)))) as Hperm.
  split; [rewrite (Permutation_length Hperm); reflexivity|].
  split; [rewrite (Permutation_map feature Hperm); reflexivity|].
  split; [exact Hperm|].
  intros Hms. rewrite Hms. reflexivity.
Qed.

(* ------------------------------------------------------------------ *)
(** *** [evaluate] on generated records *)

(** A test list whose labels all come out of [getSmogLevel] -- as those of
    the generated data do -- never makes [evaluate] throw. *)
Theorem evaluate_generated_labels (testData : list AirQualityData) (w : World) :
  (length (models (self w)) <= 6)%nat ->
  Forall (fun d => exists aqi, smogLevel d = smog (getSmogLevel aqi)) testData ->
  exists m w', evaluate testData w = Normal m w' /\ self w' = self w.
Proof.
  intros Hms Hgen.
  assert (Hlabels : Forall (fun d => 0 <= value (smogLevel d) <= 5) testData).
  { eapply Forall_impl; [|exact Hgen]. intros d [aqi ->].
    unfold getSmogLevel.
    repeat match goal with
           | |- context [if (?x <=? ?c)%float then _ else _] => destruct (x <=? c)%float
           end; cbn [value smog]; lia. }
  destruct (evaluate_returns testData w Hms Hlabels) as [m [w' Hrun]].
  exists m, w'. split; [exact Hrun|].
  pose proof (evaluate_self testData w) as Hself. rewrite Hrun in Hself. exact Hself.
Qed.

(* ------------------------------------------------------------------ *)
(** *** The ROC points lie in the unit square *)

(** With [Math.random()] answering in [0, 1), every point of the curve
    [evaluate] returns has both rates in [0, 1]: none is NaN, negative or
    above 1. *)
Theorem roc_points_in_unit_square (testData : list AirQualityData) (w : World) :
  Forall (fun r => (0 <=? r)%float = true /\ (r <? 1)%float = true) (draws 11 (rng w)) ->
  forall m w',
    evaluate testData w = Normal m w' ->
    Forall (fun pt => ((0 <=? fpr pt)%float = true /\ (fpr pt <=? 1)%float = true)
                      /\ ((0 <=? tpr pt)%float = true /\ (tpr pt <=? 1)%float = true))
           (rocCurve m).
Proof.
  intros Hdraws m w' Hrun.
  destruct (roc_curve_of_run testData w m w' Hrun Hdraws) as [_ [Hlen [_ Hnth]]].
  apply Forall_forall. intros pt Hin.
  destruct (In_nth _ _ {| fpr := 0; tpr := 0 |} Hin) as [i [Hi Hpt]].
  rewrite Hlen in Hi.
  destruct (Hnth i {| fpr := 0; tpr := 0 |} Hi) as [jitter [Hj0 [Hj1 E]]].
  subst pt. rewrite E. cbn [fpr tpr].
  assert (Hf : (0 <=? num_of_nat i / 10)%float = true
               /\ (num_of_nat i / 10 <=? 1)%float = true).
  { unfold num_of_nat. change 10%float with (num_of_Z 10).
    destruct (ratio_spec (Z.of_nat i) 10 ltac:(lia) ltac:(lia)) as [Hpf [Hv _]].
    split.
    - apply zero_leb_spec. apply sf_pn_nn. apply sf_pf_pn. exact Hpf.
    - apply leb_of_val; [now apply sf_pf_nnf|reflexivity|]. rewrite val_one. exact Hv. }
  split; [exact Hf|].
  set (x := (num_of_nat i / 10 + 0.1 + jitter)%float).
  assert (Hx : (0 <=? x)%float = true).
  { unfold x. apply add_nonneg; [|exact Hj0].
    apply add_nonneg; [apply Hf|reflexivity]. }
  destruct (leb_not_nan _ _ Hx) as [_ Hxn].
  assert (Hall : Forall (fun y => is_nan y = false) [1%float; x])
    by (repeat constructor; assumption).
  destruct (Math_min_spec [1%float; x] ltac:(discriminate) Hall) as [_ [Hle [y [Hy Ey]]]].
  split.
  - apply leb_trans with y; [|now apply eqb_leb].
    destruct Hy as [<-|[<-|[]]]; [reflexivity|exact Hx].
  - apply Hle. now left.
Qed.

(* ------------------------------------------------------------------ *)
(** *** Training and prediction scale alike *)

Lemma trained_probabilities (f : LogisticRegressionModel -> number)
  (ms : list LogisticRegressionModel) :
  Forall (fun m => trained m = true) ms ->
  map (fun model => if negb (trained model) then 0%float else f model) ms = map f ms.
Proof.
  intros H. apply map_ext_in. intros m Hm.
  rewrite Forall_forall in H. now rewrite (H m Hm).
Qed.

(** After [train], [predict] on a record of the training list hands every
    model exactly the normalized row it was fitted on: the probabilities
    are the sigmoids of the models' scores on row [r] of the normalized
    training matrix, none is the untrained default, and the bounds used
    are those of the training list. *)
Theorem predict_on_training_record (d : AirQualityData) (ds : list AirQualityData)
  (w : World) (r : nat) :
  (r < length (d :: ds))%nat ->
  exists mins maxs w',
    extractFeatures (d :: ds)
    = inr (map feature_row (d :: ds), map (fun x => value (smogLevel x)) (d :: ds), mins, maxs)
    /\ train (d :: ds) w = Normal tt w'
    /\ featureMins (self w') = mins /\ featureMaxs (self w') = maxs
    /\ exists res,
         predict (to_input (nth r (d :: ds) d)) w' = Normal res w'
         /\ probabilities res
            = map (fun model =>
                     sigmoid (forward (weights model) (bias model)
                                (nth r (normalizeFeatures (map feature_row (d :: ds)) mins maxs)
                                     [])))
                  (models (self w')).
Proof.
  intros Hr.
  destruct (train_closed_form d ds w) as [mins [maxs [Hex Hrun]]].
  eexists mins, maxs, _. split; [exact Hex|]. split; [exact Hrun|].
  cbn [self featureMins featureMaxs models].
  split; [reflexivity|]. split; [reflexivity|].
  eexists. split; [apply predict_run|].
  cbn [self featureMins featureMaxs models]. unfold predict_with. cbn [probabilities].
  rewrite trained_probabilities by (repeat constructor).
  apply map_ext. intros model. do 2 f_equal.
  unfold normalizeFeatures. rewrite map_map.
  set (F := fun x : AirQualityData =>
              mapi (fun value i => ((value - get mins i) / (get maxs i - get mins i))%float)
                   (feature_row x)).
  rewrite (nth_indep (map F (d :: ds)) [] (F d)) by (rewrite length_map; exact Hr).
  rewrite (map_nth F). unfold F.
  destruct (nth r (d :: ds) d); reflexivity.
Qed.

(* ------------------------------------------------------------------ *)
(** *** Numbers of the unit interval *)

(** Rounding stays above a representable bound. *)

(** Dropping the low bits of a mantissa, as rounding to the format's
    exponent does, does not go below a representable number that the
    value was not below. *)
Lemma floor_ge (m e B F : Z) :
  0 < m -> 0 < B -> -1074 <= e ->
  fexp prec emax (Zdigits2 B + F) = F ->
  val B F <= val m e ->
  val B F <= val (m / 2 ^ (Z.max e (fexp prec emax (Zdigits2 m + e)) - e))
                 (Z.max e (fexp prec emax (Zdigits2 m + e))).
Proof.
  intros Hm HB He Hcan Hv.
  assert (HF : -1074 <= F) by (rewrite <- Hcan; apply fexp_ge_emin).
  set (e' := Z.max e (fexp prec emax (Zdigits2 m + e))).
  destruct (Z.eq_dec e' e) as [Heq|Hneq].
  { rewrite Heq, Z.sub_diag, Z.div_1_r. exact Hv. }
  assert (He' : e' = Zdigits2 m + e - 53).
  { unfold e' in *. rewrite fexp_eq in *. lia. }
  assert (Hk : 0 < e' - e) by (unfold e' in *; lia).
  assert (Hd : Zdigits2 B + F <= Zdigits2 m + e)
    by (apply val_le_digits; try assumption; unfold OFF; lia).
  destruct (Zdigits2_bounds m Hm) as [Hdm [Hmlo Hmhi]].
  destruct (Z.eq_dec (Zdigits2 B + F) (Zdigits2 m + e)) as [Hsame|Hless].
  - assert (HFe : F = e').
    { rewrite <- Hcan, Hsame. rewrite fexp_eq. lia. }
    rewrite HFe in *. apply val_mono; [unfold OFF; lia|].
    apply Z.div_le_lower_bound; [apply p2_pos; lia|].
    replace e' with (e + (e' - e)) in Hv at 1 by lia.
    rewrite val_shift in Hv by (unfold OFF; lia).
    apply val_cancel in Hv; [|unfold OFF; lia]. lia.
  - destruct (val_digits B F HB ltac:(unfold OFF; lia)) as [_ Hhi].
    assert (H1 : 2 ^ (Zdigits2 B + F + OFF) <= 2 ^ (Zdigits2 m + e - 1 + OFF))
      by (apply p2_le; destruct (Zdigits2_bounds B HB); unfold OFF; lia).
    assert (H2 : 2 ^ 52 <= m / 2 ^ (e' - e)).
    { apply Z.div_le_lower_bound; [apply p2_pos; lia|].
      rewrite Z.mul_comm, <- p2_add by lia.
      replace (52 + (e' - e)) with (Zdigits2 m - 1) by lia. exact Hmlo. }
    assert (H3 : val (2 ^ 52) e' <= val (m / 2 ^ (e' - e)) e')
      by (apply val_mono; [unfold OFF; lia|exact H2]).
    rewrite val_p2 in H3 by (unfold OFF; lia).
    replace (52 + e' + OFF) with (Zdigits2 m + e - 1 + OFF) in H3 by lia.
    lia.
Qed.

Lemma round_lower (sx : bool) (M E : Z) (l : location) (B F : Z) :
  0 < M -> 0 < B -> -1074 <= E ->
  fexp prec emax (Zdigits2 B + F) = F ->
  val B F <= val M E ->
  match binary_round_aux prec emax sx M E l with
  | S754_finite s m e => s = sx /\ -1074 <= e /\ val B F <= val (Zpos m) e
  | S754_infinity s => s = sx
  | _ => False
  end.
Proof.
  intros HM HB HE Hcan Hv.
  assert (HF : -1074 <= F) by (rewrite <- Hcan; apply fexp_ge_emin).
  assert (HBpos : 0 < val B F).
  { unfold val. apply Z.mul_pos_pos; [lia|apply p2_pos; unfold OFF; lia]. }
  destruct (binary_round_aux_spec sx M E l ltac:(lia))
    as [m2 [m3 [e1 [e3 [He1 [Hm2 [He3 [Hm3 [Hm3pos Hres]]]]]]]]].
  rewrite Hres. clear Hres.
  pose proof (floor_ge M E B F HM HB HE Hcan Hv) as H1. rewrite <- He1 in H1.
  assert (He1lo : -1074 <= e1) by lia.
  assert (H2 : val B F <= val m2 e1).
  { eapply Z.le_trans; [exact H1|]. apply val_mono; [unfold OFF; lia|lia]. }
  assert (Hm2pos : 0 < m2).
  { destruct (Z_lt_le_dec 0 m2) as [|Hle]; [assumption|exfalso].
    assert (val m2 e1 <= 0); [|lia].
    unfold val. apply Z.mul_nonpos_nonneg; [lia|].
    apply Z.lt_le_incl, p2_pos. unfold OFF. lia. }
  pose proof (floor_ge m2 e1 B F Hm2pos HB He1lo Hcan H2) as H3.
  rewrite <- He3, <- Hm3 in H3.
  destruct m3 as [|p|p]; [|  |lia].
  - exfalso. unfold val in H3 at 2. simpl in H3. lia.
  - destruct (e3 <=? emax - prec); [|reflexivity].
    split; [reflexivity|]. split; [lia|exact H3].
Qed.

Lemma binary_round_lower (mx : positive) (ex B F : Z) :
  0 < B -> -1074 <= ex ->
  fexp prec emax (Zdigits2 B + F) = F ->
  val B F <= val (Zpos mx) ex ->
  match binary_round prec emax false mx ex with
  | S754_finite s m e => s = false /\ -1074 <= e /\ val B F <= val (Zpos m) e
  | S754_infinity s => s = false
  | _ => False
  end.
Proof.
  intros HB He Hcan Hv.
  destruct (binary_round_unfold false mx ex) as [mz [ez [Hr [Hez Hmz]]]].
  rewrite Hr.
  pose proof (fexp_ge_emin (Zdigits2 (Z.pos mx) + ex)) as Hfe.
  apply round_lower; try assumption; try lia.
  rewrite Hmz. replace ex with (ez + (ex - ez)) in Hv by lia.
  rewrite val_shift in Hv by (unfold OFF; lia). exact Hv.
Qed.

(** Adding a number that is not negative to a positive finite one does
    not make it smaller. *)
Lemma add_ge_l (x y : float) (m : positive) (e : Z) :
  Prim2SF x = S754_finite false m e ->
  (0 <=? y)%float = true ->
  (x <=? x + y)%float = true.
Proof.
  intros Hx Hy. apply zero_leb_spec in Hy.
  pose proof (Prim2SF_valid x) as Vx. pose proof (Prim2SF_valid y) as Vy.
  pose proof (Prim2SF_valid (x + y)) as Vs.
  rewrite leb_spec. rewrite add_spec in *. rewrite Hx in *.
  destruct (valid_finite _ _ _ Vx) as [Hcx Hex].
  destruct (Prim2SF y) as [sy|sy| |sy my ey]; simpl in Hy; try contradiction.
  - cbn [SF64add SFadd]. unfold SFleb. rewrite SFcompare_refl by discriminate. reflexivity.
  - subst sy. reflexivity.
  - subst sy. destruct (valid_finite _ _ _ Vy) as [Hcy Hey].
    unfold SF64add, SFadd in *. cbn [cond_Zopp] in *.
    set (ez := Z.min e ey) in *.
    change (Z.pos (fst (shl_align m e ez)) + Z.pos (fst (shl_align my ey ez)))
      with (Z.pos (fst (shl_align m e ez) + fst (shl_align my ey ez))) in *.
    cbn [binary_normalize] in *.
    pose proof (binary_round_lower (fst (shl_align m e ez) + fst (shl_align my ey ez))
                  ez (Zpos m) e) as Hlow.
    assert (Hv : val (Zpos m) e
                 <= val (Z.pos (fst (shl_align m e ez) + fst (shl_align my ey ez))) ez).
    { rewrite Pos2Z.inj_add, shl_align_fst by (unfold ez; lia).
      replace e with (ez + (e - ez)) at 1 by lia.
      rewrite val_shift by (unfold ez, OFF; lia).
      apply val_mono; [unfold ez, OFF; lia|lia]. }
    specialize (Hlow ltac:(lia) ltac:(unfold ez; lia) Hcx Hv).
    destruct (binary_round prec emax false _ ez) as [s|s| |s m' e'] eqn:Er;
      try contradiction.
    + subst s. reflexivity.
    + destruct Hlow as [-> [He' Hle]].
      apply sf_leb_val; try assumption; try reflexivity.
Qed.

Lemma opp_not_nan (x : float) : is_nan x = false -> is_nan (- x) = false.
Proof.
  rewrite !not_nan_spec, opp_spec. destruct (Prim2SF x); simpl; congruence.
Qed.

Lemma clamp_not_nan (z : number) :
  is_nan z = false ->
  is_nan (Math_max [(-500)%float; Math_min [500%float; z]]) = false.
Proof.
  intros Hz.
  assert (H1 : Forall (fun x => is_nan x = false) [500%float; z])
    by (repeat constructor; assumption).
  destruct (Math_min_spec [500%float; z] ltac:(discriminate) H1) as [Hmin _].
  assert (H2 : Forall (fun x => is_nan x = false)
                      [(-500)%float; Math_min [500%float; z]])
    by (repeat constructor; assumption).
  destruct (Math_max_spec [(-500)%float; Math_min [500%float; z]] ltac:(discriminate) H2)
    as [Hmax _].
  exact Hmax.
Qed.

(** The reciprocal of one plus a number that is not negative. *)
Lemma logistic_range (e : float) :
  (0 <=? e)%float = true ->
  (0 <=? 1 / (1 + e))%float = true /\ (1 / (1 + e) <=? 1)%float = true.
Proof.
  intros He.
  pose proof (add_ge_l 1 e _ _ Prim2SF_one He) as H1.
  destruct (leb_not_nan _ _ H1) as [_ Hn].
  assert (Hpos : (0 <? 1 + e)%float = true)
    by (apply ltb_leb_trans with 1%float; [reflexivity|exact H1]).
  destruct (1 + e <? infinity)%float eqn:Hfin.
  - apply div_bounds; [reflexivity|exact H1|exact Hpos|exact Hfin].
  - assert (E : (1 + e)%float = infinity).
    { apply infinity_leb. apply not_ltb_leb; [exact Hn|reflexivity|exact Hfin]. }
    rewrite E. split; reflexivity.
Qed.

Lemma div_nan_r (x y : float) : is_nan y = true -> is_nan (x / y) = true.
Proof.
  rewrite !is_nan_spec, div_spec. intros ->. destruct (Prim2SF x); reflexivity.
Qed.

(** The reciprocal of one plus a number that is not negative, NaN let
    through. *)
Lemma logistic_range_or_nan (e : float) :
  (e <? 0)%float = false ->
  is_nan (1 / (1 + e)) = true
  \/ ((0 <=? 1 / (1 + e))%float = true /\ (1 / (1 + e) <=? 1)%float = true).
Proof.
  intros He. destruct (is_nan e) eqn:Hn.
  - left. apply div_nan_r. now apply add_nan_r.
  - right. apply logistic_range. apply not_ltb_leb; [exact Hn|reflexivity|exact He].
Qed.

(** A square is never negative. *)
Lemma square_not_negative (y : float) : (y * y <? 0)%float = false.
Proof.
  rewrite ltb_spec, mul_spec, Prim2SF_zero.
  destruct (Prim2SF y) as [s|s| |s m e].
  - destruct s; reflexivity.
  - destruct s; reflexivity.
  - reflexivity.
  - unfold SF64mul, SFmul. rewrite xorb_nilpotent.
    pose proof (round_sign false (Z.pos (m * m)) (e + e) loc_Exact ltac:(lia)) as H.
    destruct (binary_round_aux prec emax false (Z.pos (m * m)) (e + e) loc_Exact)
      as [s'|s'| |s' m' e']; try contradiction; subst; reflexivity.
Qed.

(** [sigmoid] is a number of [0, 1] wherever [Math.exp] answers a number
    that is not negative at the clipped argument. *)
Theorem sigmoid_range (z : number) :
  (0 <=? Math_exp (- Math_max [(-500)%float; Math_min [500%float; z]]))%float = true ->
  (0 <=? sigmoid z)%float = true /\ (sigmoid z <=? 1)%float = true.
Proof. intros H. unfold sigmoid. now apply logistic_range. Qed.

Section NonNegativeExp.
Hypothesis Math_exp_not_negative : forall t, (Math_exp t <? 0)%float = false.

(** With a [Math.exp] that never answers a negative number, every
    probability [predict] returns is NaN or a number of [0, 1]; and when
    there is a model and no probability is NaN, so is the confidence. *)
Theorem predict_probabilities_range (input : PredictionInput) (w : World) :
  exists r,
    predict input w = Normal r w
    /\ Forall (fun p => is_nan p = true
                        \/ ((0 <=? p)%float = true /\ (p <=? 1)%float = true))
              (probabilities r)
    /\ (models (self w) <> [] ->
        Forall (fun p => is_nan p = false) (probabilities r) ->
        (0 <=? confidence r)%float = true /\ (confidence r <=? 1)%float = true).
Proof.
  eexists. split; [apply predict_run|].
  set (r := predict_with _ _ _ _).
  assert (Hall : Forall (fun p => is_nan p = true
                           \/ ((0 <=? p)%float = true /\ (p <=? 1)%float = true))
                        (probabilities r)).
  { unfold r, predict_with. cbn [probabilities]. apply Forall_map, Forall_forall.
    intros model _. destruct (trained model); cbn [negb].
    - unfold sigmoid. apply logistic_range_or_nan. apply Math_exp_not_negative.
    - right. split; reflexivity. }
  split; [exact Hall|].
  intros Hms Hnn.
  assert (Hne : probabilities r <> []).
  { unfold r, predict_with. cbn [probabilities]. destruct (models (self w)); [congruence|].
    discriminate. }
  destruct (Math_max_spec (probabilities r) Hne Hnn) as [_ [_ [x [Hx Ex]]]].
  change (Math_max (probabilities r)) with (confidence r) in Ex.
  rewrite Forall_forall in Hall, Hnn.
  destruct (Hall x Hx) as [Hnan|[H0 H1]]; [rewrite (Hnn x Hx) in Hnan; discriminate|].
  split.
  - apply leb_trans with x; [exact H0|now apply eqb_leb].
  - apply leb_trans with x; [|exact H1]. apply eqb_leb. now rewrite eqb_sym.
Qed.

End NonNegativeExp.

(** Rounding a representable value, and rounding below one. *)

Lemma round_exact (sx : bool) (B : positive) (F E : Z) :
  fexp prec emax (Zdigits2 (Zpos B) + F) = F -> E <= F -> F <= 971 ->
  binary_round_aux prec emax sx (Zpos B * 2 ^ (F - E)) E loc_Exact
  = S754_finite sx B F.
Proof.
  intros Hcan HE HF.
  destruct (Z.eq_dec E F) as [->|Hne].
  { rewrite Z.sub_diag, Z.mul_1_r. now apply binary_round_aux_canonical. }
  set (M := Zpos B * 2 ^ (F - E)).
  assert (Hn : 0 < F - E) by lia.
  assert (HMpos : 0 < M) by (unfold M; pose proof (p2_pos (F - E)); nia).
  assert (HdM : Zdigits2 M + E = Zdigits2 (Zpos B) + F).
  { unfold M. rewrite Zdigits2_mul_p2 by lia. lia. }
  assert (Hfe : fexp prec emax (Zdigits2 M + E) = F) by (rewrite HdM; exact Hcan).
  assert (Hdiv : M / 2 ^ (F - E) = Zpos B).
  { unfold M. apply Z.div_mul. pose proof (p2_pos (F - E)). lia. }
  unfold binary_round_aux.
  destruct (shr_fexp_spec M E loc_Exact ltac:(lia)) as [He1 Hm1].
  rewrite Hfe in He1, Hm1. rewrite Z.max_r in He1, Hm1 by lia.
  assert (Hm2 : round_nearest_even (shr_m (fst (shr_fexp prec emax M E loc_Exact)))
                  (loc_of_shr_record (fst (shr_fexp prec emax M E loc_Exact)))
                = Zpos B).
  { rewrite shr_fexp_round_down; [rewrite Hfe; exact Hdiv|lia|rewrite Hfe; lia|].
    rewrite Hfe. apply testbit_small_mod; [lia|lia|].
    unfold M. rewrite Z.mod_mul by (pose proof (p2_pos (F - E)); lia).
    apply p2_pos. lia. }
  destruct (shr_fexp prec emax M E loc_Exact) as [mrs1 e1]. cbn [fst snd] in *.
  subst e1. rewrite Hm2.
  destruct (shr_fexp_spec (Zpos B) F loc_Exact ltac:(lia)) as [He3 Hm3].
  rewrite Hcan in He3, Hm3. rewrite Z.max_id in He3, Hm3.
  rewrite Z.sub_diag, Z.div_1_r in Hm3.
  destruct (shr_fexp prec emax (Zpos B) F loc_Exact) as [mrs3 e3]. cbn [fst snd] in *.
  subst e3. rewrite Hm3. change (emax - prec) with 971.
  destruct (Z.leb_spec F 971); [reflexivity|lia].
Qed.

(** Rounding does not go above a representable number that the value was
    not above. *)
Lemma round_le (M E : Z) (B : positive) (F : Z) :
  0 < M -> - OFF <= E -> E <= F ->
  fexp prec emax (Zdigits2 (Zpos B) + F) = F -> F <= 971 ->
  val M E <= val (Zpos B) F ->
  match binary_round_aux prec emax false M E loc_Exact with
  | S754_zero s => s = false
  | S754_finite s m e => s = false /\ - OFF <= e /\ val (Zpos m) e <= val (Zpos B) F
  | _ => False
  end.
Proof.
  intros HM He HeF Hcan HF Hv.
  destruct (Z_le_lt_eq_dec _ _ Hv) as [Hlt|Heq].
  - apply round_upper; try assumption; try lia.
    replace F with (E + (F - E)) by lia. rewrite val_shift by lia.
    apply val_mono; [lia|].
    replace F with (E + (F - E)) in Hlt by lia.
    rewrite val_shift in Hlt by lia.
    apply val_cancel_lt in Hlt; lia.
  - assert (Hm : M = Zpos B * 2 ^ (F - E)).
    { replace F with (E + (F - E)) in Heq by lia.
      rewrite val_shift in Heq by lia.
      assert (H1 : M <= Zpos B * 2 ^ (F - E)) by (apply (val_cancel _ _ E); lia).
      assert (H2 : Zpos B * 2 ^ (F - E) <= M) by (apply (val_cancel _ _ E); lia).
      lia. }
    rewrite Hm, round_exact by assumption.
    assert (-1074 <= F) by (rewrite <- Hcan; apply fexp_ge_emin).
    split; [reflexivity|]. split; [unfold OFF; lia|lia].
Qed.

Lemma binary_round_le (mx : positive) (ex : Z) (B : positive) (F : Z) :
  -1074 <= ex -> ex <= F ->
  fexp prec emax (Zdigits2 (Zpos B) + F) = F -> F <= 971 ->
  val (Zpos mx) ex <= val (Zpos B) F ->
  match binary_round prec emax false mx ex with
  | S754_finite s m e => s = false /\ - OFF <= e /\ val (Zpos m) e <= val (Zpos B) F
  | _ => False
  end.
Proof.
  intros He HeF Hcan HF Hv.
  pose proof (binary_round_pos false mx ex He) as Hpos.
  destruct (binary_round_unfold false mx ex) as [mz [ez [Hr [Hez Hmz]]]].
  rewrite Hr in *.
  pose proof (fexp_ge_emin (Zdigits2 (Z.pos mx) + ex)) as Hfe.
  assert (Hup : match binary_round_aux prec emax false (Zpos mz) ez loc_Exact with
                | S754_zero s => s = false
                | S754_finite s m e =>
                    s = false /\ - OFF <= e /\ val (Zpos m) e <= val (Zpos B) F
                | _ => False
                end).
  { apply round_le; try assumption; try lia; [unfold OFF; lia|].
    rewrite Hmz. rewrite <- val_shift by (unfold OFF; lia).
    replace (ez + (ex - ez)) with ex by lia. exact Hv. }
  destruct (binary_round_aux prec emax false (Zpos mz) ez loc_Exact) as [s|s| |s m e];
    try contradiction. exact Hup.
Qed.

Lemma val_add (a b e : Z) : val (a + b) e = val a e + val b e.
Proof. unfold val. lia. Qed.

Lemma unit_exponent (m : positive) (e : Z) :
  fexp prec emax (Zdigits2 (Zpos m) + e) = e ->
  val (Zpos m) e <= val 1 0 -> e <= -52.
Proof.
  intros Hcan Hv.
  assert (H1 : val 1 0 = val 4503599627370496 (-52)).
  { change 4503599627370496 with (1 * 2 ^ 52).
    rewrite <- val_shift by (unfold OFF; lia). reflexivity. }
  rewrite H1 in Hv.
  apply canonical_val_le_iff in Hv; [lia|lia|lia|assumption|reflexivity].
Qed.

(** The canonical mantissa and exponent of a positive integer below
    [2^53]. *)
Lemma canonical_nat (k : positive) :
  Zpos k < 2 ^ 53 ->
  exists (B : positive) (F : Z),
    fexp prec emax (Zdigits2 (Zpos B) + F) = F /\ -52 <= F <= 0
    /\ val (Zpos B) F = val (Zpos k) 0.
Proof.
  intros Hk.
  destruct (Zdigits2_bounds (Zpos k) ltac:(lia)) as [Hd [Hlo Hhi]].
  assert (Hd53 : Zdigits2 (Zpos k) <= 53) by (apply Zdigits2_le; lia).
  set (d := Zdigits2 (Zpos k)) in *.
  assert (Hpos : 0 < Zpos k * 2 ^ (53 - d)) by (pose proof (p2_pos (53 - d)); nia).
  exists (Z.to_pos (Zpos k * 2 ^ (53 - d))), (d - 53).
  rewrite Z2Pos.id by exact Hpos.
  split; [|split; [lia|]].
  - rewrite Zdigits2_mul_p2 by lia. fold d. rewrite fexp_eq. lia.
  - rewrite <- val_shift by (unfold OFF; lia). f_equal. lia.
Qed.

(** Adding a number of [0, 1] to a number of [0, k]. *)
Lemma add_le_nat (x y : float) (k : Z) :
  0 <= k -> k + 1 < 2 ^ 53 ->
  sf_pf (Prim2SF x) -> sf_pf (Prim2SF y) ->
  sf_val (Prim2SF x) <= val k 0 -> sf_val (Prim2SF y) <= val 1 0 ->
  sf_pf (Prim2SF (x + y)) /\ sf_val (Prim2SF (x + y)) <= val (k + 1) 0.
Proof.
  intros Hk Hk53 Hx Hy Hvx Hvy.
  pose proof (Prim2SF_valid x) as Vx. pose proof (Prim2SF_valid y) as Vy.
  assert (Hmono : forall a b, a <= b -> val a 0 <= val b 0)
    by (intros a b Hab; apply val_mono; [unfold OFF; lia|exact Hab]).
  rewrite add_spec.
  destruct (Prim2SF x) as [sx| | |sx mx ex] eqn:Ex; simpl in Hx; try contradiction; subst;
    destruct (Prim2SF y) as [sy| | |sy my ey] eqn:Ey; simpl in Hy; try contradiction; subst.
  - split; [reflexivity|]. cbn. apply (Hmono 0). lia.
  - cbn [SF64add SFadd sf_pf sf_val] in *. split; [reflexivity|].
    pose proof (Hmono 1 (k + 1) ltac:(lia)). lia.
  - cbn [SF64add SFadd sf_pf sf_val] in *. split; [reflexivity|].
    pose proof (Hmono k (k + 1) ltac:(lia)). lia.
  - cbn [sf_val] in Hvx, Hvy.
    destruct (valid_finite _ _ _ Vx) as [Hcx Hex].
    destruct (valid_finite _ _ _ Vy) as [Hcy Hey].
    pose proof (unit_exponent my ey Hcy Hvy) as Hey52.
    destruct (canonical_nat (Z.to_pos (k + 1)) ltac:(rewrite Z2Pos.id; lia))
      as [B [F [Hcan [HF HvB]]]].
    rewrite Z2Pos.id in HvB by lia.
    unfold SF64add, SFadd. cbn [cond_Zopp].
    set (ez := Z.min ex ey).
    change (Z.pos (fst (shl_align mx ex ez)) + Z.pos (fst (shl_align my ey ez)))
      with (Z.pos (fst (shl_align mx ex ez) + fst (shl_align my ey ez))).
    cbn [binary_normalize].
    pose proof (binary_round_le (fst (shl_align mx ex ez) + fst (shl_align my ey ez))
                  ez B F) as Hup.
    assert (Hv : val (Z.pos (fst (shl_align mx ex ez) + fst (shl_align my ey ez))) ez
                 <= val (Zpos B) F).
    { rewrite Pos2Z.inj_add, val_add, !shl_align_fst by (unfold ez; lia).
      rewrite <- !val_shift by (unfold ez, OFF; lia).
      replace (ez + (ex - ez)) with ex by lia. replace (ez + (ey - ez)) with ey by lia.
      rewrite HvB, val_add. lia. }
    specialize (Hup ltac:(unfold ez; lia) ltac:(unfold ez; lia) Hcan ltac:(lia) Hv).
    destruct (binary_round prec emax false _ ez) as [s|s| |s m e]; try contradiction.
    destruct Hup as [-> [He Hle]]. split; [reflexivity|].
    cbn [sf_val]. lia.
Qed.

(** The harmonic mean of two numbers of [0, 1]. *)

Lemma val_mul (a b e f : Z) :
  0 <= e + OFF -> 0 <= f + OFF -> 0 <= e + f + OFF ->
  val (a * b) (e + f) * 2 ^ OFF = val a e * val b f.
Proof.
  intros He Hf Hef. unfold val.
  assert (H : 2 ^ (e + f + OFF) * 2 ^ OFF = 2 ^ (e + OFF) * 2 ^ (f + OFF)).
  { rewrite <- !p2_add by (unfold OFF in *; lia). f_equal. lia. }
  rewrite <- Z.mul_assoc, H. ring.
Qed.

Lemma val_unit : val 1 0 = 2 ^ OFF.
Proof. unfold val. rewrite Z.mul_1_l. reflexivity. Qed.

(** The product of two numbers of [0, 1] is below both. *)
Lemma mul_unit (p r : float) :
  sf_pf (Prim2SF p) -> sf_pf (Prim2SF r) ->
  sf_val (Prim2SF p) <= val 1 0 -> sf_val (Prim2SF r) <= val 1 0 ->
  sf_pf (Prim2SF (p * r))
  /\ sf_val (Prim2SF (p * r)) <= sf_val (Prim2SF p)
  /\ sf_val (Prim2SF (p * r)) <= sf_val (Prim2SF r).
Proof.
  intros Hp Hr Hvp Hvr.
  pose proof (Prim2SF_valid p) as Vp. pose proof (Prim2SF_valid r) as Vr.
  rewrite mul_spec.
  destruct (Prim2SF p) as [sp| | |sp mp ep] eqn:Ep; simpl in Hp; try contradiction; subst;
    destruct (Prim2SF r) as [sr| | |sr mr er] eqn:Er; simpl in Hr; try contradiction; subst.
  - repeat split; cbn; lia.
  - split; [reflexivity|]. cbn [SF64mul SFmul xorb sf_val].
    destruct (valid_finite _ _ _ Vr). pose proof (val_pos mr er ltac:(unfold OFF; lia)). lia.
  - split; [reflexivity|]. cbn [SF64mul SFmul xorb sf_val].
    destruct (valid_finite _ _ _ Vp). pose proof (val_pos mp ep ltac:(unfold OFF; lia)). lia.
  - cbn [sf_val] in *.
    destruct (valid_finite _ _ _ Vp) as [Hcp Hep].
    destruct (valid_finite _ _ _ Vr) as [Hcr Her].
    pose proof (unit_exponent mp ep Hcp Hvp) as Hep52.
    pose proof (unit_exponent mr er Hcr Hvr) as Her52.
    unfold SF64mul, SFmul. cbn [xorb].
    assert (Hprod : val (Z.pos (mp * mr)) (ep + er) * 2 ^ OFF
                    = val (Zpos mp) ep * val (Zpos mr) er).
    { rewrite Pos2Z.inj_mul. apply val_mul; unfold OFF; lia. }
    pose proof (val_pos mp ep ltac:(unfold OFF; lia)) as Hpp.
    pose proof (val_pos mr er ltac:(unfold OFF; lia)) as Hrp.
    pose proof (p2_pos OFF ltac:(unfold OFF; lia)) as Hoff.
    rewrite val_unit in Hvp, Hvr.
    assert (H1 : val (Z.pos (mp * mr)) (ep + er) <= val (Zpos mp) ep) by nia.
    assert (H2 : val (Z.pos (mp * mr)) (ep + er) <= val (Zpos mr) er) by nia.
    pose proof (round_le (Z.pos (mp * mr)) (ep + er) mp ep ltac:(lia)
                  ltac:(unfold OFF; lia) ltac:(lia) Hcp ltac:(lia) H1) as U1.
    pose proof (round_le (Z.pos (mp * mr)) (ep + er) mr er ltac:(lia)
                  ltac:(unfold OFF; lia) ltac:(lia) Hcr ltac:(lia) H2) as U2.
    destruct (binary_round_aux prec emax false (Z.pos (mp * mr)) (ep + er) loc_Exact)
      as [s|s| |s m e]; try contradiction.
    + subst s. cbn [sf_pf sf_val]. repeat split; lia.
    + destruct U1 as [-> [_ U1]]. destruct U2 as [_ [_ U2]].
      cbn [sf_pf sf_val]. repeat split; assumption.
Qed.

(** Twice a representable number below [2^971] is representable. *)
Lemma canonical_double (m : positive) (e : Z) :
  fexp prec emax (Zdigits2 (Zpos m) + e) = e -> e <= 970 ->
  exists (B : positive) (F : Z),
    fexp prec emax (Zdigits2 (Zpos B) + F) = F /\ e <= F <= 971
    /\ val (Zpos B) F = 2 * val (Zpos m) e.
Proof.
  intros Hcan He.
  assert (Hlo : -1074 <= e) by (rewrite <- Hcan; apply fexp_ge_emin).
  destruct (Zdigits2_bounds (Zpos m) ltac:(lia)) as [Hd _].
  destruct (Z.eq_dec (Zdigits2 (Zpos m)) 53) as [H53|Hn53].
  - exists m, (e + 1). split; [|split; [lia|]].
    + rewrite fexp_eq in *. lia.
    + rewrite val_shift by (unfold OFF; lia). unfold val. lia.
  - exists (m * 2)%positive, e. split; [|split; [lia|]].
    + rewrite Pos2Z.inj_mul. change (Zpos 2) with (2 ^ 1).
      rewrite Zdigits2_mul_p2 by lia. rewrite fexp_eq in *. lia.
    + rewrite Pos2Z.inj_mul. unfold val. lia.
Qed.

Lemma Prim2SF_two : Prim2SF 2 = S754_finite false 4503599627370496 (-51).
Proof. reflexivity. Qed.

(** Doubling a number that is at most a representable [v] gives at most
    [2 v]. *)
Lemma double_le (q : float) (B : positive) (F : Z) (m : positive) (e : Z) :
  sf_pf (Prim2SF q) ->
  fexp prec emax (Zdigits2 (Zpos m) + e) = e ->
  fexp prec emax (Zdigits2 (Zpos B) + F) = F -> e <= F <= 971 ->
  val (Zpos B) F = 2 * val (Zpos m) e ->
  sf_val (Prim2SF q) <= val (Zpos m) e ->
  sf_pf (Prim2SF (2 * q)) /\ sf_val (Prim2SF (2 * q)) <= val (Zpos B) F.
Proof.
  intros Hq Hcm HcB HF HvB Hvq.
  pose proof (Prim2SF_valid q) as Vq.
  assert (Hlo : -1074 <= e) by (rewrite <- Hcm; apply fexp_ge_emin).
  pose proof (val_pos B F ltac:(unfold OFF; lia)) as HBpos.
  rewrite mul_spec, Prim2SF_two.
  destruct (Prim2SF q) as [sq| | |sq mq eq] eqn:Eq; simpl in Hq; try contradiction; subst.
  - cbn [SF64mul SFmul xorb sf_pf sf_val]. split; [reflexivity|lia].
  - cbn [sf_val] in Hvq.
    destruct (valid_finite _ _ _ Vq) as [Hcq Heq].
    assert (Hexp : eq <= e).
    { destruct (canonical_val_le_iff (Zpos mq) eq (Zpos m) e ltac:(lia) ltac:(lia) Hcq Hcm)
        as [Hdir _].
      specialize (Hdir Hvq). lia. }
    unfold SF64mul, SFmul. cbn [xorb].
    assert (Hv : val (Z.pos (4503599627370496 * mq)) (-51 + eq) <= val (Zpos B) F).
    { rewrite Pos2Z.inj_mul. change (Zpos 4503599627370496) with (2 ^ 52).
      rewrite Z.mul_comm, <- val_shift by (unfold OFF; lia).
      replace (-51 + eq + 52) with (eq + 1) by lia.
      rewrite val_shift by (unfold OFF; lia). rewrite HvB. unfold val in *. lia. }
    pose proof (round_le (Z.pos (4503599627370496 * mq)) (-51 + eq) B F ltac:(lia)
                  ltac:(unfold OFF; lia) ltac:(lia) HcB ltac:(lia) Hv) as U.
    destruct (binary_round_aux prec emax false (Z.pos (4503599627370496 * mq)) (-51 + eq)
                loc_Exact) as [s|s| |s m' e']; try contradiction.
    + subst s. cbn [sf_pf sf_val]. split; [reflexivity|lia].
    + destruct U as [-> [_ U]]. cbn [sf_pf sf_val]. split; [reflexivity|exact U].
Qed.

(** The sum of two positive numbers of [0, 1] is at least a representable
    number that is at most the sum of their values. *)
Lemma add_ge_val (p r : float) (mp : positive) (ep : Z) (mr : positive) (er : Z)
  (B : positive) (F : Z) :
  Prim2SF p = S754_finite false mp ep -> Prim2SF r = S754_finite false mr er ->
  sf_val (Prim2SF p) <= val 1 0 -> sf_val (Prim2SF r) <= val 1 0 ->
  fexp prec emax (Zdigits2 (Zpos B) + F) = F ->
  val (Zpos B) F <= val (Zpos mp) ep + val (Zpos mr) er ->
  exists m e, Prim2SF (p + r) = S754_finite false m e
              /\ val (Zpos B) F <= val (Zpos m) e.
Proof.
  intros Ep Er Hvp Hvr HcB Hv.
  assert (Hfin : exists m e, Prim2SF (p + r) = S754_finite false m e).
  { apply add_unit_finite; try assumption.
    - rewrite Ep. reflexivity.
    - rewrite Er. reflexivity.
    - left. intros E0. rewrite E0 in Ep. discriminate Ep. }
  destruct Hfin as [m [e Hfin]]. exists m, e. split; [exact Hfin|].
  pose proof (Prim2SF_valid p) as Vp. pose proof (Prim2SF_valid r) as Vr.
  rewrite add_spec, Ep, Er in Hfin. rewrite Ep in Vp. rewrite Er in Vr.
  destruct (valid_finite _ _ _ Vp) as [Hcp Hep].
  destruct (valid_finite _ _ _ Vr) as [Hcr Her].
  unfold SF64add, SFadd in Hfin. cbn [cond_Zopp] in Hfin.
  set (ez := Z.min ep er) in *.
  change (Z.pos (fst (shl_align mp ep ez)) + Z.pos (fst (shl_align mr er ez)))
    with (Z.pos (fst (shl_align mp ep ez) + fst (shl_align mr er ez))) in Hfin.
  cbn [binary_normalize] in Hfin.
  pose proof (binary_round_lower (fst (shl_align mp ep ez) + fst (shl_align mr er ez))
                ez (Zpos B) F ltac:(lia) ltac:(unfold ez; lia) HcB) as Hlow.
  rewrite Hfin in Hlow. apply Hlow.
  rewrite Pos2Z.inj_add, val_add, !shl_align_fst by (unfold ez; lia).
  rewrite <- !val_shift by (unfold ez, OFF; lia).
  replace (ez + (ep - ez)) with ep by lia. replace (ez + (er - ez)) with er by lia.
  exact Hv.
Qed.

Lemma sf_pf_of_bounds (x : float) :
  sf_pn (Prim2SF x) -> (x <=? 1)%float = true ->
  sf_pf (Prim2SF x) /\ sf_val (Prim2SF x) <= val 1 0.
Proof.
  intros Hpn Hle.
  assert (Hpf : sf_pf (Prim2SF x)).
  { rewrite leb_spec, Prim2SF_one in Hle.
    destruct (Prim2SF x) as [s|s| |s m e]; simpl in Hpn; try contradiction; subst;
      try reflexivity. discriminate Hle. }
  split; [exact Hpf|].
  rewrite <- val_one. apply leb_of_val; [now apply sf_pf_nnf|reflexivity|exact Hle].
Qed.

(** [2 * (p * r) / (p + r) || 0] on two numbers of [0, 1] is a number of
    [0, 1]. *)
Lemma f1_unit (p r : float) :
  sf_pf (Prim2SF p) -> sf_pf (Prim2SF r) ->
  sf_val (Prim2SF p) <= val 1 0 -> sf_val (Prim2SF r) <= val 1 0 ->
  sf_pf (Prim2SF (f1_of p r)) /\ sf_val (Prim2SF (f1_of p r)) <= val 1 0.
Proof.
  intros Hp Hr Hvp Hvr.
  destruct (f1_spec p r Hp Hr Hvp Hvr) as [_ [Hzero Hform]].
  assert (Hunit0 : sf_pf (Prim2SF 0) /\ sf_val (Prim2SF 0) <= val 1 0).
  { split; [reflexivity|]. cbn [sf_val Prim2SF_zero]. rewrite Prim2SF_zero. cbn [sf_val].
    rewrite val_unit. apply Z.lt_le_incl, p2_pos. unfold OFF. lia. }
  destruct (sf_pf_zero_or_finite p Hp) as [Hp0|[mp [ep Ep]]];
    destruct (sf_pf_zero_or_finite r Hr) as [Hr0|[mr [er Er]]].
  - rewrite (Hzero Hp0 Hr0). exact Hunit0.
  - assert (Hne : r <> 0%float) by (intros E0; rewrite E0 in Er; discriminate Er).
    rewrite (Hform (or_intror Hne)). subst p.
    assert (E : (2 * (0 * r) / (0 + r))%float = 0%float).
    { apply Prim2SF_inj. rewrite div_spec, mul_spec, mul_spec, add_spec, Er, Prim2SF_two.
      reflexivity. }
    rewrite E. exact Hunit0.
  - assert (Hne : p <> 0%float) by (intros E0; rewrite E0 in Ep; discriminate Ep).
    rewrite (Hform (or_introl Hne)). subst r.
    assert (E : (2 * (p * 0) / (p + 0))%float = 0%float).
    { apply Prim2SF_inj. rewrite div_spec, mul_spec, mul_spec, add_spec, Ep, Prim2SF_two.
      reflexivity. }
    rewrite E. exact Hunit0.
  - assert (Hne : p <> 0%float) by (intros E0; rewrite E0 in Ep; discriminate Ep).
    rewrite (Hform (or_introl Hne)).
    pose proof (Prim2SF_valid p) as Vp. pose proof (Prim2SF_valid r) as Vr.
    destruct (mul_unit p r Hp Hr Hvp Hvr) as [Hq [Hqp Hqr]].
    rewrite Ep in Hvp, Hqp, Vp. rewrite Er in Hvr, Hqr, Vr. cbn [sf_val] in *.
    destruct (valid_finite _ _ _ Vp) as [Hcp Hep].
    destruct (valid_finite _ _ _ Vr) as [Hcr Her].
    pose proof (unit_exponent mp ep Hcp Hvp) as Hep52.
    pose proof (unit_exponent mr er Hcr Hvr) as Her52.
    (* the smaller of the two, doubled *)
    assert (Hmin : exists (m : positive) (e : Z),
               fexp prec emax (Zdigits2 (Zpos m) + e) = e /\ e <= -52
               /\ sf_val (Prim2SF (p * r)) <= val (Zpos m) e
               /\ 2 * val (Zpos m) e <= val (Zpos mp) ep + val (Zpos mr) er).
    { destruct (Z_le_gt_dec (val (Zpos mp) ep) (val (Zpos mr) er)).
      - exists mp, ep. repeat split; try assumption; lia.
      - exists mr, er. repeat split; try assumption; lia. }
    destruct Hmin as [m [e [Hcm [He [Hqm Hsum]]]]].
    destruct (canonical_double m e Hcm ltac:(lia)) as [B [F [HcB [HF HvB]]]].
    destruct (double_le (p * r) B F m e Hq Hcm HcB HF HvB Hqm) as [HN HvN].
    destruct (add_ge_val p r mp ep mr er B F Ep Er
                ltac:(rewrite Ep; exact Hvp) ltac:(rewrite Er; exact Hvr) HcB ltac:(lia))
      as [mD [eD [ED HvD]]].
    set (N := (2 * (p * r))%float) in *. set (D := (p + r)%float) in *.
    assert (HD0 : (0 <? D)%float = true) by (apply zero_ltb_spec; rewrite ED; reflexivity).
    assert (HDinf : (D <? infinity)%float = true)
      by (apply ltb_infinity_spec; rewrite ED; exact I).
    assert (HN0 : (0 <=? N)%float = true)
      by (apply zero_leb_spec, sf_pn_nn, sf_pf_pn; exact HN).
    assert (HND : (N <=? D)%float = true).
    { apply leb_of_val; [now apply sf_pf_nnf|rewrite ED; reflexivity|].
      rewrite ED. cbn [sf_val]. lia. }
    destruct (div_bounds N D HN0 HND HD0 HDinf) as [_ Hle1].
    apply sf_pf_of_bounds; [|exact Hle1].
    rewrite div_spec. eapply SFdiv_pn; [apply sf_pf_pn; exact HN|exact ED].
Qed.

(* ------------------------------------------------------------------ *)
(** *** The averaged metrics *)

Lemma metrics_of_macro (cm : list (list Z)) (pairs : list (Z * Z)) (roc : list RocPoint) :
  let total (f : nat -> number) := (0 + f 0%nat + f 1%nat + f 2%nat + f 3%nat + f 4%nat + f 5%nat)%float in
  precision (metrics_of cm pairs roc) = (total (class_precision cm) / 6)%float
  /\ recall (metrics_of cm pairs roc) = (total (class_recall cm) / 6)%float
  /\ f1Score (metrics_of cm pairs roc) = (total (class_f1 cm) / 6)%float.
Proof. repeat split; reflexivity. Qed.

(** The mean of six numbers of [0, 1], summed from 0. *)
Lemma mean6_unit (f : nat -> number) :
  (forall c, (c < 6)%nat ->
     sf_pf (Prim2SF (f c)) /\ sf_val (Prim2SF (f c)) <= val 1 0) ->
  let mean := ((0 + f 0%nat + f 1%nat + f 2%nat + f 3%nat + f 4%nat + f 5%nat) / 6)%float in
  (0 <=? mean)%float = true /\ (mean <=? 1)%float = true.
Proof.
  intros Hf mean.
  assert (H0 : sf_pf (Prim2SF 0) /\ sf_val (Prim2SF 0) <= val 0 0).
  { split; [reflexivity|]. rewrite Prim2SF_zero. cbn [sf_val]. unfold val. lia. }
  destruct H0 as [P0 V0].
  destruct (Hf 0%nat ltac:(lia)) as [Pa Va].
  destruct (add_le_nat _ _ 0 ltac:(lia) ltac:(lia) P0 Pa V0 Va) as [P1 V1].
  destruct (Hf 1%nat ltac:(lia)) as [Pb Vb].
  destruct (add_le_nat _ _ 1 ltac:(lia) ltac:(lia) P1 Pb V1 Vb) as [P2 V2].
  destruct (Hf 2%nat ltac:(lia)) as [Pc Vc].
  destruct (add_le_nat _ _ 2 ltac:(lia) ltac:(lia) P2 Pc V2 Vc) as [P3 V3].
  destruct (Hf 3%nat ltac:(lia)) as [Pd Vd].
  destruct (add_le_nat _ _ 3 ltac:(lia) ltac:(lia) P3 Pd V3 Vd) as [P4 V4].
  destruct (Hf 4%nat ltac:(lia)) as [Pe Ve].
  destruct (add_le_nat _ _ 4 ltac:(lia) ltac:(lia) P4 Pe V4 Ve) as [P5 V5].
  destruct (Hf 5%nat ltac:(lia)) as [Pf Vf].
  destruct (add_le_nat _ _ 5 ltac:(lia) ltac:(lia) P5 Pf V5 Vf) as [P6 V6].
  cbn [Z.add Pos.add Pos.succ] in *.
  unfold mean. apply div_bounds.
  - apply zero_leb_spec, sf_pn_nn, sf_pf_pn. exact P6.
  - apply leb_of_val; [now apply sf_pf_nnf|reflexivity|].
    eapply Z.le_trans; [exact V6|].
    change (Prim2SF 6) with (S754_finite false 6755399441055744 (-50)). cbn [sf_val].
    change 6755399441055744 with (6 * 2 ^ 50).
    rewrite <- val_shift by (unfold OFF; lia). apply Z.le_refl.
  - reflexivity.
  - reflexivity.
Qed.

(** The per-class metrics of a matrix [evaluate] filled are numbers of
    [0, 1]. *)
Lemma class_metrics_unit (pairs : list (Z * Z)) (cm : list (list Z)) (classIdx : nat) :
  fill_pure zero_matrix pairs = Filled_ok cm ->
  Z.of_nat (length pairs) < 2 ^ 53 ->
  (classIdx < 6)%nat ->
  (sf_pf (Prim2SF (class_precision cm classIdx))
   /\ sf_val (Prim2SF (class_precision cm classIdx)) <= val 1 0)
  /\ (sf_pf (Prim2SF (class_recall cm classIdx))
      /\ sf_val (Prim2SF (class_recall cm classIdx)) <= val 1 0)
  /\ (sf_pf (Prim2SF (class_f1 cm classIdx))
      /\ sf_val (Prim2SF (class_f1 cm classIdx)) <= val 1 0).
Proof.
  intros Hfill Hlen Hc.
  destruct (fill_pure_inv _ _ _ zero_matrix_grid Hfill) as [Hg [Hcells Hsum]].
  assert (Hnn : forall a p' : nat, (a < 6)%nat -> (p' < 6)%nat -> 0 <= cell cm a p').
  { intros a p' Ha Hp'. specialize (Hcells a p' Ha Hp').
    assert (cell zero_matrix a p' = 0).
    { destruct a as [|[|[|[|[|[|a]]]]]]; try lia;
        destruct p' as [|[|[|[|[|[|p']]]]]]; try lia; reflexivity. }
    lia. }
  change (matrix_sum zero_matrix) with 0 in Hsum.
  destruct (class_counts_bounds cm classIdx Hg Hnn Hc) as [Htp [Hfp [Hfn [Hcol Hrow]]]].
  destruct (ratio_or_0_spec _ _ Htp Hfp ltac:(lia)) as [Hp1 [Hp2 _]].
  destruct (ratio_or_0_spec _ _ Htp Hfn ltac:(lia)) as [Hr1 [Hr2 _]].
  split; [split; assumption|]. split; [split; assumption|].
  apply f1_unit; assumption.
Qed.

Lemma macro_metrics_unit (testData : list AirQualityData) (w : World) (m : ModelMetrics)
  (w' : World) :
  Z.of_nat (length testData) < 2 ^ 53 ->
  evaluate testData w = Normal m w' ->
  ((0 <=? precision m)%float = true /\ (precision m <=? 1)%float = true)
  /\ ((0 <=? recall m)%float = true /\ (recall m <=? 1)%float = true)
  /\ ((0 <=? f1Score m)%float = true /\ (f1Score m <=? 1)%float = true).
Proof.
  intros Hlen Hrun. rewrite evaluate_run in Hrun.
  destruct (fill_pure zero_matrix (eval_pairs (self w) testData)) as [cm| |] eqn:Hfill;
    try discriminate.
  remember (fst (draw_roc 0 11 (rng w))) as roc eqn:Hroc. clear Hroc.
  injection Hrun as Hm _. subst m.
  pose proof (metrics_of_macro cm (eval_pairs (self w) testData) roc) as Hmacro.
  cbv zeta in Hmacro. destruct Hmacro as [Ep [Er Ef]]. rewrite Ep, Er, Ef.
  assert (Hpl : Z.of_nat (length (eval_pairs (self w) testData)) < 2 ^ 53)
    by (unfold eval_pairs; rewrite length_map; exact Hlen).
  split; [|split]; apply mean6_unit; intros c Hc;
    destruct (class_metrics_unit _ cm c Hfill Hpl Hc) as [Hp [Hr Hf]]; assumption.
Qed.

(** The precision, recall and F1 score [evaluate] reports -- the means of
    the six per-class values -- are numbers of [0, 1]: never NaN, never
    negative, never above 1 (test lists of fewer than [2^53] records); and
    [evaluate] does return when the labels are in 0..5 and there are at
    most six models. *)
Theorem evaluate_macro_metrics_range (testData : list AirQualityData) (w : World) :
  Z.of_nat (length testData) < 2 ^ 53 ->
  ((length (models (self w)) <= 6)%nat ->
   Forall (fun d => 0 <= value (smogLevel d) <= 5) testData ->
   exists m w', evaluate testData w = Normal m w')
  /\ forall m w',
       evaluate testData w = Normal m w' ->
       ((0 <=? precision m)%float = true /\ (precision m <=? 1)%float = true)
       /\ ((0 <=? recall m)%float = true /\ (recall m <=? 1)%float = true)
       /\ ((0 <=? f1Score m)%float = true /\ (f1Score m <=? 1)%float = true).
Proof.
  intros Hlen. split; [apply evaluate_returns|].
  intros m w' Hrun. exact (macro_metrics_unit testData w m w' Hlen Hrun).
Qed.

(* ------------------------------------------------------------------ *)
(** *** The split of the records in [trainModel] *)

Lemma ToIntegerOrInfinity_num_of_Z (z : Z) :
  0 <= z < 2 ^ 53 -> ToIntegerOrInfinity (num_of_Z z) = Finite z.
Proof.
  intros Hz. destruct (num_of_Z_spec z Hz) as [Hpf [Hv H0]].
  pose proof (Prim2SF_valid (num_of_Z z)) as V.
  unfold ToIntegerOrInfinity.
  destruct (Prim2SF (num_of_Z z)) as [s|s| |s m e]; simpl in Hpf; try contradiction; subst s.
  - cbn [sf_val] in Hv. unfold val in Hv.
    pose proof (p2_pos (0 + OFF) ltac:(unfold OFF; lia)). f_equal. nia.
  - cbn [sf_val] in Hv. destruct (valid_finite _ _ _ V) as [_ He]. cbn [cond_Zopp].
    f_equal. destruct (0 <=? e) eqn:E.
    + apply Z.leb_le in E.
      replace e with (0 + e) in Hv by lia.
      rewrite (val_shift (Zpos m) 0 e) in Hv by (unfold OFF; lia). unfold val in Hv.
      pose proof (p2_pos (0 + OFF) ltac:(unfold OFF; lia)). nia.
    + apply Z.leb_gt in E.
      assert (Hm : Zpos m = z * 2 ^ (- e)).
      { pose proof (val_shift z e (- e) ltac:(lia) ltac:(unfold OFF; lia)) as Hs.
        replace (e + - e) with 0 in Hs by lia. rewrite Hs in Hv. unfold val in Hv.
        pose proof (p2_pos (e + OFF) ltac:(unfold OFF; lia)). nia. }
      rewrite Hm. apply Z.div_mul. pose proof (p2_pos (- e) ltac:(lia)). lia.
Qed.

(** The index [slice] makes of [Math.floor(x)] when [q <= x <= q + 7/8]. *)
Lemma floor_index (x : float) (q : Z) :
  0 <= q < 2 ^ 53 ->
  sf_pf (Prim2SF x) ->
  val q 0 <= sf_val (Prim2SF x) ->
  sf_val (Prim2SF x) <= val (8 * q + 7) (-3) ->
  ToIntegerOrInfinity (Math_floor x) = Finite q.
Proof.
  intros Hq Hpf Hlo Hhi.
  pose proof (Prim2SF_valid x) as V.
  pose proof (p2_pos (-3 + OFF) ltac:(unfold OFF; lia)) as HP.
  assert (H0 : val q 0 = val (8 * q) (-3)).
  { replace 0 with (-3 + 3) at 1 by lia. rewrite val_shift by (unfold OFF; lia).
    f_equal. lia. }
  rewrite H0 in Hlo. clear H0.
  unfold Math_floor.
  destruct (Prim2SF x) as [s|s| |s m e] eqn:Ex; simpl in Hpf; try contradiction; subst s.
  - unfold ToIntegerOrInfinity. rewrite Ex. cbn [sf_val] in Hlo. unfold val in Hlo.
    f_equal. nia.
  - cbn [sf_val] in Hlo, Hhi. destruct (valid_finite _ _ _ V) as [_ He].
    destruct (0 <=? e) eqn:E.
    + unfold ToIntegerOrInfinity. rewrite Ex, E. cbn [cond_Zopp]. f_equal.
      apply Z.leb_le in E.
      replace e with (-3 + (e + 3)) in Hlo, Hhi by lia.
      rewrite (val_shift (Zpos m) (-3) (e + 3)) in Hlo, Hhi by (unfold OFF; lia).
      unfold val in Hlo, Hhi.
      replace (2 ^ (e + 3)) with (2 ^ e * 8) in Hlo, Hhi
        by (rewrite Z.pow_add_r by lia; reflexivity).
      nia.
    + apply Z.leb_gt in E. cbn [cond_Zopp].
      pose proof (p2_pos (- e) ltac:(lia)) as Hk.
      pose proof (p2_pos (e + OFF) ltac:(unfold OFF; lia)) as Hk'.
      assert (H8 : 8 * 2 ^ (-3 + OFF) = 2 ^ (- e) * 2 ^ (e + OFF)).
      { rewrite <- Z.pow_add_r by (unfold OFF; lia). change 8 with (2 ^ 3).
        rewrite <- Z.pow_add_r by (unfold OFF; lia). f_equal. lia. }
      unfold val in Hlo, Hhi.
      assert (Hd : Zpos m / 2 ^ (- e) = q).
      { symmetry. apply (Z.div_unique_pos _ _ _ (Zpos m - q * 2 ^ (- e))); [|ring].
        nia. }
      rewrite Hd.
      apply ToIntegerOrInfinity_num_of_Z. exact Hq.
Qed.

Lemma Prim2SF_point8 : Prim2SF 0.8 = S754_finite false 7205759403792794 (-53).
Proof. reflexivity. Qed.

(** The exponent of an integer of [1, 2^50] as a binary64 number. *)
Lemma integer_exponent (m : positive) (e n : Z) :
  fexp prec emax (Zdigits2 (Zpos m) + e) = e ->
  1 <= n <= 2 ^ 50 -> val (Zpos m) e = val n 0 ->
  -52 <= e <= -2.
Proof.
  intros Hcan Hn Hv. rewrite fexp_eq in Hcan.
  assert (Hlo : -1074 <= e) by lia.
  pose proof (val_le_digits 1 0 (Zpos m) e ltac:(lia) ltac:(lia) ltac:(unfold OFF; lia)
                ltac:(unfold OFF; lia)) as H1.
  pose proof (val_le_digits (Zpos m) e (2 ^ 50) 0 ltac:(lia) ltac:(lia) ltac:(unfold OFF; lia)
                ltac:(unfold OFF; lia)) as H2.
  change (Zdigits2 1) with 1 in H1. change (Zdigits2 (2 ^ 50)) with 51 in H2.
  assert (val 1 0 <= val (Zpos m) e)
    by (rewrite Hv; apply val_mono; [unfold OFF; lia|lia]).
  assert (val (Zpos m) e <= val (2 ^ 50) 0)
    by (rewrite Hv; apply val_mono; [unfold OFF; lia|lia]).
  lia.
Qed.

(** A representable integer plus 7/8 is representable, up to [2^50]. *)
Lemma canonical_eighths (k : positive) :
  Zpos k < 2 ^ 53 ->
  exists (B : positive) (F : Z),
    fexp prec emax (Zdigits2 (Zpos B) + F) = F /\ -55 <= F <= -3
    /\ val (Zpos B) F = val (Zpos k) (-3).
Proof.
  intros Hk. destruct (canonical_nat k Hk) as [B [F [Hcan [HF Hv]]]].
  exists B, (F - 3). rewrite fexp_eq in *. split; [lia|]. split; [lia|].
  pose proof (val_shift (Zpos B) (F - 3) 3 ltac:(lia) ltac:(unfold OFF; lia)) as H1.
  pose proof (val_shift (Zpos k) (-3) 3 ltac:(lia) ltac:(unfold OFF; lia)) as H2.
  replace (F - 3 + 3) with F in H1 by lia. change (-3 + 3) with 0 in H2.
  rewrite H1, H2 in Hv. unfold val in *.
  pose proof (p2_pos (F - 3 + OFF) ltac:(unfold OFF; lia)).
  pose proof (p2_pos (-3 + OFF) ltac:(unfold OFF; lia)).
  change (2 ^ 3) with 8 in Hv. lia.
Qed.

(** [Math.floor(n * 0.8)] is [floor(4n / 5)] for every integer [n] of
    [0, 2^50], although 0.8 is not a binary64 number and the product is
    rounded. *)
Lemma trainSize_index (n : Z) :
  0 <= n <= 2 ^ 50 ->
  ToIntegerOrInfinity (Math_floor (num_of_Z n * 0.8)) = Finite (4 * n / 5).
Proof.
  intros Hn.
  destruct (Z.eq_dec n 0) as [->|Hn0]; [reflexivity|].
  set (q := 4 * n / 5).
  assert (Hq5 : 5 * q <= 4 * n <= 5 * q + 4).
  { unfold q. pose proof (Z.div_mod (4 * n) 5 ltac:(lia)).
    pose proof (Z.mod_pos_bound (4 * n) 5 ltac:(lia)). lia. }
  assert (Hlow : q * 2 ^ 53 <= n * 7205759403792794) by lia.
  assert (Hupp : n * 7205759403792794 <= (8 * q + 7) * 2 ^ 50) by lia.
  destruct (num_of_Z_spec n ltac:(lia)) as [Hpf [Hv _]].
  pose proof (Prim2SF_valid (num_of_Z n)) as V.
  assert (Hmul : Prim2SF (num_of_Z n * 0.8)
                 = SF64mul (Prim2SF (num_of_Z n)) (S754_finite false 7205759403792794 (-53)))
    by (rewrite mul_spec, Prim2SF_point8; reflexivity).
  pose proof (p2_pos (0 + OFF) ltac:(unfold OFF; lia)) as HO.
  destruct (Prim2SF (num_of_Z n)) as [s|s| |s m e]; simpl in Hpf; try contradiction; subst s.
  { cbn [sf_val] in Hv. unfold val in Hv. nia. }
  cbn [sf_val] in Hv. destruct (valid_finite _ _ _ V) as [Hcan He].
  pose proof (integer_exponent m e n Hcan ltac:(lia) Hv) as He2.
  unfold SF64mul, SFmul in Hmul. cbn [xorb] in Hmul.
  set (M := Z.pos (m * 7205759403792794)) in *.
  set (P := 2 ^ (-53 + OFF)).
  assert (HP : 0 < P) by (apply p2_pos; unfold OFF; lia).
  assert (HOP : 2 ^ (0 + OFF) = 2 ^ 53 * P).
  { unfold P. rewrite <- Z.pow_add_r by (unfold OFF; lia). f_equal. }
  assert (HME : val M (e + -53) = n * 7205759403792794 * P).
  { pose proof (val_mul (Zpos m) 7205759403792794 e (-53) ltac:(unfold OFF; lia)
                  ltac:(unfold OFF; lia) ltac:(unfold OFF; lia)) as Hprod.
    rewrite <- Pos2Z.inj_mul in Hprod. fold M in Hprod. rewrite Hv in Hprod.
    unfold val at 2 3 in Hprod. fold P in Hprod.
    change OFF with (0 + OFF) in Hprod at 1.
    apply (Z.mul_cancel_r _ _ (2 ^ (0 + OFF))); [lia|]. rewrite Hprod. ring. }
  assert (Hq0 : val q 0 <= val M (e + -53)).
  { rewrite HME. unfold val. rewrite HOP. nia. }
  assert (H3 : 2 ^ (-3 + OFF) = 2 ^ 50 * P).
  { unfold P. rewrite <- Z.pow_add_r by (unfold OFF; lia). f_equal. }
  assert (Hq7 : val M (e + -53) <= val (8 * q + 7) (-3)).
  { rewrite HME. unfold val. rewrite H3. nia. }
  destruct (canonical_eighths (Z.to_pos (8 * q + 7))) as [By [Fy [Hcy [HFy Hvy]]]].
  { rewrite Z2Pos.id by lia. lia. }
  rewrite Z2Pos.id in Hvy by lia.
  pose proof (round_le M (e + -53) By Fy ltac:(unfold M; lia) ltac:(unfold OFF; lia)
                ltac:(lia) Hcy ltac:(lia) ltac:(rewrite Hvy; exact Hq7)) as Hup.
  rewrite Hvy in Hup.
  assert (Hdn : q = 0 \/ match binary_round_aux prec emax false M (e + -53) loc_Exact with
                         | S754_finite s m' e' => s = false /\ -1074 <= e' /\ val q 0 <= val (Zpos m') e'
                         | S754_infinity s => s = false
                         | _ => False
                         end).
  { destruct (Z.eq_dec q 0) as [Hz|Hnz]; [now left|right].
    destruct (canonical_nat (Z.to_pos q)) as [B [F [Hcb [HF Hvb]]]].
    { rewrite Z2Pos.id by lia. lia. }
    rewrite Z2Pos.id in Hvb by lia. rewrite <- Hvb.
    apply round_lower; [unfold M; lia|lia|lia|exact Hcb|rewrite Hvb; exact Hq0]. }
  assert (Hq0' : q = 0 -> forall v, 0 <= v -> val q 0 <= v)
    by (intros -> v Hv'; unfold val; lia).
  apply floor_index; [lia| | |]; rewrite Hmul;
    destruct (binary_round_aux prec emax false M (e + -53) loc_Exact) as [s|s| |s m' e'];
    try contradiction.
  - subst s. reflexivity.
  - destruct Hup as [-> _]. reflexivity.
  - destruct Hdn as [Hz|Hdn]; [|contradiction]. apply Hq0'; [exact Hz|]. cbn [sf_val]. lia.
  - destruct Hup as [-> [Hoff _]]. cbn [sf_val].
    destruct Hdn as [Hz|[_ [_ Hdn]]]; [|exact Hdn].
    apply Hq0'; [exact Hz|]. pose proof (val_pos m' e' Hoff). lia.
  - subst s. cbn [sf_val]. rewrite <- Hq7, HME. nia.
  - destruct Hup as [-> [_ Hup]]. exact Hup.
Qed.

(** The index [slice] makes of [Math.floor(len * 0.8)]: [floor(4 len / 5)]
    elements go to the first part, the rest to the second. *)
Lemma slice_at_trainSize {A} (xs : list A) :
  Z.of_nat (length xs) <= 2 ^ 50 ->
  slice xs 0%float (Some (Math_floor (num_of_nat (length xs) * 0.8)%float))
  = firstn (4 * length xs / 5) xs
  /\ slice xs (Math_floor (num_of_nat (length xs) * 0.8)%float) None
     = skipn (4 * length xs / 5) xs.
Proof.
  intros Hlen.
  assert (Hk : relative_index (length xs)
                 (ToIntegerOrInfinity (Math_floor (num_of_nat (length xs) * 0.8)%float))
               = (4 * length xs / 5)%nat).
  { unfold num_of_nat. rewrite trainSize_index by lia.
    assert (Hz : 4 * Z.of_nat (length xs) / 5 = Z.of_nat (4 * length xs / 5))
      by (rewrite Nat2Z.inj_div, Nat2Z.inj_mul; reflexivity).
    rewrite Hz. unfold relative_index.
    pose proof (Nat.Div0.div_le_upper_bound (4 * length xs) 5 (length xs) ltac:(lia)) as Hle.
    replace (Z.of_nat (4 * length xs / 5) <? 0) with false by (symmetry; apply Z.ltb_ge; lia).
    rewrite Z.min_l by lia. apply Nat2Z.id. }
  assert (H0 : relative_index (length xs) (ToIntegerOrInfinity 0%float) = 0%nat).
  { change (ToIntegerOrInfinity 0%float) with (Finite 0). unfold relative_index.
    change (0 <? 0) with false. cbv iota. rewrite Z.min_l by lia. reflexivity. }
  unfold slice. rewrite Hk, H0. split.
  - rewrite Nat.sub_0_r. reflexivity.
  - apply firstn_all2. rewrite length_skipn. lia.
Qed.

(** [trainModel] trains on the first [floor(4n / 5)] of its [n] records and
    evaluates on the others, in the order they came: the product
    [n * 0.8] is rounded, and 0.8 itself is not a binary64 number, but the
    floor comes out exact for every array length. *)
Theorem trainModel_split (trainingData : list AirQualityData) :
  Z.of_nat (length trainingData) < 2 ^ 32 ->
  trainModel trainingData
  = bind RNG (train (firstn (4 * length trainingData / 5) trainingData))
         (fun _ => evaluate (skipn (4 * length trainingData / 5) trainingData)).
Proof.
  intros Hlen. unfold trainModel.
  destruct (slice_at_trainSize trainingData ltac:(lia)) as [-> ->]. reflexivity.
Qed.

(** With no record, or a single one, the training part is empty, so
    [trainModel] throws the [TypeError] of [train]: nothing is evaluated
    and the classifier is left as it was. *)
Theorem trainModel_too_few_records (trainingData : list AirQualityData) (w : World) :
  (length trainingData <= 1)%nat ->
  trainModel trainingData w = Throw TypeError w.
Proof.
  intros Hlen. destruct trainingData as [|d [|d' rest]]; [reflexivity|reflexivity|].
  simpl in Hlen. lia.
Qed.

Lemma split_sizes (n : nat) :
  (2 <= n)%nat -> (1 <= 4 * n / 5 < n)%nat.
Proof.
  intros Hn. split.
  - apply Nat.div_le_lower_bound; lia.
  - apply Nat.Div0.div_lt_upper_bound; lia.
Qed.

(** On two records or more with labels in 0..5, [trainModel] returns: it
    leaves six trained models on the classifier, and each of the four
    numbers it hands to the page -- accuracy, precision, recall, F1 score
    -- is a number of [0, 1], never NaN. *)
Theorem trainModel_returns (trainingData : list AirQualityData) (w : World) :
  (2 <= length trainingData)%nat ->
  Z.of_nat (length trainingData) < 2 ^ 32 ->
  Forall (fun d => 0 <= value (smogLevel d) <= 5) trainingData ->
  exists m w',
    trainModel trainingData w = Normal m w'
    /\ length (models (self w')) = 6%nat
    /\ Forall (fun mdl => trained mdl = true) (models (self w'))
    /\ Forall (fun x => (0 <=? x)%float = true /\ (x <=? 1)%float = true)
         [accuracy m; precision m; recall m; f1Score m].
Proof.
  intros Hn Hlen Hlabels.
  destruct (slice_at_trainSize trainingData ltac:(lia)) as [Hfirst Hrest].
  destruct (split_sizes _ Hn) as [Hk1 Hk2].
  set (k := (4 * length trainingData / 5)%nat) in *.
  assert (Hlt : length (skipn k trainingData) = (length trainingData - k)%nat)
    by apply length_skipn.
  assert (Hlf : length (firstn k trainingData) = k)
    by (rewrite length_firstn; lia).
  destruct (firstn k trainingData) as [|d ds] eqn:Etrain; [simpl in Hlf; lia|].
  destruct (train_closed_form d ds w) as [mins [maxs [_ Htrain]]].
  set (w1 := {| self := _; rng := _ |}) in Htrain.
  assert (H6 : length (models (self w1)) = 6%nat) by reflexivity.
  assert (Htr : Forall (fun mdl => trained mdl = true) (models (self w1))).
  { unfold w1. cbn [self models]. apply Forall_forall. intros mdl Hin.
    apply in_map_iff in Hin. destruct Hin as [c [<- _]]. reflexivity. }
  assert (Htest : Forall (fun d => 0 <= value (smogLevel d) <= 5) (skipn k trainingData)).
  { rewrite <- (firstn_skipn k trainingData) in Hlabels.
    apply Forall_app in Hlabels. exact (proj2 Hlabels). }
  destruct (evaluate_returns (skipn k trainingData) w1 ltac:(lia) Htest) as [m [w' Hrun]].
  exists m, w'.
  assert (Hself : self w' = self w1).
  { pose proof (evaluate_self (skipn k trainingData) w1) as Hs.
    rewrite Hrun in Hs. exact Hs. }
  split.
  { unfold trainModel. rewrite Hfirst, Hrest. unfold bind. rewrite Htrain. exact Hrun. }
  rewrite Hself. split; [exact H6|]. split; [exact Htr|].
  assert (Hne : skipn k trainingData <> [])
    by (intros E; rewrite E in Hlt; simpl in Hlt; lia).
  destruct (accuracy_unit (skipn k trainingData) w1 m w' Hne ltac:(lia) Hrun) as [Ha0 Ha1].
  destruct (macro_metrics_unit (skipn k trainingData) w1 m w' ltac:(lia) Hrun) as [[Hp0 Hp1] [[Hr0 Hr1] [Hf0 Hf1]]].
  repeat constructor; assumption.
Qed.

(* ------------------------------------------------------------------ *)
(** *** Feature importance, in all cases *)

Lemma zero_div_zero (x y : float) :
  is_zero x = true -> is_zero y = true -> is_nan (x / y) = true.
Proof.
  intros Hx Hy. apply is_zero_spec in Hx, Hy.
  destruct Hx as [sx Hx]. destruct Hy as [sy Hy].
  rewrite is_nan_spec, div_spec, Hx, Hy. reflexivity.
Qed.

(** A number that is not negative, over [Infinity]: [Infinity / Infinity]
    is NaN, anything smaller gives a zero. *)
Lemma div_infinity (x : float) :
  (0 <=? x)%float = true ->
  if (x =? infinity)%float then is_nan (x / infinity) = true
  else is_zero (x / infinity) = true.
Proof.
  intros Hx. apply zero_leb_spec in Hx.
  destruct (x =? infinity)%float eqn:E.
  - rewrite eqb_spec in E. rewrite is_nan_spec, div_spec.
    destruct (Prim2SF x) as [s|s| |s m e]; simpl in Hx; try contradiction;
      try discriminate E; try reflexivity.
  - rewrite eqb_spec in E. apply is_zero_spec. rewrite div_spec.
    destruct (Prim2SF x) as [s|s| |s m e]; simpl in Hx; try contradiction.
    + eexists; reflexivity.
    + subst s. discriminate E.
    + eexists; reflexivity.
Qed.

(** The largest average is NaN, a zero, a positive finite number or
    [Infinity]. *)
Lemma top_average_cases (ms : list LogisticRegressionModel) :
  let top := Math_max (average_weights ms) in
  is_nan top = true
  \/ is_zero top = true
  \/ ((0 <? top)%float = true /\ (top <? infinity)%float = true)
  \/ top = infinity.
Proof.
  intros top. destruct (is_nan top) eqn:Hn; [now left|right].
  destruct (fold_max_not_nan _ _ Hn) as [_ Hnan].
  destruct (fold_max_spec _ neg_infinity eq_refl Hnan) as [_ [_ [Hall _]]].
  fold (Math_max (average_weights ms)) in Hall. fold top in Hall.
  assert (Hin : In (avgWeight ms 0) (average_weights ms)) by (now left).
  assert (H0 : (0 <=? top)%float = true).
  { apply (leb_trans _ (avgWeight ms 0)); [|now apply Hall].
    apply avgWeight_nonneg. rewrite Forall_forall in Hnan. now apply Hnan. }
  destruct (is_zero top) eqn:Hz; [now left|right].
  assert (Hpos : (0 <? top)%float = true).
  { apply leb_neq_ltb; [exact H0|]. rewrite eqb_sym. exact Hz. }
  pose proof (proj1 (zero_ltb_spec top) Hpos) as Hs.
  destruct (Prim2SF top) as [s|s| |s m e] eqn:Et; try contradiction.
  - right. subst s. apply Prim2SF_inj. rewrite Et. reflexivity.
  - left. split; [exact Hpos|]. apply ltb_infinity_spec. rewrite Et. exact I.
Qed.

(** When the largest average is a zero or NaN every score is NaN; when it
    is [Infinity] the features of infinite average score NaN and the
    others a zero. *)
Lemma importance_scores_degenerate (ms : list LogisticRegressionModel) :
  let top := Math_max (average_weights ms) in
  (is_zero top = true \/ is_nan top = true ->
   Forall (fun s => is_nan (importance s) = true) (normalized_scores ms))
  /\ (top = infinity ->
      Forall (fun s => is_nan (importance s) = true \/ is_zero (importance s) = true)
             (normalized_scores ms)
      /\ Exists (fun s => is_nan (importance s) = true) (normalized_scores ms)).
Proof.
  intros top. split.
  - intros [Hz|Hn].
    + assert (Hn : is_nan top = false).
      { unfold is_zero in Hz. exact (proj1 (eqb_not_nan _ _ Hz)). }
      destruct (fold_max_not_nan _ _ Hn) as [_ Hnan].
      destruct (fold_max_spec _ neg_infinity eq_refl Hnan) as [_ [_ [Hall _]]].
      fold (Math_max (average_weights ms)) in Hall. fold top in Hall.
      apply Forall_forall. intros s Hs. apply in_map_iff in Hs.
      destruct Hs as [i [<- Hi]]. cbn [importance]. fold top.
      assert (Hin : In (avgWeight ms i) (average_weights ms)) by now apply in_map.
      apply zero_div_zero; [|exact Hz].
      destruct (is_zero (avgWeight ms i)) eqn:Ez; [reflexivity|exfalso].
      assert (Hpos : (0 <? avgWeight ms i)%float = true).
      { apply leb_neq_ltb.
        - apply avgWeight_nonneg. rewrite Forall_forall in Hnan. now apply Hnan.
        - rewrite eqb_sym. exact Ez. }
      pose proof (ltb_leb_trans _ _ _ Hpos (Hall _ Hin)) as Hlt.
      pose proof (ltb_irrefl_eqb _ _ Hlt) as Hne.
      assert (Hz' : (0 =? top)%float = true) by (rewrite eqb_sym; exact Hz).
      rewrite Hne in Hz'. discriminate Hz'.
    + apply Forall_forall. intros s Hs. apply in_map_iff in Hs.
      destruct Hs as [i [<- Hi]]. cbn [importance]. fold top. now apply div_nan_r.
  - intros Htop.
    assert (Hn : is_nan top = false) by (rewrite Htop; reflexivity).
    destruct (fold_max_not_nan _ _ Hn) as [_ Hnan].
    destruct (fold_max_spec _ neg_infinity eq_refl Hnan) as [_ [_ [Hall Hres]]].
    fold (Math_max (average_weights ms)) in Hall, Hres. fold top in Hall, Hres.
    split.
    + apply Forall_forall. intros s Hs. apply in_map_iff in Hs.
      destruct Hs as [i [<- Hi]]. cbn [importance]. fold top. rewrite Htop.
      assert (Hin : In (avgWeight ms i) (average_weights ms)) by now apply in_map.
      assert (H0 : (0 <=? avgWeight ms i)%float = true).
      { apply avgWeight_nonneg. rewrite Forall_forall in Hnan. now apply Hnan. }
      pose proof (div_infinity _ H0) as Hd.
      destruct (avgWeight ms i =? infinity)%float; [now left|now right].
    + destruct Hres as [E|Hres]; [rewrite Htop in E; discriminate E|].
      apply in_map_iff in Hres. destruct Hres as [i [Ei Hi]].
      apply Exists_exists.
      exists {| feature := nth i featureNames EmptyString;
                importance := (avgWeight ms i / top)%float |}.
      split; [apply in_map_iff; exists i; split; [reflexivity|exact Hi]|].
      cbn [importance]. rewrite Ei, Htop. reflexivity.
Qed.

(** C4, amended: for every classifier [getFeatureImportance] returns the
    six scores "average magnitude of the feature's weight over the models,
    divided by the largest average", reordered by the sort.  When the
    largest average is positive and finite, every score lies in [0, 1],
    the largest score is exactly 1, and the list is in descending order.
    When it is a zero or NaN every score is NaN; when it is [Infinity]
    every score is NaN or a zero and at least one is NaN.  The largest
    average is always in one of these four cases. *)
Theorem feature_importance_normalized (w : World) :
  let ms := models (self w) in
  let top := Math_max (average_weights ms) in
  exists scores,
    getFeatureImportance w = Normal scores w
    /\ Permutation scores (normalized_scores ms)
    /\ length scores = 6%nat
    /\ ((0 <? top)%float = true -> (top <? infinity)%float = true ->
        Forall (fun s => (0 <=? importance s)%float = true
                         /\ (importance s <=? 1)%float = true) scores
        /\ Math_max (map importance scores) = 1%float
        /\ Sorted descending scores)
    /\ (is_zero top = true \/ is_nan top = true ->
        Forall (fun s => is_nan (importance s) = true) scores)
    /\ (top = infinity ->
        Forall (fun s => is_nan (importance s) = true \/ is_zero (importance s) = true) scores
        /\ Exists (fun s => is_nan (importance s) = true) scores)
    /\ (is_nan top = true
        \/ is_zero top = true
        \/ ((0 <? top)%float = true /\ (top <? infinity)%float = true)
        \/ top = infinity).
Proof.
  intros ms top.
  exists (sort by_importance_desc (normalized_scores ms)).
  pose proof (sort_perm by_importance_desc (normalized_scores ms)) as Hperm.
  destruct (importance_scores_degenerate ms) as [Hdeg Hinf].
  split; [apply getFeatureImportance_run|].
  split; [exact Hperm|].
  split; [rewrite (Permutation_length Hperm); reflexivity|].
  split.
  { intros H0 Hfin.
    destruct (importance_scores_regular w H0 Hfin) as [scores [Hrun [_ [_ Hreg]]]].
    rewrite getFeatureImportance_run in Hrun. injection Hrun as <-. exact Hreg. }
  split.
  { intros Hcase. exact (Permutation_Forall (Permutation_sym Hperm) (Hdeg Hcase)). }
  split.
  { intros Htop. destruct (Hinf Htop) as [Hall Hex]. split.
    - exact (Permutation_Forall (Permutation_sym Hperm) Hall).
    - apply Exists_exists in Hex. destruct Hex as [s [Hs Hnan]].
      apply Exists_exists. exists s. split; [|exact Hnan].
      exact (Permutation_in _ (Permutation_sym Hperm) Hs). }
  apply top_average_cases.
Qed.

(* ------------------------------------------------------------------ *)
(** *** The per-class metrics and the reported means *)

(** C6: [evaluate] returns on every test list with labels in 0..5 (the
    classifier holding at most six models), and whenever it returns, for
    every class, on the matrix it returns: precision, recall and F1 are
    never NaN; with no true and no false positive the precision is 0, with
    no true positive and no false negative the recall is 0, and with
    precision and recall both 0 the F1 score is 0; in every other case
    precision = tp / (tp + fp), recall = tp / (tp + fn) and
    f1 = 2 * (precision * recall) / (precision + recall).  The precision,
    recall and F1 score [evaluate] reports are the sums of these six
    per-class values, taken from 0 in class order, divided by 6; none of
    the three is NaN. *)
Theorem class_metrics_defined (testData : list AirQualityData) (w : World) :
  Z.of_nat (length testData) < 2 ^ 53 ->
  ((length (models (self w)) <= 6)%nat ->
   Forall (fun d => 0 <= value (smogLevel d) <= 5) testData ->
   exists m w', evaluate testData w = Normal m w')
  /\ forall m w',
       evaluate testData w = Normal m w' ->
       let cm := confusionMatrix m in
       let total (f : nat -> number) :=
         (0 + f 0%nat + f 1%nat + f 2%nat + f 3%nat + f 4%nat + f 5%nat)%float in
       (forall classIdx, (classIdx < 6)%nat ->
          let tp := class_tp cm classIdx in
          let fp := class_fp cm classIdx in
          let fn := class_fn cm classIdx in
          let p := class_precision cm classIdx in
          let r := class_recall cm classIdx in
          let f := class_f1 cm classIdx in
          is_nan p = false /\ is_nan r = false /\ is_nan f = false
          /\ (tp + fp = 0 -> p = 0%float)
          /\ (tp + fn = 0 -> r = 0%float)
          /\ (p = 0%float -> r = 0%float -> f = 0%float)
          /\ (tp + fp <> 0 -> p = (num_of_Z tp / num_of_Z (tp + fp))%float)
          /\ (tp + fn <> 0 -> r = (num_of_Z tp / num_of_Z (tp + fn))%float)
          /\ (p <> 0%float \/ r <> 0%float -> f = (2 * (p * r) / (p + r))%float))
       /\ precision m = (total (class_precision cm) / 6)%float
       /\ recall m = (total (class_recall cm) / 6)%float
       /\ f1Score m = (total (class_f1 cm) / 6)%float
       /\ is_nan (precision m) = false
       /\ is_nan (recall m) = false
       /\ is_nan (f1Score m) = false.
Proof.
  intros Hlen. split; [apply evaluate_returns|].
  intros m w' Hrun cm total.
  split.
  { intros classIdx Hc.
    exact (class_metrics_of_run testData w m w' classIdx Hrun Hlen Hc). }
  destruct (macro_metrics_unit testData w m w' Hlen Hrun)
    as [[Hp _] [[Hr _] [Hf _]]].
  assert (Hmacro : precision m = (total (class_precision cm) / 6)%float
                   /\ recall m = (total (class_recall cm) / 6)%float
                   /\ f1Score m = (total (class_f1 cm) / 6)%float).
  { unfold cm, total. rewrite evaluate_run in Hrun.
    destruct (fill_pure zero_matrix (eval_pairs (self w) testData)) as [cm0| |];
      try discriminate.
    remember (fst (draw_roc 0 11 (rng w))) as roc eqn:Hroc. clear Hroc.
    injection Hrun as Hm _. subst m. rewrite confusionMatrix_metrics_of.
    exact (metrics_of_macro cm0 _ roc). }
  destruct Hmacro as [Ep [Er Ef]].
  split; [exact Ep|]. split; [exact Er|]. split; [exact Ef|].
  split; [exact (proj2 (leb_not_nan _ _ Hp))|].
  split; [exact (proj2 (leb_not_nan _ _ Hr))|exact (proj2 (leb_not_nan _ _ Hf))].
Qed.

End Laws.

(* ================================================================== *)
(** ** The loss is never read *)
(* ================================================================== *)

(** [train] computes the cross-entropy loss of every sample and adds it
    to [totalLoss], which nothing reads: with any two [Math.log] the same
    call leaves the same classifier and the same random source. *)
Theorem train_ignores_loss
  (Math_exp log1 log2 : number -> number) (RNG : Type) (Math_random : RNG -> number * RNG)
  (data : list AirQualityData) (w : World RNG) :
  train Math_exp log1 RNG Math_random data w = train Math_exp log2 RNG Math_random data w.
Proof.
  destruct data as [|d ds]; [reflexivity|].
  destruct (train_closed_form Math_exp log1 RNG Math_random d ds w)
    as [mins1 [maxs1 [Hex1 Hrun1]]].
  destruct (train_closed_form Math_exp log2 RNG Math_random d ds w)
    as [mins2 [maxs2 [Hex2 Hrun2]]].
  rewrite Hex1 in Hex2. injection Hex2 as <- <-.
  rewrite Hrun1, Hrun2. reflexivity.
Qed.

(* ================================================================== *)
(** ** The air-quality index and the smog level *)
(* ================================================================== *)

Lemma ltb_not_leb (a b : float) : (a <? b)%float = true -> (b <=? a)%float = false.
Proof.
  intros H. destruct (b <=? a)%float eqn:E; [|reflexivity].
  pose proof (ltb_leb_trans _ _ _ H E) as Hc. rewrite ltb_irrefl in Hc. discriminate.
Qed.

Lemma nan_not_leb_l (a c : float) : is_nan a = true -> (a <=? c)%float = false.
Proof.
  intros H. destruct (a <=? c)%float eqn:E; [|reflexivity].
  destruct (leb_not_nan _ _ E) as [Ha _]. congruence.
Qed.

Lemma nan_not_leb_r (a c : float) : is_nan a = true -> (c <=? a)%float = false.
Proof.
  intros H. destruct (c <=? a)%float eqn:E; [|reflexivity].
  destruct (leb_not_nan _ _ E) as [_ Ha]. congruence.
Qed.

(** A number below a range, or above it, is not in it. *)
Lemma below_range (x c l h : float) :
  (x <? c)%float = true -> (c <=? l)%float = true ->
  (l <=? x)%float && (x <=? h)%float = false.
Proof.
  intros Hx Hc. rewrite (ltb_not_leb x l); [reflexivity|].
  eapply ltb_leb_trans; eassumption.
Qed.

Lemma above_range (x c l h : float) :
  (c <? x)%float = true -> (h <=? c)%float = true ->
  (l <=? x)%float && (x <=? h)%float = false.
Proof.
  intros Hx Hc. rewrite (ltb_not_leb h x); [apply andb_false_r|].
  eapply leb_ltb_trans; eassumption.
Qed.

Lemma nan_range (x l h : float) :
  is_nan x = true -> (l <=? x)%float && (x <=? h)%float = false.
Proof. intros H. now rewrite (nan_not_leb_r x l H). Qed.

Ltac miss_range x :=
  match goal with
  | |- context [((?l <=? x)%float && (x <=? ?h)%float)%bool] =>
      match goal with
      | H : (x <? ?c)%float = true |- _ => rewrite (below_range x c l h H eq_refl)
      | H : (?c <? x)%float = true |- _ => rewrite (above_range x c l h H eq_refl)
      end
  end.

(** [calculateAQI] off the table.  The six PM2.5 ranges leave gaps
    between them (from 12 to 12.1, 35.4 to 35.5, 55.4 to 55.5, 150.4 to
    150.5 and 250.4 to 250.5): a concentration strictly inside a gap, like
    one below 0, one above 500 or NaN, matches no range, gets the index 500
    of the fall-through [return], and is classed Hazardous. *)
Theorem calculateAQI_off_table (pm25 : number) :
  is_nan pm25 = true
  \/ (pm25 <? 0)%float = true \/ (500 <? pm25)%float = true
  \/ ((12 <? pm25)%float = true /\ (pm25 <? 12.1)%float = true)
  \/ ((35.4 <? pm25)%float = true /\ (pm25 <? 35.5)%float = true)
  \/ ((55.4 <? pm25)%float = true /\ (pm25 <? 55.5)%float = true)
  \/ ((150.4 <? pm25)%float = true /\ (pm25 <? 150.5)%float = true)
  \/ ((250.4 <? pm25)%float = true /\ (pm25 <? 250.5)%float = true) ->
  calculateAQI pm25 = 500%float
  /\ value (smog (getSmogLevel (calculateAQI pm25))) = 5.
Proof.
  intros H.
  assert (E : calculateAQI pm25 = 500%float).
  { unfold calculateAQI, breakpoints. cbn [calculateAQI_from low high].
    destruct H as [H|[H|[H|[[Hl Hh]|[[Hl Hh]|[[Hl Hh]|[[Hl Hh]|[Hl Hh]]]]]]]].
    - rewrite !(nan_range _ _ _ H). reflexivity.
    - repeat miss_range pm25. reflexivity.
    - repeat miss_range pm25. reflexivity.
    - repeat miss_range pm25. reflexivity.
    - repeat miss_range pm25. reflexivity.
    - repeat miss_range pm25. reflexivity.
    - repeat miss_range pm25. reflexivity.
    - repeat miss_range pm25. reflexivity. }
  split; [exact E|]. rewrite E. reflexivity.
Qed.

Ltac split_levels :=
  repeat match goal with
         | |- context [if (?x <=? ?c)%float then _ else _] =>
             destruct (x <=? c)%float eqn:?
         end.

(** [getSmogLevel]: the class index is one of 0..5 whatever the index is
    -- a NaN index falls through every test to class 5, Hazardous -- and
    a larger index never gets a smaller class. *)
Theorem getSmogLevel_monotone (a b : number) :
  0 <= value (smog (getSmogLevel a)) <= 5
  /\ (is_nan a = true -> value (smog (getSmogLevel a)) = 5)
  /\ ((a <=? b)%float = true ->
      value (smog (getSmogLevel a)) <= value (smog (getSmogLevel b))).
Proof.
  split; [|split].
  - unfold getSmogLevel. split_levels; cbn [value smog]; lia.
  - intros Hn. unfold getSmogLevel. rewrite !(nan_not_leb_l a _ Hn). reflexivity.
  - intros Hab. unfold getSmogLevel.
    split_levels; cbn [value smog]; try lia; exfalso;
      repeat match goal with
             | Hb : (b <=? ?c)%float = true, Ha : (a <=? ?c)%float = false |- _ =>
                 rewrite (leb_trans a b c Hab Hb) in Ha; discriminate Ha
             end.
Qed.

(** The color table of the prediction form agrees with [getSmogLevel] on
    every class; its name table agrees on every class but 2, where the
    form says "Unhealthy for Sensitive" and the generator "Unhealthy for
    Sensitive Groups". *)
Theorem smog_level_tables (aqi : number) :
  let info := getSmogLevel aqi in
  let class := Z.to_nat (value (smog info)) in
  nth_error smogLevelColors class = Some (color info)
  /\ (value (smog info) <> 2 -> nth_error smogLevelNames class = Some (level info))
  /\ (value (smog info) = 2 -> nth_error smogLevelNames class <> Some (level info)).
Proof.
  unfold getSmogLevel. split_levels; cbn; repeat split; try reflexivity;
    try congruence; try discriminate.
Qed.

(* ================================================================== *)
(** ** Closed instances, on the concrete host *)
(* ================================================================== *)

Lemma RefHost_exp_not_negative (t : number) : (RefHost.exp t <? 0)%float = false.
Proof.
  unfold RefHost.exp.
  destruct (is_nan t); [reflexivity|].
  destruct (t =? infinity)%float; [reflexivity|].
  destruct (t =? neg_infinity)%float; [reflexivity|].
  rewrite Nat.iter_succ. apply square_not_negative.
Qed.

(** C1, at the freshly constructed classifier: the prediction is -1 and the
    confidence -Infinity. *)
Lemma predict_untrained_fresh :
  predict RefHost.exp RefHost.RNG (to_input rec1) (ref_world fresh 1) =
  Normal {| prediction := -1; probabilities := []; confidence := neg_infinity |}
         (ref_world fresh 1).
Proof.
  apply (predict_untrained RefHost.exp RefHost.RNG (to_input rec1) (ref_world fresh 1)).
  simpl. constructor.
Defined.

(** C1 as the specification words it fails: what a fresh classifier
    answers is not prediction 0 with confidence 0. *)
Lemma predict_fresh_not_zero :
  exists r w',
    predict RefHost.exp RefHost.RNG (to_input rec1) (ref_world fresh 1) = Normal r w' /\
    prediction r = -1 /\ confidence r = neg_infinity /\
    ~ (prediction r = 0 /\ confidence r = 0%float).
Proof.
  eexists; eexists. split; [reflexivity|]. simpl.
  split; [reflexivity|]. split; [reflexivity|].
  intros [H _]. discriminate H.
Qed.

Lemma trained_world_run :
  ref_train [rec1; rec2] (ref_world fresh 1) = Normal tt trained_world.
Proof. vm_compute. reflexivity. Qed.

(** C2 as the specification words it fails: [train([])] throws. *)
Lemma train_empty_not_normal :
  ref_train [] (ref_world fresh 1) = Throw TypeError (ref_world fresh 1)
  /\ ~ (exists w', ref_train [] (ref_world fresh 1) = Normal tt w').
Proof.
  split; [reflexivity|].
  intros [w' H]. discriminate H.
Qed.

(** C3, on a two-row matrix. *)
Lemma trainBinaryClassifier_gradient_descent_witness :
  exists m w',
    trainBinaryClassifier RefHost.exp RefHost.log RefHost.RNG RefHost.random
      [[0; 1]; [1; 0.5]]%float [2; 4] 2 (ref_world fresh 1) = Normal m w'
    /\ trained m = true /\ self w' = fresh.
Proof.
  destruct (trainBinaryClassifier_gradient_descent
              RefHost.exp RefHost.log RefHost.RNG RefHost.random
              [[0; 1]; [1; 0.5]]%float [2; 4] 2 (ref_world fresh 1))
    as [w' [Hrun Hself]].
  - discriminate.
  - intros x [Hx|[Hx|[]]]; subst x; reflexivity.
  - eexists; exists w'. split; [exact Hrun|]. split; [reflexivity|exact Hself].
Defined.

(** C10, on two records. *)
Lemma train_builds_six_trained_models_witness :
  exists w',
    ref_train [rec1; rec2] (ref_world fresh 1) = Normal tt w'
    /\ length (models (self w')) = 6%nat.
Proof.
  destruct (train_builds_six_trained_models
              RefHost.exp RefHost.log RefHost.RNG RefHost.random
              [rec1; rec2] (ref_world fresh 1))
    as [w' [Hrun [Hlen _]]].
  - discriminate.
  - exists w'. split; [exact Hrun|exact Hlen].
Defined.

(** C9, after training on two records and three further calls. *)
Lemma normalization_bounds_frozen_witness :
  featureMins (self trained_world) = [45; 10; 40; 3; 4.2; 1001]%float
  /\ self (run_calls RefHost.exp RefHost.RNG RefHost.random
             [CallPredict (to_input rec1); CallEvaluate [rec1; rec2]; CallImportance]
             trained_world)
     = self trained_world.
Proof.
  destruct (normalization_bounds_frozen
              RefHost.exp RefHost.log RefHost.RNG RefHost.random
              [rec1; rec2] (ref_world fresh 1) trained_world
              [CallPredict (to_input rec1); CallEvaluate [rec1; rec2]; CallImportance]
              (to_input rec2) [rec2] trained_world_run)
    as [fs [ls [mins [maxs [Hex [Hmins [_ [Hself _]]]]]]]].
  split; [|exact Hself].
  rewrite Hmins. vm_compute in Hex. inversion Hex. reflexivity.
Defined.

(** C4, on the classifier trained on two records. *)
Lemma feature_importance_normalized_witness :
  exists scores,
    ref_importance trained_world = Normal scores trained_world
    /\ length scores = 6%nat
    /\ Math_max (map importance scores) = 1%float
    /\ Sorted descending scores.
Proof.
  destruct (feature_importance_normalized RefHost.RNG trained_world)
    as [scores [Hrun [_ [Hlen [Hreg _]]]]].
  destruct Hreg as [_ [Hmax Hsorted]].
  - vm_compute. reflexivity.
  - vm_compute. reflexivity.
  - exists scores. auto.
Defined.

(** C4 as the specification words it fails.  After [train] on a single
    record the classifier holds six trained models whose weights are all
    NaN: their magnitude is not 0, the largest average is NaN, and every
    score is NaN, so no score is in [0, 1] and the largest is not 1.  The
    same happens with weights of positive magnitude: with one weight
    [5e-324] among six models the average [5e-324 / 6] rounds to 0, the
    largest average is 0, and every score is [0 / 0]. *)
Lemma feature_importance_not_normalized :
  exists scores scores',
    ref_train [rec1] (ref_world fresh 1) = Normal tt degenerate_world
    /\ length (models (self degenerate_world)) = 6%nat
    /\ Forall (fun m => trained m = true) (models (self degenerate_world))
    /\ Forall (fun m => Forall (fun x => (Math_abs x =? 0)%float = false) (weights m))
              (models (self degenerate_world))
    /\ ref_importance degenerate_world = Normal scores' degenerate_world
    /\ map importance scores' = [nan; nan; nan; nan; nan; nan]
    /\ Math_max (map importance scores') <> 1%float
    /\ ~ Forall (fun s => (0 <=? importance s)%float = true
                         /\ (importance s <=? 1)%float = true) scores'
    /\ ref_importance (ref_world tiny_classifier 1) = Normal scores (ref_world tiny_classifier 1)
    /\ length (models tiny_classifier) = 6%nat
    /\ Forall (fun m => trained m = true) (models tiny_classifier)
    /\ (0 <? Math_abs (get (weights tiny_model) 0))%float = true
    /\ map importance scores = [nan; nan; nan; nan; nan; nan]
    /\ Math_max (map importance scores) <> 1%float
    /\ ~ Forall (fun s => (0 <=? importance s)%float = true
                         /\ (importance s <=? 1)%float = true) scores.
Proof.
  eexists; eexists.
  split; [vm_compute; reflexivity|].
  split; [reflexivity|]. split; [repeat constructor|].
  split; [repeat constructor|].
  split; [vm_compute; reflexivity|].
  split; [reflexivity|]. split.
  { intros H. apply (f_equal is_nan) in H. vm_compute in H. discriminate H. }
  split.
  { intros H. inversion H as [|? ? [H0 _] _]. vm_compute in H0. discriminate H0. }
  split; [vm_compute; reflexivity|].
  split; [reflexivity|]. split; [repeat constructor|]. split; [reflexivity|].
  split; [reflexivity|]. split.
  { intros H. apply (f_equal is_nan) in H. vm_compute in H. discriminate H. }
  intros H. inversion H as [|? ? [H0 _] _]. vm_compute in H0. discriminate H0.
Qed.

(** C5, on the classifier trained on two records and the same records. *)
Lemma evaluate_confusion_matrix_witness :
  exists m w',
    ref_evaluate [rec1; rec2] trained_world = Normal m w'
    /\ grid (confusionMatrix m)
    /\ matrix_sum (confusionMatrix m) = 2
    /\ accuracy m = (num_of_Z (diag_sum (confusionMatrix m)) / 2)%float.
Proof.
  destruct (evaluate_confusion_matrix RefHost.exp RefHost.RNG RefHost.random
              [rec1; rec2] trained_world)
    as [m [w' [Hrun [Hgrid [_ [_ [Hsum Hacc]]]]]]].
  - vm_compute. repeat constructor.
  - repeat constructor; simpl; lia.
  - exists m, w'. split; [exact Hrun|]. split; [exact Hgrid|].
    split; [|exact Hacc]. apply Hsum.
    apply Forall_forall. intros ap Hin. vm_compute in Hin.
    destruct Hin as [<-|[<-|[]]]; simpl; lia.
Defined.

(** C5 as the specification words it fails: after training on a single
    record every probability is NaN, [indexOf] finds no maximum and answers
    -1, and the evaluated record is counted in no cell of the matrix. *)
Lemma evaluate_matrix_misses_records :
  exists m w',
    ref_train [rec1] (ref_world fresh 1) = Normal tt degenerate_world
    /\ Forall (fun d => 0 <= value (smogLevel d) <= 5) [rec1]
    /\ ref_evaluate [rec1] degenerate_world = Normal m w'
    /\ eval_pairs RefHost.exp (self degenerate_world) [rec1] = [(2, -1)]
    /\ matrix_sum (confusionMatrix m) = 0
    /\ matrix_sum (confusionMatrix m) <> Z.of_nat (length [rec1]).
Proof.
  eexists; eexists. split; [vm_compute; reflexivity|].
  split; [repeat constructor; simpl; lia|].
  split; [vm_compute; reflexivity|]. split; [vm_compute; reflexivity|].
  split; [reflexivity|]. intros H. discriminate H.
Qed.

(** C6, on the classifier trained on two records: class 0 has no
    prediction and no record, class 2 has one of each. *)
Lemma class_metrics_defined_witness :
  exists m w',
    ref_evaluate [rec1; rec2] trained_world = Normal m w'
    /\ class_precision (confusionMatrix m) 0 = 0%float
    /\ class_recall (confusionMatrix m) 0 = 0%float
    /\ class_f1 (confusionMatrix m) 0 = 0%float
    /\ is_nan (precision m) = false
    /\ is_nan (recall m) = false
    /\ is_nan (f1Score m) = false.
Proof.
  destruct (class_metrics_defined RefHost.exp RefHost.RNG RefHost.random
              [rec1; rec2] trained_world eq_refl)
    as [Hret Hall].
  destruct Hret as [m [w' Hrun]].
  - vm_compute. repeat constructor.
  - repeat constructor; simpl; lia.
  - exists m, w'. split; [exact Hrun|].
    specialize (Hall m w' Hrun). cbv zeta in Hall.
    destruct Hall as [Hclass [_ [_ [_ [Np [Nr Nf]]]]]].
    destruct (Hclass 0%nat ltac:(repeat constructor)) as [_ [_ [_ [Hp [Hr [Hf _]]]]]].
    vm_compute in Hrun. injection Hrun as Hm _. subst m.
    assert (Ep := Hp eq_refl). assert (Er := Hr eq_refl).
    split; [exact Ep|]. split; [exact Er|]. split; [exact (Hf Ep Er)|].
    split; [exact Np|]. split; [exact Nr|exact Nf].
Defined.

(** C7, on the classifier trained on two records and the first of them. *)
Lemma predict_argmax_witness :
  exists r,
    ref_predict (to_input rec1) trained_world = Normal r trained_world
    /\ prediction r = 2
    /\ confidence r = Math_max (probabilities r).
Proof.
  destruct (predict_argmax RefHost.exp RefHost.RNG (to_input rec1) trained_world)
    as [Hrun [Hconf _]].
  - discriminate.
  - vm_compute. repeat constructor.
  - eexists. split; [exact Hrun|]. split; [vm_compute; reflexivity|exact Hconf].
Defined.

(** C8, on the classifier trained on two records. *)
Lemma evaluate_roc_curve_witness :
  exists m w',
    ref_evaluate [rec1; rec2] trained_world = Normal m w'
    /\ length (rocCurve m) = 11%nat
    /\ map fpr (rocCurve m)
       = [0; 0.1; 0.2; 0.3; 0.4; 0.5; 0.6; 0.7; 0.8; 0.9; 1]%float.
Proof.
  destruct (evaluate_roc_curve RefHost.exp RefHost.RNG RefHost.random
              [rec1; rec2] trained_world)
    as [Hret Hall].
  - vm_compute. repeat constructor.
  - destruct Hret as [m [w' Hrun]].
    + vm_compute. repeat constructor.
    + repeat constructor; simpl; lia.
    + exists m, w'. split; [exact Hrun|].
      destruct (Hall m w' Hrun) as [_ [Hlen [Hfpr _]]].
      split; [exact Hlen|exact Hfpr].
Defined.

(** [extractFeatures_bounds], on two records. *)
Lemma extractFeatures_bounds_witness :
  exists mins maxs,
    extractFeatures [rec1; rec2]
    = inr (map feature_row [rec1; rec2], [2; 4], mins, maxs)
    /\ (get mins 0 <=? pm25 rec1)%float = true
    /\ (pm25 rec1 <=? get maxs 0)%float = true.
Proof.
  destruct (extractFeatures_bounds rec1 [rec2]) as [mins [maxs [Hrun [_ [_ [Hb _]]]]]].
  - repeat constructor.
  - exists mins, maxs. split; [exact Hrun|].
    apply (Hb rec1 0%nat); [now left|repeat constructor].
Defined.

(** [extractFeatures_nan], on a record whose humidity is NaN. *)
Lemma extractFeatures_nan_witness :
  exists features labels mins maxs,
    extractFeatures
      [rec1; {| pm25 := 60; temperature := 15; humidity := nan; windSpeed := 5;
                visibility := 9; pressure := 1005; smogLevel := {| value := 3 |} |}]
    = inr (features, labels, mins, maxs)
    /\ is_nan (get mins 2) = true /\ is_nan (get maxs 2) = true.
Proof.
  apply (extractFeatures_nan rec1 _ 2%nat).
  - repeat constructor.
  - apply Exists_cons_tl. apply Exists_cons_hd. reflexivity.
Defined.

(** [normalizeFeatures_endpoints], on a two-by-two matrix. *)
Lemma normalizeFeatures_endpoints_witness :
  get (nth 0 (normalizeFeatures [[45; 22]; [120.5; 10]]%float [45; 10]%float
                                [120.5; 22]%float) []) 0
  = 0%float.
Proof.
  destruct (normalizeFeatures_endpoints [[45; 22]; [120.5; 10]]%float [45; 10]%float
              [120.5; 22]%float 0 0) as [_ [_ [H _]]].
  - repeat constructor.
  - repeat constructor.
  - apply H; reflexivity.
Defined.

(** [constant_feature_is_nan], on a single record. *)
Lemma constant_feature_is_nan_witness :
  exists features labels mins maxs,
    extractFeatures [rec1] = inr (features, labels, mins, maxs)
    /\ get mins 0 = 45%float /\ get maxs 0 = 45%float
    /\ Forall (fun row => is_nan (get row 0) = true) (normalizeFeatures features mins maxs).
Proof.
  destruct (constant_feature_is_nan rec1 [] 0 45%float)
    as [features [labels [mins [maxs [Hrun [Hlo [Hhi [_ Hall]]]]]]]].
  - repeat constructor.
  - repeat constructor.
  - exists features, labels, mins, maxs. auto.
Defined.

(** [train_discards_previous]: training a fresh classifier and training
    again the classifier trained before. *)
Lemma train_discards_previous_witness :
  ref_train [rec1; rec2] (ref_world fresh 1)
  = ref_train [rec1; rec2] (ref_world (self trained_world) 1).
Proof.
  apply train_discards_previous; [discriminate|reflexivity].
Defined.

(** [evaluate_label_off_matrix], on a record labelled 6. *)
Lemma evaluate_label_off_matrix_witness :
  ref_evaluate
    [rec1; {| pm25 := 60; temperature := 15; humidity := 50; windSpeed := 5;
              visibility := 9; pressure := 1005; smogLevel := {| value := 6 |} |}]
    trained_world
  = Throw TypeError trained_world.
Proof.
  apply evaluate_label_off_matrix.
  - vm_compute. repeat constructor.
  - apply Exists_cons_tl. apply Exists_cons_hd. right. reflexivity.
Defined.

(** [evaluate_accuracy_range], on the classifier trained on two records. *)
Lemma evaluate_accuracy_range_witness :
  exists m w',
    ref_evaluate [rec1; rec2] trained_world = Normal m w'
    /\ (0 <=? accuracy m)%float = true /\ (accuracy m <=? 1)%float = true.
Proof.
  destruct (evaluate_accuracy_range RefHost.exp RefHost.RNG RefHost.random
              [rec1; rec2] trained_world ltac:(discriminate) eq_refl)
    as [Hret Hall].
  destruct Hret as [m [w' Hrun]].
  - vm_compute. repeat constructor.
  - repeat constructor; simpl; lia.
  - exists m, w'. split; [exact Hrun|]. exact (Hall m w' Hrun).
Defined.

(** [roc_points_in_unit_square], on the classifier trained on two
    records. *)
Lemma roc_points_in_unit_square_witness :
  exists m w',
    ref_evaluate [rec1; rec2] trained_world = Normal m w'
    /\ Forall (fun pt => ((0 <=? fpr pt)%float = true /\ (fpr pt <=? 1)%float = true)
                         /\ ((0 <=? tpr pt)%float = true /\ (tpr pt <=? 1)%float = true))
              (rocCurve m).
Proof.
  destruct (ref_evaluate [rec1; rec2] trained_world) as [m w'| |] eqn:Hrun;
    [|vm_compute in Hrun; discriminate Hrun ..].
  exists m, w'. split; [reflexivity|].
  refine (roc_points_in_unit_square RefHost.exp RefHost.RNG RefHost.random
            [rec1; rec2] trained_world _ m w' Hrun).
  vm_compute. repeat constructor.
Defined.

(** [predict_on_training_record], on the second of two records. *)
Lemma predict_on_training_record_witness :
  exists mins maxs w' res,
    ref_train [rec1; rec2] (ref_world fresh 1) = Normal tt w'
    /\ ref_predict (to_input rec2) w' = Normal res w'
    /\ probabilities res
       = map (fun model =>
                sigmoid RefHost.exp
                  (forward (weights model) (bias model)
                     (nth 1 (normalizeFeatures (map feature_row [rec1; rec2]) mins maxs) [])))
             (models (self w')).
Proof.
  destruct (predict_on_training_record RefHost.exp RefHost.log RefHost.RNG RefHost.random
              rec1 [rec2] (ref_world fresh 1) 1)
    as [mins [maxs [w' [_ [Hrun [_ [_ [res [Hp Hprobs]]]]]]]]].
  - repeat constructor.
  - exists mins, maxs, w', res. auto.
Defined.

(** [evaluate_generated_labels]: the labels 2 and 4 are those of the
    indices 120 and 250. *)
Lemma evaluate_generated_labels_witness :
  exists m w', ref_evaluate [rec1; rec2] trained_world = Normal m w'.
Proof.
  destruct (evaluate_generated_labels RefHost.exp RefHost.RNG RefHost.random
              [rec1; rec2] trained_world) as [m [w' [Hrun _]]].
  - vm_compute. repeat constructor.
  - constructor; [exists 120%float; reflexivity|].
    constructor; [exists 250%float; reflexivity|constructor].
  - exists m, w'. exact Hrun.
Defined.

(** [calculateAQI_off_table], at 12.05: between the first range and the
    second. *)
Lemma calculateAQI_off_table_witness :
  calculateAQI 12.05 = 500%float
  /\ value (smog (getSmogLevel (calculateAQI 12.05))) = 5.
Proof.
  apply calculateAQI_off_table.
  right. right. right. left. split; reflexivity.
Defined.

(** [sigmoid_range], at 2 on the reference [exp]. *)
Lemma sigmoid_range_witness :
  (0 <=? sigmoid RefHost.exp 2)%float = true
  /\ (sigmoid RefHost.exp 2 <=? 1)%float = true.
Proof.
  apply sigmoid_range. vm_compute. reflexivity.
Defined.

(** [predict_probabilities_range], on the classifier trained on two
    records: the reference [exp] ends in a square, so it is never
    negative. *)
Lemma predict_probabilities_range_witness :
  exists r,
    ref_predict (to_input rec1) trained_world = Normal r trained_world
    /\ (0 <=? confidence r)%float = true /\ (confidence r <=? 1)%float = true.
Proof.
  destruct (predict_probabilities_range RefHost.exp RefHost.RNG RefHost_exp_not_negative
              (to_input rec1) trained_world) as [r [Hrun [_ Hconf]]].
  exists r. split; [exact Hrun|]. apply Hconf.
  - discriminate.
  - rewrite predict_run in Hrun. injection Hrun as <-. vm_compute. repeat constructor.
Defined.

(** [evaluate_macro_metrics_range], on the classifier trained on two
    records. *)
Lemma evaluate_macro_metrics_range_witness :
  exists m w',
    ref_evaluate [rec1; rec2] trained_world = Normal m w'
    /\ (0 <=? precision m)%float = true /\ (precision m <=? 1)%float = true.
Proof.
  destruct (evaluate_macro_metrics_range RefHost.exp RefHost.RNG RefHost.random
              [rec1; rec2] trained_world eq_refl)
    as [Hret Hall].
  destruct Hret as [m [w' Hrun]].
  - vm_compute. repeat constructor.
  - repeat constructor; simpl; lia.
  - exists m, w'. split; [exact Hrun|]. exact (proj1 (Hall m w' Hrun)).
Defined.

Lemma trainModel_split_witness :
  ref_trainModel [rec1; rec2; rec1; rec2; rec1]
  = bind RefHost.RNG (ref_train [rec1; rec2; rec1; rec2]) (fun _ => ref_evaluate [rec1]).
Proof.
  exact (trainModel_split RefHost.exp RefHost.log RefHost.RNG RefHost.random
           [rec1; rec2; rec1; rec2; rec1] eq_refl).
Defined.

Lemma trainModel_too_few_records_witness :
  ref_trainModel [rec1] (ref_world fresh 1) = Throw TypeError (ref_world fresh 1).
Proof.
  apply trainModel_too_few_records. simpl. lia.
Defined.

Lemma trainModel_returns_witness :
  exists m w',
    ref_trainModel [rec1; rec2] (ref_world fresh 1) = Normal m w'
    /\ length (models (self w')) = 6%nat
    /\ (0 <=? accuracy m)%float = true /\ (accuracy m <=? 1)%float = true.
Proof.
  destruct (trainModel_returns RefHost.exp RefHost.log RefHost.RNG RefHost.random
              [rec1; rec2] (ref_world fresh 1))
    as [m [w' [Hrun [H6 [_ Hall]]]]].
  - simpl. lia.
  - reflexivity.
  - repeat constructor; simpl; lia.
  - exists m, w'. split; [exact Hrun|]. split; [exact H6|].
    inversion Hall as [|x l Hacc _]. exact Hacc.
Defined.
